(** * KORUZA driver: the TLV message codec (message.h, message.c) and the
    serial devices (serial.c)

    A shallow embedding of the protocol message container, its parser, its
    serializer, its checksum and its typed accessors, and of the functions
    that open the serial devices and send messages to them, followed by
    their properties.

    Conventions of the embedding.
    - [uint8_t] is [byte]; [uint16_t], [uint32_t], [int32_t] and the enums are
      [Z] with the wrap-around of each conversion written out.
    - [size_t] quantities (record count, offsets, buffer sizes) are [nat]:
      every one of them is bounded by the size of a buffer plus 65538, far
      below [SIZE_MAX], so no [size_t] operation of message.c wraps.
    - A buffer passed as pointer and size is the list of its bytes.
    - A [uint8_t *] that owns a heap block is [option (list byte)]: [None] is
      the null pointer, [Some bs] a block holding [bs].
    - [malloc] succeeds or fails as its environment decides: every operation
      that allocates takes the outcome(s) as an argument.
    - The byte order of the host and the CRC32 primitive (crc32.h) are the
      two parameters of the codec, see [Platform].
    - The standard output is the list of the bytes written to it.
    - Where the calls to [malloc] and [free] matter they are listed, in the
      order in which they are made, see [heap_call].
    - serial.c is embedded as well, after the codec: its functions run on
      the two devices and in an [Environment] that answers the calls they
      make, each call being recorded in a trace. *)

From Stdlib Require Import ZArith Lia Bool.
From Stdlib Require Import Strings.Byte.
From Stdlib Require Strings.String.
From stdpp Require Import base tactics option list list_numbers.

Local Open Scope Z_scope.

(** ** Bytes and fixed-width integers *)

#[global] Instance byte_eq_decision : EqDecision byte := Byte.byte_eq_dec.

Definition Z_of_byte (b : byte) : Z := Z.of_N (Byte.to_N b).

(** Conversion of an integer to [uint8_t]: reduction modulo 2^8. *)
Definition byte_of_Z (z : Z) : byte :=
  match Byte.of_N (Z.to_N (z mod 256)) with
  | Some b => b
  | None => x00
  end.

(** Conversions to [uint16_t] and [uint32_t]: reduction modulo 2^16, 2^32. *)
Definition u16 (z : Z) : Z := z mod 65536.
Definition u32 (z : Z) : Z := z mod 4294967296.

(** Conversion of a [uint32_t] to [int32_t] (two's complement, as gcc and
    clang define it). *)
Definition i32 (z : Z) : Z :=
  if u32 z <? 2147483648 then u32 z else u32 z - 4294967296.

Definition is_int32 (z : Z) : Prop := -2147483648 <= z < 2147483648.

(** Byte [k] (0 = least significant) of an integer, two's complement for a
    negative one. *)
Definition byte_at (k : Z) (z : Z) : byte := byte_of_Z (z / 256 ^ k).

(** The big-endian and little-endian encodings of a 16-bit and of a 32-bit
    integer, and the decodings of byte strings. *)
Definition be16 (z : Z) : list byte := [byte_at 1 z; byte_at 0 z].
Definition le16 (z : Z) : list byte := [byte_at 0 z; byte_at 1 z].
Definition be32 (z : Z) : list byte :=
  [byte_at 3 z; byte_at 2 z; byte_at 1 z; byte_at 0 z].
Definition le32 (z : Z) : list byte :=
  [byte_at 0 z; byte_at 1 z; byte_at 2 z; byte_at 3 z].

Fixpoint le_decode (bs : list byte) : Z :=
  match bs with
  | [] => 0
  | b :: bs' => Z_of_byte b + 256 * le_decode bs'
  end.

Definition be_decode (bs : list byte) : Z := le_decode (rev bs).

(** *** The host: byte order and object representation *)

Inductive endianness : Type := LittleEndian | BigEndian.

(** The byte swaps behind [htons], [ntohs], [htonl] and [ntohl] on a
    little-endian host. *)
Definition bswap16 (z : Z) : Z := (z mod 256) * 256 + (z / 256) mod 256.

Definition bswap32 (z : Z) : Z :=
  (z mod 256) * 16777216 + ((z / 256) mod 256) * 65536
  + ((z / 65536) mod 256) * 256 + (z / 16777216) mod 256.

(** Object representation of a 16-bit or 32-bit integer in the host's memory:
    what [memcpy] from its address reads, and what [memcpy] to it writes. *)
Definition store16 (h : endianness) (z : Z) : list byte :=
  match h with LittleEndian => le16 z | BigEndian => be16 z end.

Definition store32 (h : endianness) (z : Z) : list byte :=
  match h with LittleEndian => le32 z | BigEndian => be32 z end.

Definition load (h : endianness) (bs : list byte) : Z :=
  match h with LittleEndian => le_decode bs | BigEndian => be_decode bs end.

(** <arpa/inet.h>. The argument is converted to the parameter's unsigned
    type first. *)
Definition htons (h : endianness) (z : Z) : Z :=
  match h with LittleEndian => bswap16 (u16 z) | BigEndian => u16 z end.
Definition ntohs := htons.

Definition htonl (h : endianness) (z : Z) : Z :=
  match h with LittleEndian => bswap32 (u32 z) | BigEndian => u32 z end.
Definition ntohl := htonl.

(** *** The platform

    The two things message.c takes from its environment: the byte order of
    the host, and [uint32_t crc32(uint32_t crc, const void *buf, size_t size)]
    of crc32.h, here a function of the running value and of the [size] bytes
    at [buf]. *)
Class Platform : Type := {
  host : endianness;
  crc32 : Z -> list byte -> Z
}.

(** ** Outcomes of a C function

    [Ret a]: the function returns. [AssertFailed]: an [assert] aborts the
    process. [Undefined]: a read or a write outside an object, or through a
    null pointer. [OutOfFuel]: only the bounded rendition of a [while] loop
    produces it, see [message_parse_terminates]. *)
Inductive exec (A : Type) : Type :=
| Ret (a : A)
| AssertFailed
| Undefined
| OutOfFuel.

Arguments Ret {A} a.
Arguments AssertFailed {A}.
Arguments Undefined {A}.
Arguments OutOfFuel {A}.

Definition exec_bind {A B : Type} (c : exec A) (k : A -> exec B) : exec B :=
  match c with
  | Ret a => k a
  | AssertFailed => AssertFailed
  | Undefined => Undefined
  | OutOfFuel => OutOfFuel
  end.

Notation "'do' x <- c ; k" := (exec_bind c (fun x => k))
  (at level 10, x name, c at level 100, k at level 200).

(** What one pass through a loop body decides: go on with a new state, or
    leave the function with a result. *)
Inductive step (S R : Type) : Type :=
| Continue (s : S)
| Return (r : R).

Arguments Continue {S R} s.
Arguments Return {S R} r.

(** [for (size_t i = first; i < first + n; i++) body], the body with a
    [return] or an access to memory in it ([for_loop]) and without
    ([for_each]). *)
Fixpoint for_loop {S R : Type} (n first : nat)
    (body : nat -> S -> exec (step S R)) (s : S) : exec (step S R) :=
  match n with
  | O => Ret (Continue s)
  | Datatypes.S n' =>
      do r <- body first s;
      match r with
      | Continue s' => for_loop n' (Datatypes.S first) body s'
      | Return r => Ret (Return r)
      end
  end.

Fixpoint for_each {S : Type} (n first : nat) (body : nat -> S -> S) (s : S) : S :=
  match n with
  | O => s
  | Datatypes.S n' => for_each n' (Datatypes.S first) body (body first s)
  end.

(** [memcpy(dst + at, src, n)]: the new contents of the object [dst]. *)
Definition memcpy (dst : list byte) (at_ : nat) (src : list byte) (n : nat)
    : exec (list byte) :=
  if decide (at_ + n <= length dst /\ n <= length src)%nat
  then Ret (take at_ dst ++ take n src ++ drop (at_ + n) dst)
  else Undefined.

(** [memcmp(a, b, n) != 0]. *)
Definition memcmp_differ (a b : list byte) (n : nat) : exec bool :=
  if decide (n <= length a /\ n <= length b)%nat
  then Ret (bool_decide (take n a <> take n b))
  else Undefined.

(** The block a non-null pointer points to. *)
Definition deref (p : option (list byte)) : exec (list byte) :=
  match p with
  | Some block => Ret block
  | None => Undefined
  end.

(** A block fresh from [malloc(n)]. Its contents are indeterminate; message.c
    overwrites all [n] bytes before it reads any. *)
Definition malloc_block (n : nat) : list byte := replicate n x00.

Definition sizeof_uint8_t : nat := 1.
Definition sizeof_uint16_t : nat := 2.
Definition sizeof_uint32_t : nat := 4.

(** ** message.h *)

Definition MAX_TLV_COUNT : nat := 25.

(** [tlv_type_t] *)
Definition TLV_COMMAND : Z := 1.
Definition TLV_REPLY : Z := 2.
Definition TLV_CHECKSUM : Z := 3.
Definition TLV_MOTOR_POSITION : Z := 4.
Definition TLV_CURRENT_READING : Z := 5.
Definition TLV_SFP_CALIBRATION : Z := 6.
Definition TLV_ERROR_REPORT : Z := 7.
Definition TLV_POWER_READING : Z := 8.
Definition TLV_ENCODER_VALUE : Z := 9.
Definition TLV_VIBRATION_VALUE : Z := 10.
Definition TLV_NET_HELLO : Z := 100.
Definition TLV_NET_SIGNATURE : Z := 101.

(** [tlv_command_t], [tlv_reply_t] *)
Definition COMMAND_GET_STATUS : Z := 1.
Definition COMMAND_MOVE_MOTOR : Z := 2.
Definition COMMAND_SEND_IR : Z := 3.
Definition COMMAND_REBOOT : Z := 4.
Definition COMMAND_FIRMWARE_UPGRADE : Z := 5.
Definition COMMAND_HOMING : Z := 6.
Definition COMMAND_RESTORE_MOTOR : Z := 7.
Definition REPLY_STATUS_REPORT : Z := 1.
Definition REPLY_ERROR_REPORT : Z := 2.

(** [tlv_motor_position_t] *)
Record tlv_motor_position_t : Type := {
  motor_x : Z;
  motor_y : Z;
  motor_z : Z
}.

Definition sizeof_tlv_motor_position_t : nat := 12.

Inductive message_result_t : Type :=
| MESSAGE_SUCCESS
| MESSAGE_ERROR_TOO_MANY_TLVS
| MESSAGE_ERROR_OUT_OF_MEMORY
| MESSAGE_ERROR_BUFFER_TOO_SMALL
| MESSAGE_ERROR_PARSE_ERROR
| MESSAGE_ERROR_CHECKSUM_MISMATCH
| MESSAGE_ERROR_TLV_NOT_FOUND.

#[global] Instance message_result_eq_decision : EqDecision message_result_t.
Proof. solve_decision. Defined.

(** The enumerators' values. *)
Definition result_code (r : message_result_t) : Z :=
  match r with
  | MESSAGE_SUCCESS => 0
  | MESSAGE_ERROR_TOO_MANY_TLVS => -1
  | MESSAGE_ERROR_OUT_OF_MEMORY => -2
  | MESSAGE_ERROR_BUFFER_TOO_SMALL => -3
  | MESSAGE_ERROR_PARSE_ERROR => -4
  | MESSAGE_ERROR_CHECKSUM_MISMATCH => -5
  | MESSAGE_ERROR_TLV_NOT_FOUND => -6
  end.

(** [tlv_t]: fields [type], [length], [value]. *)
Record tlv_t : Type := mk_tlv {
  tlv_type : byte;
  tlv_length : Z;
  tlv_value : option (list byte)
}.

(** [message_t]: fields [length], [tlv]. *)
Record message_t : Type := mk_message {
  msg_length : nat;
  msg_tlv : list tlv_t
}.

#[global] Instance tlv_eq_decision : EqDecision tlv_t.
Proof. solve_decision. Defined.

#[global] Instance message_eq_decision : EqDecision message_t.
Proof. solve_decision. Defined.

(** All bits zero. *)
Definition zero_tlv : tlv_t := mk_tlv x00 0 None.

#[global] Instance tlv_inhabited : Inhabited tlv_t := populate zero_tlv.

(** [message->tlv[i]], and the assignments to its fields. *)
Definition tlv_at (message : message_t) (i : nat) : tlv_t :=
  msg_tlv message !!! i.

Definition set_type (i : nat) (type : byte) (message : message_t) : message_t :=
  mk_message (msg_length message)
    (alter (fun t => mk_tlv type (tlv_length t) (tlv_value t)) i (msg_tlv message)).

Definition set_length (i : nat) (length : Z) (message : message_t) : message_t :=
  mk_message (msg_length message)
    (alter (fun t => mk_tlv (tlv_type t) length (tlv_value t)) i (msg_tlv message)).

Definition set_value (i : nat) (value : option (list byte)) (message : message_t)
    : message_t :=
  mk_message (msg_length message)
    (alter (fun t => mk_tlv (tlv_type t) (tlv_length t) value) i (msg_tlv message)).

(** [message->length++] *)
Definition incr_length (message : message_t) : message_t :=
  mk_message (Datatypes.S (msg_length message)) (msg_tlv message).

(** ** message.c *)

Section message_c.
Context `{Platform}.

Definition message_init (message : message_t) : message_result_t * message_t :=
  (* memset(message, 0, sizeof(message_t)) *)
  (MESSAGE_SUCCESS, mk_message 0 (replicate MAX_TLV_COUNT zero_tlv)).

(** Every live value block is handed back to the allocator (the heap is not
    part of the embedding), then the message is reset. *)
Definition message_free (message : message_t) : message_t :=
  snd (message_init message).

(** The body of the loop of [message_checksum], [tlv] standing for
    [message->tlv[i]]: the running CRC32, a [uint32_t]. *)
Definition checksum_body (tlv : tlv_t) (checksum : Z) : exec (step Z unit) :=
  let length := Z.to_nat (tlv_length tlv) in
  do value <- deref (tlv_value tlv);
  if decide (length <= List.length value)%nat
  then Ret (Continue (u32 (crc32 checksum (take length value))))
  else Undefined.

Definition message_checksum (message : message_t) : exec Z :=
  do r <- for_loop (msg_length message) 0
            (fun i => checksum_body (tlv_at message i)) 0;
  match r with
  | Continue checksum => Ret (htonl host checksum)
  | Return _ => Undefined
  end.

(** One pass through the body of the [while] loop of [message_parse], entered
    with [offset < length]. [malloc_ok i] tells whether the allocation for
    record [i] succeeds. *)
Definition parse_body (malloc_ok : nat -> bool) (data : list byte)
    (offset : nat) (message : message_t)
    : exec (step (nat * message_t) (message_result_t * message_t)) :=
  if decide (MAX_TLV_COUNT <= msg_length message)%nat
  then Ret (Return (MESSAGE_ERROR_TOO_MANY_TLVS, message_free message))
  else
    let i := msg_length message in
    (* Parse type. *)
    match data !! offset with
    | None => Undefined
    | Some type =>
      let message := set_type i type message in
      let offset := (offset + sizeof_uint8_t)%nat in
      if decide (List.length data < offset + sizeof_uint16_t)%nat
      then Ret (Return (MESSAGE_ERROR_PARSE_ERROR, message_free message))
      else
        (* Parse length. *)
        do raw <- memcpy (store16 host (tlv_length (tlv_at message i))) 0
                    (drop offset data) sizeof_uint16_t;
        let message := set_length i (load host raw) message in
        let message :=
          set_length i (ntohs host (tlv_length (tlv_at message i))) message in
        let offset := (offset + sizeof_uint16_t)%nat in
        let length := Z.to_nat (tlv_length (tlv_at message i)) in
        if decide (List.length data < offset + length)%nat
        then Ret (Return (MESSAGE_ERROR_PARSE_ERROR, message_free message))
        else
          (* Parse value. *)
          if negb (malloc_ok i)
          then
            let message := set_value i None message in
            Ret (Return (MESSAGE_ERROR_OUT_OF_MEMORY, message_free message))
          else
            let message := set_value i (Some (malloc_block length)) message in
            do block <- deref (tlv_value (tlv_at message i));
            do block <- memcpy block 0 (drop offset data) length;
            let message := set_value i (Some block) message in
            let offset := (offset + length)%nat in
            (* If this is a checksum TLV, do checksum verification
               immediately. *)
            if decide (Z_of_byte (tlv_type (tlv_at message i)) = TLV_CHECKSUM)
            then
              do checksum <- message_checksum message;
              do value <- deref (tlv_value (tlv_at message i));
              do differ <- memcmp_differ (store32 host checksum) value
                             (Nat.b2n (negb (sizeof_uint32_t =? 0)%nat));
              if differ
              then Ret (Return (MESSAGE_ERROR_CHECKSUM_MISMATCH,
                                message_free message))
              else Ret (Continue (offset, incr_length message))
            else Ret (Continue (offset, incr_length message))
    end.

(** [while (offset < length) body], at most [fuel] passes. *)
Fixpoint parse_loop (fuel : nat) (malloc_ok : nat -> bool) (data : list byte)
    (offset : nat) (message : message_t) : exec (message_result_t * message_t) :=
  match fuel with
  | O => OutOfFuel
  | S fuel' =>
      if decide (offset < List.length data)%nat
      then
        do r <- parse_body malloc_ok data offset message;
        match r with
        | Continue (offset', message') =>
            parse_loop fuel' malloc_ok data offset' message'
        | Return result => Ret result
        end
      else Ret (MESSAGE_SUCCESS, message)
  end.

(** [message_parse(message, data, length)], [data] holding [length] bytes:
    the result code and the message left in [*message]. Every pass that does
    not return consumes at least three bytes, so [length + 1] passes are
    enough. *)
Definition message_parse (malloc_ok : nat -> bool) (message : message_t)
    (data : list byte) : exec (message_result_t * message_t) :=
  let message := snd (message_init message) in
  parse_loop (Datatypes.S (List.length data)) malloc_ok data 0 message.

(** [message_tlv_add(message, type, length, value)]: [value] is the object
    the pointer argument points into, [malloc_ok] the outcome of the one
    allocation. The [length] argument is converted to [uint16_t]. *)
Definition message_tlv_add (malloc_ok : bool) (message : message_t)
    (type : byte) (length : Z) (value : list byte)
    : exec (message_result_t * message_t) :=
  let length := u16 length in
  if decide (MAX_TLV_COUNT <= msg_length message)%nat
  then Ret (MESSAGE_ERROR_TOO_MANY_TLVS, message)
  else
    let i := msg_length message in
    if negb malloc_ok
    then
      let message := set_value i None message in
      Ret (MESSAGE_ERROR_OUT_OF_MEMORY, message)
    else
      let message := set_value i (Some (malloc_block (Z.to_nat length))) message in
      let message := set_type i type message in
      let message := set_length i length message in
      do block <- deref (tlv_value (tlv_at message i));
      do block <- memcpy block 0 value (Z.to_nat length);
      let message := set_value i (Some block) message in
      let message := incr_length message in
      Ret (MESSAGE_SUCCESS, message).

Definition message_tlv_add_command (malloc_ok : bool) (message : message_t)
    (command : Z) : exec (message_result_t * message_t) :=
  let _command := byte_of_Z command in
  message_tlv_add malloc_ok message (byte_of_Z TLV_COMMAND)
    (Z.of_nat sizeof_uint8_t) [_command].

Definition message_tlv_add_reply (malloc_ok : bool) (message : message_t)
    (reply : Z) : exec (message_result_t * message_t) :=
  let _reply := byte_of_Z reply in
  message_tlv_add malloc_ok message (byte_of_Z TLV_REPLY)
    (Z.of_nat sizeof_uint8_t) [_reply].

(** Object representation of a [tlv_motor_position_t] (three [int32_t], no
    padding), and the struct an object of 12 bytes holds. *)
Definition motor_position_bytes (p : tlv_motor_position_t) : list byte :=
  store32 host (motor_x p) ++ store32 host (motor_y p) ++ store32 host (motor_z p).

Definition motor_position_of_bytes (bs : list byte) : tlv_motor_position_t :=
  {| motor_x := i32 (load host (take 4 bs));
     motor_y := i32 (load host (take 4 (drop 4 bs)));
     motor_z := i32 (load host (take 4 (drop 8 bs))) |}.

Definition message_tlv_add_motor_position (malloc_ok : bool)
    (message : message_t) (position : tlv_motor_position_t)
    : exec (message_result_t * message_t) :=
  let tmp := {| motor_x := i32 (htonl host (motor_x position));
                motor_y := i32 (htonl host (motor_y position));
                motor_z := i32 (htonl host (motor_z position)) |} in
  message_tlv_add malloc_ok message (byte_of_Z TLV_MOTOR_POSITION)
    (Z.of_nat sizeof_tlv_motor_position_t) (motor_position_bytes tmp).

Definition message_tlv_add_current_reading (malloc_ok : bool)
    (message : message_t) (current : Z) : exec (message_result_t * message_t) :=
  let current := htons host (u16 current) in
  message_tlv_add malloc_ok message (byte_of_Z TLV_CURRENT_READING)
    (Z.of_nat sizeof_uint16_t) (store16 host current).

Definition message_tlv_add_checksum (malloc_ok : bool) (message : message_t)
    : exec (message_result_t * message_t) :=
  do checksum <- message_checksum message;
  message_tlv_add malloc_ok message (byte_of_Z TLV_CHECKSUM)
    (Z.of_nat sizeof_uint32_t) (store32 host checksum).
(** The body of the loop of [message_tlv_get], [tlv] standing for
    [message->tlv[i]]. [destination] is the object of [length] bytes the
    caller passes. *)
Definition get_body (type : byte) (destination : list byte) (tlv : tlv_t)
    (_ : unit) : exec (step unit (message_result_t * list byte)) :=
  if decide (tlv_type tlv = type)
  then
    if decide (tlv_length tlv <= Z.of_nat (List.length destination))
    then
      do value <- deref (tlv_value tlv);
      do destination <- memcpy destination 0 value (Z.to_nat (tlv_length tlv));
      Ret (Return (MESSAGE_SUCCESS, destination))
    else AssertFailed
  else Ret (Continue tt).

(** [message_tlv_get(message, type, destination, length)]: the result code
    and the contents of the destination afterwards. *)
Definition message_tlv_get (message : message_t) (type : byte)
    (destination : list byte) : exec (message_result_t * list byte) :=
  do r <- for_loop (msg_length message) 0
            (fun i => get_body type destination (tlv_at message i)) tt;
  match r with
  | Return result => Ret result
  | Continue _ => Ret (MESSAGE_ERROR_TLV_NOT_FOUND, destination)
  end.

(** The typed getters: the result code and the value of the out-parameter
    afterwards. [_command] and [_reply] are the indeterminate initial values
    of the one-byte locals the record is copied into. *)
Definition message_tlv_get_command (message : message_t) (command : Z)
    (_command : byte) : exec (message_result_t * Z) :=
  do r <- message_tlv_get message (byte_of_Z TLV_COMMAND) [_command];
  let '(result, local) := r in
  if decide (result <> MESSAGE_SUCCESS)
  then Ret (result, command)
  else Ret (MESSAGE_SUCCESS, load host local).

Definition message_tlv_get_reply (message : message_t) (reply : Z)
    (_reply : byte) : exec (message_result_t * Z) :=
  do r <- message_tlv_get message (byte_of_Z TLV_REPLY) [_reply];
  let '(result, local) := r in
  if decide (result <> MESSAGE_SUCCESS)
  then Ret (result, reply)
  else Ret (MESSAGE_SUCCESS, load host local).

Definition message_tlv_get_motor_position (message : message_t)
    (position : tlv_motor_position_t)
    : exec (message_result_t * tlv_motor_position_t) :=
  do r <- message_tlv_get message (byte_of_Z TLV_MOTOR_POSITION)
            (motor_position_bytes position);
  let '(result, object) := r in
  let position := motor_position_of_bytes object in
  if decide (result <> MESSAGE_SUCCESS)
  then Ret (result, position)
  else
    Ret (MESSAGE_SUCCESS,
         {| motor_x := i32 (ntohl host (motor_x position));
            motor_y := i32 (ntohl host (motor_y position));
            motor_z := i32 (ntohl host (motor_z position)) |}).

Definition message_tlv_get_current_reading (message : message_t) (current : Z)
    : exec (message_result_t * Z) :=
  do r <- message_tlv_get message (byte_of_Z TLV_CURRENT_READING)
            (store16 host current);
  let '(result, object) := r in
  let current := load host object in
  if decide (result <> MESSAGE_SUCCESS)
  then Ret (result, current)
  else Ret (MESSAGE_SUCCESS, ntohs host current).

Definition message_serialized_size (message : message_t) : nat :=
  for_each (msg_length message) 0
    (fun i size =>
       (size + (sizeof_uint8_t + sizeof_uint16_t
                + Z.to_nat (tlv_length (tlv_at message i))))%nat)
    0%nat.

(** The body of the loop of [message_serialize], [tlv] standing for
    [message->tlv[i]]; the state is [offset], [remaining_buffer] and the
    contents of [buffer]. *)
Definition serialize_body (tlv : tlv_t) (s : nat * nat * list byte)
    : exec (step (nat * nat * list byte) (Z * list byte)) :=
  let '(offset, remaining_buffer, buffer) := s in
  let tlv_length_ :=
    (sizeof_uint8_t + sizeof_uint16_t + Z.to_nat (tlv_length tlv))%nat in
  if decide (remaining_buffer < tlv_length_)%nat
  then Ret (Return (result_code MESSAGE_ERROR_BUFFER_TOO_SMALL, buffer))
  else
    let hlength := htons host (tlv_length tlv) in
    do buffer <- memcpy buffer offset [tlv_type tlv] sizeof_uint8_t;
    do buffer <- memcpy buffer (offset + sizeof_uint8_t)
                   (store16 host hlength) sizeof_uint16_t;
    do value <- deref (tlv_value tlv);
    do buffer <- memcpy buffer (offset + sizeof_uint8_t + sizeof_uint16_t)
                   value (Z.to_nat (tlv_length tlv));
    Ret (Continue ((offset + tlv_length_)%nat,
                   (remaining_buffer - tlv_length_)%nat, buffer)).

(** [message_serialize(buffer, length, message)], [buffer] holding [length]
    bytes: the [ssize_t] returned and the contents of the buffer afterwards. *)
Definition message_serialize (buffer : list byte) (message : message_t)
    : exec (Z * list byte) :=
  do r <- for_loop (msg_length message) 0
            (fun i => serialize_body (tlv_at message i))
            (0%nat, List.length buffer, buffer);
  match r with
  | Continue (offset, _, buffer) => Ret (Z.of_nat offset, buffer)
  | Return result => Ret result
  end.

End message_c.

(** ** message.c: [message_print]

    What [message_print] writes to the standard output, as the bytes of the
    characters. *)

(** The literal text of the format strings. *)
Module fmt.
Import String.
Local Open Scope string_scope.

Definition text (s : string) : list byte := list_byte_of_string s.

(** First [printf]: the text before the count, and after it. *)
Definition message_open : list byte := text "<Message tlvs(".
Definition message_count : list byte := text ")=[".
(** Second [printf]: a brace before the type; a comma, a space and a
    quotation mark after it. *)
Definition tlv_open : list byte := text "{".
Definition value_open : list byte := text ", " ++ [x22].
(** Third [printf]: the space after a byte that is not the last. *)
Definition space : list byte := text " ".
(** Fourth [printf]: a quotation mark and a brace; the comma after a record
    that is not the last. *)
Definition value_close : list byte := [x22] ++ text "}".
Definition comma : list byte := text ",".
(** Last [printf]. *)
Definition message_close : list byte := text "]>".

(** What the dump of the message of a move-motor command reads: a command
    record, a motor position record and their checksum record. *)
Definition move_motor_dump : list byte :=
  text "<Message tlvs(3)=[{1, " ++ [x22] ++ text "02" ++ [x22]
  ++ text "},{4, " ++ [x22] ++ text "FF FF FF FF 00 0F 42 40 00 00 00 00" ++ [x22]
  ++ text "},{3, " ++ [x22] ++ text "07 29 49 9E" ++ [x22] ++ text "}]>".

End fmt.

(** The digit [d] of a conversion: decimal, and upper-case hexadecimal. *)
Definition digit (d : Z) : byte := byte_of_Z (if d <? 10 then 48 + d else 55 + d).

(** [%u] of an [unsigned int], 32 bits: its decimal digits, at most ten, the
    most significant first. *)
Fixpoint decimal (digits : nat) (n : Z) (less_significant : list byte) : list byte :=
  match digits with
  | O => less_significant
  | S digits' =>
      let out := digit (n mod 10) :: less_significant in
      if n / 10 =? 0 then out else decimal digits' (n / 10) out
  end.

Definition print_u (n : Z) : list byte := decimal 10 (u32 n) [].

(** [%02X] of a byte: two hexadecimal digits. *)
Definition print_02X (b : byte) : list byte :=
  [digit (Z_of_byte b / 16); digit (Z_of_byte b mod 16)].

(** The body of the inner loop, [data] and [data_length] being the value
    pointer and the length of the record: [data[j]] is printed, and a space
    unless it is the last byte. [data_length - 1] is computed inside the
    loop only, where [data_length] is at least 1. *)
Definition print_byte_body (data : option (list byte)) (data_length : nat)
    (j : nat) (out : list byte) : exec (step (list byte) unit) :=
  do block <- deref data;
  match block !! j with
  | None => Undefined
  | Some b =>
      Ret (Continue (out ++ print_02X b
                     ++ (if decide (j < data_length - 1)%nat then fmt.space else [])))
  end.

(** The body of the outer loop. *)
Definition print_tlv_body (message : message_t) (i : nat) (out : list byte)
    : exec (step (list byte) unit) :=
  let data := tlv_value (tlv_at message i) in
  let data_length := Z.to_nat (tlv_length (tlv_at message i)) in
  let out :=
    out ++ fmt.tlv_open ++ print_u (Z_of_byte (tlv_type (tlv_at message i)))
    ++ fmt.value_open in
  do r <- for_loop data_length 0 (print_byte_body data data_length) out;
  match r with
  | Continue out =>
      Ret (Continue (out ++ fmt.value_close
                     ++ (if decide (i < msg_length message - 1)%nat
                         then fmt.comma else [])))
  | Return r => Ret (Return r)
  end.

(** [message_print(message)]: the bytes written. *)
Definition message_print (message : message_t) : exec (list byte) :=
  let out :=
    fmt.message_open ++ print_u (Z.of_nat (msg_length message))
    ++ fmt.message_count in
  do r <- for_loop (msg_length message) 0 (print_tlv_body message) out;
  match r with
  | Continue out => Ret (out ++ fmt.message_close)
  | Return _ => Undefined
  end.

(** ** message.c and the allocator

    The calls to [malloc] and [free] that [message_free] and [message_parse]
    make, in the order in which they make them: [message_free_calls] is the
    loop of [message_free] over the value pointers, and [parse_body_heap],
    [parse_loop_heap] and [message_parse_heap] are [parse_body], [parse_loop]
    and [message_parse] again with the calls made so far as one more
    variable. *)
Inductive heap_call : Type :=
| malloc_call (size : nat) (result : option (list byte))
| free_call (pointer : option (list byte)).

Section message_c_heap.
Context `{Platform}.

Definition message_free_calls (message : message_t) : list heap_call :=
  for_each (msg_length message) 0
    (fun i calls => calls ++ [free_call (tlv_value (tlv_at message i))]) [].

Definition parse_body_heap (malloc_ok : nat -> bool) (data : list byte)
    (offset : nat) (message : message_t) (calls : list heap_call)
    : exec (step (nat * message_t * list heap_call)
                 (message_result_t * message_t * list heap_call)) :=
  if decide (MAX_TLV_COUNT <= msg_length message)%nat
  then Ret (Return (MESSAGE_ERROR_TOO_MANY_TLVS, message_free message,
                    calls ++ message_free_calls message))
  else
    let i := msg_length message in
    match data !! offset with
    | None => Undefined
    | Some type =>
      let message := set_type i type message in
      let offset := (offset + sizeof_uint8_t)%nat in
      if decide (List.length data < offset + sizeof_uint16_t)%nat
      then Ret (Return (MESSAGE_ERROR_PARSE_ERROR, message_free message,
                        calls ++ message_free_calls message))
      else
        do raw <- memcpy (store16 host (tlv_length (tlv_at message i))) 0
                    (drop offset data) sizeof_uint16_t;
        let message := set_length i (load host raw) message in
        let message :=
          set_length i (ntohs host (tlv_length (tlv_at message i))) message in
        let offset := (offset + sizeof_uint16_t)%nat in
        let length := Z.to_nat (tlv_length (tlv_at message i)) in
        if decide (List.length data < offset + length)%nat
        then Ret (Return (MESSAGE_ERROR_PARSE_ERROR, message_free message,
                          calls ++ message_free_calls message))
        else
          if negb (malloc_ok i)
          then
            let calls := calls ++ [malloc_call length None] in
            let message := set_value i None message in
            Ret (Return (MESSAGE_ERROR_OUT_OF_MEMORY, message_free message,
                         calls ++ message_free_calls message))
          else
            let calls := calls ++ [malloc_call length (Some (malloc_block length))] in
            let message := set_value i (Some (malloc_block length)) message in
            do block <- deref (tlv_value (tlv_at message i));
            do block <- memcpy block 0 (drop offset data) length;
            let message := set_value i (Some block) message in
            let offset := (offset + length)%nat in
            if decide (Z_of_byte (tlv_type (tlv_at message i)) = TLV_CHECKSUM)
            then
              do checksum <- message_checksum message;
              do value <- deref (tlv_value (tlv_at message i));
              do differ <- memcmp_differ (store32 host checksum) value
                             (Nat.b2n (negb (sizeof_uint32_t =? 0)%nat));
              if differ
              then Ret (Return (MESSAGE_ERROR_CHECKSUM_MISMATCH,
                                message_free message,
                                calls ++ message_free_calls message))
              else Ret (Continue (offset, incr_length message, calls))
            else Ret (Continue (offset, incr_length message, calls))
    end.

Fixpoint parse_loop_heap (fuel : nat) (malloc_ok : nat -> bool) (data : list byte)
    (offset : nat) (message : message_t) (calls : list heap_call)
    : exec (message_result_t * message_t * list heap_call) :=
  match fuel with
  | O => OutOfFuel
  | S fuel' =>
      if decide (offset < List.length data)%nat
      then
        do r <- parse_body_heap malloc_ok data offset message calls;
        match r with
        | Continue (offset', message', calls') =>
            parse_loop_heap fuel' malloc_ok data offset' message' calls'
        | Return result => Ret result
        end
      else Ret (MESSAGE_SUCCESS, message, calls)
  end.

Definition message_parse_heap (malloc_ok : nat -> bool) (message : message_t)
    (data : list byte) : exec (message_result_t * message_t * list heap_call) :=
  let message := snd (message_init message) in
  parse_loop_heap (Datatypes.S (List.length data)) malloc_ok data 0 message [].

End message_c_heap.

(** ** serial.c

    The two serial devices, and the functions that open them, read from them
    and send messages to them. serial.c defines none of what it calls: the
    system calls, libubox, UCI, syslog and the frame layer are its
    environment. A call to the environment is a [serial_event] appended to
    the trace, with the arguments that vary and the value returned; the
    value is given by the [serial_env] the functions run in, which may
    answer the same call differently each time it is made. *)

(** The text of the configuration keys, of the default device paths and of
    the log messages. *)
Module serial_text.
Import String.
Local Open Scope string_scope.

Definition mcu_device : list byte := fmt.text "koruza.@mcu[0].device".
Definition accelerometer_device : list byte :=
  fmt.text "koruza.@accelerometer[0].device".
Definition default_mcu : list byte := fmt.text "/dev/ttyS1".
Definition default_accelerometer : list byte := fmt.text "/dev/ttyUSB0".

Definition set_handler_failed : list byte :=
  fmt.text "Failed to set message handler for serial device %d".
Definition open_failed : list byte := fmt.text "Failed to open serial device '%s'.".
Definition get_configuration_failed : list byte :=
  fmt.text "Failed to get configuration for serial device '%s': %s (%d)".
Definition configure_failed : list byte :=
  fmt.text "Failed to configure serial device '%s': %s (%d)".
Definition initialized : list byte := fmt.text "Initialized serial device '%s'.".
Definition read_failed : list byte := fmt.text "Failed to read from serial device.".
Definition write_failed : list byte :=
  fmt.text "Failed to write frame (%ld bytes) to serial device: %s (%d)".

End serial_text.

(** <syslog.h> *)
Definition LOG_ERR : Z := 3.
Definition LOG_INFO : Z := 6.

(** The two objects of type [struct serial_device], and a pointer to one:
    [None] is the null pointer. *)
Inductive serial_device_id : Type := device_motors | device_accelerometer.

#[global] Instance serial_device_id_eq_decision : EqDecision serial_device_id.
Proof. solve_decision. Defined.

(** [struct serial_device]: [ready], [device], and of [ufd] the descriptor
    [fd] and whether the callback [cb] is set. The rest of [ufd] and the
    frame parser [parser] belong to libubox and to the frame layer. *)
Record serial_device : Type := mk_serial_device {
  ready : Z;
  device : option (list byte);
  ufd_fd : Z;
  ufd_cb : bool
}.

(** Static storage: all bits zero. *)
Definition zero_device : serial_device := mk_serial_device 0 None 0 false.

Inductive serial_event : Type :=
| uci_get_string_ (key : list byte) (result : option (list byte))
| open_ (path : list byte) (result : Z)
| close_ (fd : Z)
| tcgetattr_ (fd : Z) (result : Z)
| tcsetattr_ (fd : Z) (result : Z)
| uloop_fd_add_ (cfg : serial_device_id)
| uloop_fd_delete_ (cfg : serial_device_id)
| syslog_ (priority : Z) (format : list byte)
| read_ (fd : Z) (count : nat) (result : Z) (bytes : list byte)
| write_ (fd : Z) (bytes : list byte) (result : Z)
| frame_parser_init_ (cfg : serial_device_id)
| frame_parser_push_buffer_ (cfg : serial_device_id) (bytes : list byte) (size : Z)
| frame_message_ (length : nat) (message : message_t) (result : Z) (bytes : list byte)
| set_handler_ (cfg : serial_device_id).

(** What serial.c takes from its environment: the enumerators of
    [serial_device_t] (serial.h), the size of a frame buffer (frame.h), and
    what each call returns, the calls made before it being counted by the
    first argument. *)
Class Environment : Type := {
  DEVICE_MOTORS : Z;
  DEVICE_ACCELEROMETER : Z;
  FRAME_MAX_LENGTH : nat;
  env_uci_get_string : nat -> list byte -> option (list byte);
  env_open : nat -> list byte -> Z;
  env_tcgetattr : nat -> Z -> Z;
  env_tcsetattr : nat -> Z -> Z;
  env_read : nat -> Z -> nat -> Z * list byte;
  env_write : nat -> Z -> list byte -> Z;
  env_frame_message : nat -> nat -> message_t -> Z * list byte
}.

(** The state: the two devices and the calls made so far. *)
Record serial_state : Type := mk_serial_state {
  motors : serial_device;
  accelerometer : serial_device;
  trace : list serial_event
}.

(** A function of serial.c: from a state to an outcome and a state. *)
Definition serial (A : Type) : Type := serial_state -> exec (A * serial_state).

Definition serial_ret {A : Type} (a : A) : serial A := fun s => Ret (a, s).

Definition serial_bind {A B : Type} (c : serial A) (k : A -> serial B) : serial B :=
  fun s => do r <- c s; k (fst r) (snd r).

Notation "'run' x <- c ; k" := (serial_bind c (fun x => k))
  (at level 10, x name, c at level 100, k at level 200).

Section serial_c.
Context `{Environment}.

Definition emit (e : serial_event) : serial unit :=
  fun s => Ret (tt, mk_serial_state (motors s) (accelerometer s) (trace s ++ [e])).

Definition now_ : serial nat := fun s => Ret (length (trace s), s).

(** [*cfg], and the assignments to its fields. *)
Definition load_device (cfg : option serial_device_id) : serial serial_device :=
  fun s =>
    match cfg with
    | None => Undefined
    | Some device_motors => Ret (motors s, s)
    | Some device_accelerometer => Ret (accelerometer s, s)
    end.

Definition store_device (cfg : option serial_device_id) (d : serial_device)
    : serial unit :=
  fun s =>
    match cfg with
    | None => Undefined
    | Some device_motors => Ret (tt, mk_serial_state d (accelerometer s) (trace s))
    | Some device_accelerometer => Ret (tt, mk_serial_state (motors s) d (trace s))
    end.

Definition set_ready (cfg : option serial_device_id) (v : Z) : serial unit :=
  run d <- load_device cfg;
  store_device cfg (mk_serial_device v (device d) (ufd_fd d) (ufd_cb d)).

Definition set_device (cfg : option serial_device_id) (v : option (list byte))
    : serial unit :=
  run d <- load_device cfg;
  store_device cfg (mk_serial_device (ready d) v (ufd_fd d) (ufd_cb d)).

Definition set_ufd_fd (cfg : option serial_device_id) (v : Z) : serial unit :=
  run d <- load_device cfg;
  store_device cfg (mk_serial_device (ready d) (device d) v (ufd_cb d)).

Definition set_ufd_cb (cfg : option serial_device_id) : serial unit :=
  run d <- load_device cfg;
  store_device cfg (mk_serial_device (ready d) (device d) (ufd_fd d) true).

(** The environment. *)
Definition uci_get_string (key : list byte) : serial (option (list byte)) :=
  run t <- now_;
  let result := env_uci_get_string t key in
  run _ <- emit (uci_get_string_ key result); serial_ret result.

Definition open (path : list byte) : serial Z :=
  run t <- now_;
  let result := env_open t path in
  run _ <- emit (open_ path result); serial_ret result.

Definition close (fd : Z) : serial unit := emit (close_ fd).

Definition tcgetattr (fd : Z) : serial Z :=
  run t <- now_;
  let result := env_tcgetattr t fd in
  run _ <- emit (tcgetattr_ fd result); serial_ret result.

Definition tcsetattr (fd : Z) : serial Z :=
  run t <- now_;
  let result := env_tcsetattr t fd in
  run _ <- emit (tcsetattr_ fd result); serial_ret result.

Definition read (fd : Z) (count : nat) : serial (Z * list byte) :=
  run t <- now_;
  let result := env_read t fd count in
  run _ <- emit (read_ fd count (fst result) (snd result)); serial_ret result.

Definition write (fd : Z) (bytes : list byte) : serial Z :=
  run t <- now_;
  let result := env_write t fd bytes in
  run _ <- emit (write_ fd bytes result); serial_ret result.

Definition frame_message (length : nat) (message : message_t)
    : serial (Z * list byte) :=
  run t <- now_;
  let result := env_frame_message t length message in
  run _ <- emit (frame_message_ length message (fst result) (snd result));
  serial_ret result.

Definition syslog (priority : Z) (format : list byte) : serial unit :=
  emit (syslog_ priority format).

(** A pointer to a device as the object it points to. *)
Definition pointee (cfg : option serial_device_id) : serial serial_device_id :=
  fun s => match cfg with Some id => Ret (id, s) | None => Undefined end.

Definition serial_get_device (device : Z) : option serial_device_id :=
  if decide (device = DEVICE_MOTORS) then Some device_motors
  else if decide (device = DEVICE_ACCELEROMETER) then Some device_accelerometer
  else None.

Definition serial_get_device_fd (fd : Z) : serial (option serial_device_id) :=
  fun s =>
    if decide (fd = ufd_fd (motors s)) then Ret (Some device_motors, s)
    else if decide (fd = ufd_fd (accelerometer s))
    then Ret (Some device_accelerometer, s)
    else Ret (None, s).

Definition serial_set_message_handler (device : Z) : serial unit :=
  let cfg := serial_get_device device in
  match cfg with
  | None => syslog LOG_ERR serial_text.set_handler_failed
  | Some id => emit (set_handler_ id)
  end.

Definition serial_init_device (cfg : option serial_device_id) (quiet : Z)
    : serial Z :=
  run d <- load_device cfg;
  if decide (ready d <> 0 \/ device d = None)
  then serial_ret (-1)
  else
    run fd <- open (default [] (device d));
    run _ <- set_ufd_fd cfg fd;
    run d <- load_device cfg;
    if decide (ufd_fd d < 0)
    then
      run _ <- (if decide (quiet = 0)
           then syslog LOG_ERR serial_text.open_failed else serial_ret tt);
      serial_ret (-1)
    else
      run r <- tcgetattr (ufd_fd d);
      if decide (r < 0)
      then
        run _ <- (if decide (quiet = 0)
             then syslog LOG_ERR serial_text.get_configuration_failed
             else serial_ret tt);
        run _ <- close (ufd_fd d);
        serial_ret (-1)
      else
        run r <- tcsetattr (ufd_fd d);
        if decide (r < 0)
        then
          run _ <- (if decide (quiet = 0)
               then syslog LOG_ERR serial_text.configure_failed
               else serial_ret tt);
          run _ <- close (ufd_fd d);
          serial_ret (-1)
        else
          run _ <- set_ready cfg 1;
          run _ <- set_ufd_cb cfg;
          run id <- pointee cfg;
          run _ <- emit (uloop_fd_add_ id);
          run _ <- syslog LOG_INFO serial_text.initialized;
          serial_ret 0.

Definition serial_start_device (cfg : option serial_device_id) : serial Z :=
  run id <- pointee cfg;
  run _ <- emit (frame_parser_init_ id);
  serial_init_device cfg 0.

Definition serial_reinit_device (cfg : option serial_device_id) : serial Z :=
  run _ <- set_ready cfg 0;
  run id <- pointee cfg;
  run _ <- emit (uloop_fd_delete_ id);
  run d <- load_device cfg;
  run _ <- close (ufd_fd d);
  serial_init_device cfg 1.

Definition serial_init : serial Z :=
  (* Motors MCU. *)
  run _ <- set_ready (Some device_motors) 0;
  run path <- uci_get_string serial_text.mcu_device;
  run _ <- set_device (Some device_motors) path;
  run d <- load_device (Some device_motors);
  run _ <- (if decide (device d = None)
       then set_device (Some device_motors) (Some serial_text.default_mcu)
       else serial_ret tt);
  run result <- serial_start_device (Some device_motors);
  if decide (result <> 0)
  then serial_ret result
  else
    (* Accelerometer MCU (can be disconnected). *)
    run _ <- set_ready (Some device_accelerometer) 0;
    run path <- uci_get_string serial_text.accelerometer_device;
    run _ <- set_device (Some device_accelerometer) path;
    run d <- load_device (Some device_accelerometer);
    run _ <- (if decide (device d = None)
         then set_device (Some device_accelerometer)
                (Some serial_text.default_accelerometer)
         else serial_ret tt);
    run _ <- serial_start_device (Some device_accelerometer);
    serial_ret 0.

(** [serial_fd_handler(ufd, events)], [fd] being [ufd->fd]. *)
Definition serial_fd_handler (fd : Z) : serial unit :=
  run cfg <- serial_get_device_fd fd;
  match cfg with
  | None => serial_ret tt
  | Some id =>
      run d <- load_device cfg;
      if decide (ready d = 0)
      then serial_ret tt
      else
        run r <- read (ufd_fd d) 1024;
        let '(size, buffer) := r in
        if decide (size < 0)
        then
          run _ <- syslog LOG_ERR serial_text.read_failed;
          run _ <- serial_reinit_device cfg;
          serial_ret tt
        else emit (frame_parser_push_buffer_ id buffer size)
  end.

(** The loop of [serial_send_message], at most [fuel] passes. *)
Fixpoint send_loop (fuel : nat) (cfg : option serial_device_id)
    (buffer : list byte) (size : Z) (offset : nat) : serial Z :=
  match fuel with
  | O => fun _ => OutOfFuel
  | S fuel' =>
      if decide (Z.of_nat offset < size)
      then
        run d <- load_device cfg;
        run written <- write (ufd_fd d)
                         (take (Z.to_nat (size - Z.of_nat offset)) (drop offset buffer));
        if decide (written < 0)
        then
          run _ <- syslog LOG_ERR serial_text.write_failed;
          run _ <- serial_reinit_device cfg;
          serial_ret (-1)
        else send_loop fuel' cfg buffer size (offset + Z.to_nat written)%nat
      else serial_ret 0
  end.

Definition serial_send_message (fuel : nat) (device : Z) (message : message_t)
    : serial Z :=
  let cfg := serial_get_device device in
  run not_ready <-
    (match cfg with
     | None => serial_ret true
     | Some _ => run d <- load_device cfg; serial_ret (bool_decide (ready d = 0))
     end);
  if not_ready : bool
  then
    run _ <- serial_reinit_device cfg;
    serial_ret (-1)
  else
    run d <- load_device cfg;
    if decide (ufd_fd d < 0)
    then
      run _ <- serial_reinit_device cfg;
      serial_ret (-1)
    else
      run r <- frame_message FRAME_MAX_LENGTH message;
      let '(size, buffer) := r in
      if decide (size < 0)
      then serial_ret (-1)
      else send_loop fuel cfg buffer size 0.

End serial_c.

(** ** Sequences of adds

    The calls that append a record, and the message a sequence of successful
    calls builds. *)
Inductive add_call : Type :=
| AddRaw (type : byte) (length : Z) (value : list byte)
| AddCommand (command : Z)
| AddReply (reply : Z)
| AddMotorPosition (position : tlv_motor_position_t)
| AddCurrentReading (current : Z)
| AddChecksum.

Definition run_add `{Platform} (malloc_ok : bool) (message : message_t)
    (call : add_call) : exec (message_result_t * message_t) :=
  match call with
  | AddRaw type length value => message_tlv_add malloc_ok message type length value
  | AddCommand command => message_tlv_add_command malloc_ok message command
  | AddReply reply => message_tlv_add_reply malloc_ok message reply
  | AddMotorPosition position =>
      message_tlv_add_motor_position malloc_ok message position
  | AddCurrentReading current =>
      message_tlv_add_current_reading malloc_ok message current
  | AddChecksum => message_tlv_add_checksum malloc_ok message
  end.

(** [Some] of the final message when every call returns [MESSAGE_SUCCESS]
    (which needs its allocation to succeed), [None] otherwise. *)
Fixpoint run_adds `{Platform} (message : message_t) (calls : list add_call)
    : option message_t :=
  match calls with
  | [] => Some message
  | call :: calls' =>
      match run_add true message call with
      | Ret (MESSAGE_SUCCESS, message') => run_adds message' calls'
      | _ => None
      end
  end.

(** A raw add of a record of type [TLV_CHECKSUM]. *)
Definition is_raw_checksum (call : add_call) : bool :=
  match call with
  | AddRaw type _ _ => bool_decide (Z_of_byte type = TLV_CHECKSUM)
  | _ => false
  end.

(** ** The data model of the specification *)

(** The records of a message, in insertion order. *)
Definition records (message : message_t) : list tlv_t :=
  take (msg_length message) (msg_tlv message).

(** A record owns a block of exactly [length] bytes, [length] a [uint16_t]. *)
Definition wf_tlv (t : tlv_t) : Prop :=
  match tlv_value t with
  | Some value => tlv_length t = Z.of_nat (length value) /\ tlv_length t < 65536
  | None => False
  end.

#[global] Instance wf_tlv_decision t : Decision (wf_tlv t).
Proof. unfold wf_tlv. destruct (tlv_value t); apply _. Defined.

(** A message: an array of [MAX_TLV_COUNT] slots, of which the first
    [length <= MAX_TLV_COUNT] hold records. *)
Definition wf_message (message : message_t) : Prop :=
  length (msg_tlv message) = MAX_TLV_COUNT
  /\ (msg_length message <= MAX_TLV_COUNT)%nat
  /\ Forall wf_tlv (records message).

#[global] Instance wf_message_decision m : Decision (wf_message m).
Proof. unfold wf_message. apply _. Defined.

(** The bytes of a record's value. *)
Definition value_of (t : tlv_t) : list byte := default [] (tlv_value t).

(** The wire format: [type:1][length:2 big-endian][value:length]. *)
Definition wire_record (t : tlv_t) : list byte :=
  tlv_type t :: be16 (tlv_length t) ++ value_of t.

Fixpoint wire_format (rs : list tlv_t) : list byte :=
  match rs with
  | [] => []
  | t :: rs' => wire_record t ++ wire_format rs'
  end.

(** The running CRC32, initial value 0, over the values of the records in
    order. *)
Definition running_crc32 `{Platform} (rs : list tlv_t) : Z :=
  fold_left (fun checksum t => u32 (crc32 checksum (value_of t))) rs 0.

(** Every record of type [TLV_CHECKSUM] holds the checksum, in network byte
    order, of the records before it. *)
Fixpoint checksums_valid_from `{Platform} (before rs : list tlv_t) : Prop :=
  match rs with
  | [] => True
  | t :: rs' =>
      (Z_of_byte (tlv_type t) = TLV_CHECKSUM ->
       value_of t = be32 (running_crc32 before))
      /\ checksums_valid_from (before ++ [t]) rs'
  end.

Definition checksums_valid `{Platform} (message : message_t) : Prop :=
  checksums_valid_from [] (records message).

#[global] Instance checksums_valid_from_decision `{Platform} before rs :
  Decision (checksums_valid_from before rs).
Proof. revert before. induction rs; intros before; simpl; apply _. Defined.

#[global] Instance checksums_valid_decision `{Platform} message :
  Decision (checksums_valid message).
Proof. unfold checksums_valid. apply _. Defined.

(** The first record of type [type] in insertion order, with its index. *)
Definition first_of_type (type : byte) (rs : list tlv_t) : option (nat * tlv_t) :=
  list_find (fun t => tlv_type t = type) rs.

(** What the parser compares of a record of type [TLV_CHECKSUM]: the first
    byte of its value with the first byte, in network order, of the checksum
    of the records before it. *)
Fixpoint checksums_accepted_from `{Platform} (before rs : list tlv_t) : Prop :=
  match rs with
  | [] => True
  | t :: rs' =>
      (Z_of_byte (tlv_type t) = TLV_CHECKSUM ->
       take 1 (value_of t) = [byte_at 3 (running_crc32 before)])
      /\ checksums_accepted_from (before ++ [t]) rs'
  end.

(** The record each call appends when it succeeds. *)
Definition appended_record `{Platform} (message : message_t) (call : add_call)
    : tlv_t :=
  match call with
  | AddRaw type length value =>
      mk_tlv type (u16 length) (Some (take (Z.to_nat (u16 length)) value))
  | AddCommand command =>
      mk_tlv (byte_of_Z TLV_COMMAND) 1 (Some [byte_of_Z command])
  | AddReply reply =>
      mk_tlv (byte_of_Z TLV_REPLY) 1 (Some [byte_of_Z reply])
  | AddMotorPosition position =>
      mk_tlv (byte_of_Z TLV_MOTOR_POSITION) 12
        (Some (be32 (motor_x position) ++ be32 (motor_y position)
               ++ be32 (motor_z position)))
  | AddCurrentReading current =>
      mk_tlv (byte_of_Z TLV_CURRENT_READING) 2 (Some (be16 current))
  | AddChecksum =>
      mk_tlv (byte_of_Z TLV_CHECKSUM) 4
        (Some (be32 (running_crc32 (records message))))
  end.

(** ** Auxiliary definitions

    *** The loops over the slots, as recursion over the records

    The [for] loops of message.c read [message->tlv[i]] for [i] below
    [message->length] and nothing else of the message: [tlv_loop] is such a
    loop run over the list of those slots. *)
Fixpoint tlv_loop {S R : Type} (f : tlv_t -> S -> exec (step S R))
    (rs : list tlv_t) (s : S) : exec (step S R) :=
  match rs with
  | [] => Ret (Continue s)
  | t :: rs' =>
      do r <- f t s;
      match r with
      | Continue s' => tlv_loop f rs' s'
      | Return r => Ret (Return r)
      end
  end.

(** Slot [i] overwritten by a whole record. *)
Definition store_slot (i : nat) (t : tlv_t) (message : message_t) : message_t :=
  mk_message (msg_length message) (<[i := t]> (msg_tlv message)).

(** What [message_init] and [message_free] leave: no record, every slot
    zero. *)
Definition empty_message : message_t :=
  mk_message 0 (replicate MAX_TLV_COUNT zero_tlv).

(** The record the parser reads at [offset] once it knows the header to be
    complete: the length field, and the record. *)
Definition wire_length (data : list byte) (offset : nat) : Z :=
  be_decode (take 2 (drop (offset + 1) data)).

Definition wire_tlv (type : byte) (data : list byte) (offset : nat) : tlv_t :=
  mk_tlv type (wire_length data offset)
    (Some (take (Z.to_nat (wire_length data offset)) (drop (offset + 3) data))).

(** The [while] loop of [message_parse] entered at [offset], with one pass
    more than bytes are left. *)
Definition parse_from `{Platform} (malloc_ok : nat -> bool) (data : list byte)
    (offset : nat) (message : message_t) : exec (message_result_t * message_t) :=
  parse_loop (S (length data - offset)) malloc_ok data offset message.

(** The records [rs] appended to a message, one after the other. *)
Definition append_records (message : message_t) (rs : list tlv_t) : message_t :=
  fold_left (fun m t => incr_length (store_slot (msg_length m) t m)) rs message.

(** The bytes [src] written over those of [buf] from [offset] on. *)
Definition overwrite (buf : list byte) (offset : nat) (src : list byte) : list byte :=
  take offset buf ++ src ++ drop (offset + length src) buf.

(** *** What the further properties are stated with *)

(** The header of a record of type [TLV_CHECKSUM] and length 0 at [offset]. *)
Definition empty_checksum_at (data : list byte) (offset : nat) : Prop :=
  (offset + 3 <= length data)%nat
  /\ (exists type, data !! offset = Some type /\ Z_of_byte type = TLV_CHECKSUM)
  /\ wire_length data offset = 0.

(** Whether a record is of type [TLV_CHECKSUM]. *)
Definition is_checksum (t : tlv_t) : bool :=
  bool_decide (Z_of_byte (tlv_type t) = TLV_CHECKSUM).

(** The blocks handed out, and the blocks handed back: the calls of [malloc]
    that did not return null, and the calls of [free] on a pointer that is
    not null. *)
Definition is_allocation (c : heap_call) : bool :=
  match c with
  | malloc_call _ (Some _) => true
  | _ => false
  end.

Definition is_release (c : heap_call) : bool :=
  match c with
  | free_call (Some _) => true
  | _ => false
  end.

Definition allocated (calls : list heap_call) : nat :=
  length (List.filter is_allocation calls).

Definition freed (calls : list heap_call) : nat :=
  length (List.filter is_release calls).

(** The blocks a run of the parser leaves allocated, by result code. *)
Definition blocks_left (r : message_result_t) (m : message_t) : nat :=
  match r with
  | MESSAGE_SUCCESS => msg_length m
  | MESSAGE_ERROR_CHECKSUM_MISMATCH => 1
  | _ => 0
  end.

(** The rendering of a message: parts joined by a separator that stands
    between two parts and nowhere else. *)
Fixpoint join (sep : list byte) (parts : list (list byte)) : list byte :=
  match parts with
  | [] => []
  | [part] => part
  | part :: parts' => part ++ sep ++ join sep parts'
  end.

Definition render_tlv (t : tlv_t) : list byte :=
  fmt.tlv_open ++ print_u (Z_of_byte (tlv_type t)) ++ fmt.value_open
  ++ join fmt.space (print_02X <$> value_of t) ++ fmt.value_close.

Definition render_message (rs : list tlv_t) : list byte :=
  fmt.message_open ++ print_u (Z.of_nat (length rs)) ++ fmt.message_count
  ++ join fmt.comma (render_tlv <$> rs) ++ fmt.message_close.

(** *** What the properties of serial.c are stated with *)

(** The device a pointer points to, a state with that device replaced, and
    a state with more calls made. *)
Definition device_of (id : serial_device_id) (s : serial_state) : serial_device :=
  match id with
  | device_motors => motors s
  | device_accelerometer => accelerometer s
  end.

Definition with_device (id : serial_device_id) (d : serial_device)
    (s : serial_state) : serial_state :=
  match id with
  | device_motors => mk_serial_state d (accelerometer s) (trace s)
  | device_accelerometer => mk_serial_state (motors s) d (trace s)
  end.

Definition with_calls (events : list serial_event) (s : serial_state)
    : serial_state :=
  mk_serial_state (motors s) (accelerometer s) (trace s ++ events).

(** A message logged unless [quiet]. *)
Definition unless_quiet (quiet : Z) (format : list byte) : list serial_event :=
  if decide (quiet = 0) then [syslog_ LOG_ERR format] else [].

(** The calls that pass a message on: framing it, and writing to the
    device. *)
Definition is_transmission (e : serial_event) : bool :=
  match e with
  | write_ _ _ _ | frame_message_ _ _ _ _ => true
  | _ => false
  end.

(** The bytes a call of [write] took, and the bytes the calls of a trace
    took, in order. *)
Definition accepted (e : serial_event) : list byte :=
  match e with
  | write_ _ bytes result => take (Z.to_nat result) bytes
  | _ => []
  end.

Definition sent (events : list serial_event) : list byte :=
  concat (accepted <$> events).

(** A device is ready only when it is open, its callback set and its path
    known. *)
Definition device_ok (d : serial_device) : Prop :=
  ready d = 0
  \/ (ready d = 1 /\ 0 <= ufd_fd d /\ ufd_cb d = true /\ device d <> None).

Definition serial_ok (s : serial_state) : Prop :=
  device_ok (motors s) /\ device_ok (accelerometer s).

(** ** A platform to evaluate on *)

(** Modelled from the spec: crc32.h and its implementation are not among the
    sources, and the specification only names the primitive,
    [crc32(running_value, bytes) -> uint32]. The theorems below hold for
    every [Platform]; to evaluate the codec on concrete inputs the CRC-32 of
    IEEE 802.3 (reflected polynomial EDB88320, as in zlib) stands in for it,
    on a little-endian and on a big-endian host. *)
Definition crc32_bit (c : Z) : Z :=
  if Z.odd c then Z.lxor (Z.shiftr c 1) 3988292384 else Z.shiftr c 1.

Definition crc32_byte (c : Z) (b : byte) : Z :=
  Nat.iter 8 crc32_bit (Z.lxor c (Z_of_byte b)).

Definition crc32_ieee (crc : Z) (buf : list byte) : Z :=
  Z.lxor (fold_left crc32_byte buf (Z.lxor crc 4294967295)) 4294967295.

Definition little_endian_host : Platform :=
  {| host := LittleEndian; crc32 := crc32_ieee |}.

Definition big_endian_host : Platform :=
  {| host := BigEndian; crc32 := crc32_ieee |}.

(** *** Messages to evaluate on *)

(** A command record, a motor position record and their checksum record: the
    calls that build the message, the message, and its wire format. *)
Definition move_motor_calls : list add_call :=
  [AddCommand COMMAND_MOVE_MOTOR;
   AddMotorPosition {| motor_x := -1; motor_y := 1000000; motor_z := 0 |};
   AddChecksum].

Definition move_motor_message : message_t :=
  append_records empty_message
    [mk_tlv x01 1 (Some [x02]);
     mk_tlv x04 12 (Some [xff; xff; xff; xff; x00; x0f; x42; x40; x00; x00; x00; x00]);
     mk_tlv x03 4 (Some [x07; x29; x49; x9e])].

Definition move_motor_wire : list byte :=
  [x01; x00; x01; x02;
   x04; x00; x0c; xff; xff; xff; xff; x00; x0f; x42; x40; x00; x00; x00; x00;
   x03; x00; x04; x07; x29; x49; x9e].

(** Two command records. *)
Definition two_commands : message_t :=
  append_records empty_message
    [mk_tlv x01 1 (Some [x02]); mk_tlv x01 1 (Some [x05])].

(** A message at capacity, 25 command records, and its wire format. *)
Definition full_message : message_t :=
  append_records empty_message (replicate 25 (mk_tlv x01 1 (Some [x02]))).

Definition full_wire : list byte := wire_format (records full_message).

(** 25 records again, the first of type [TLV_CHECKSUM] with a value that is
    no checksum. *)
Definition unchecked_full_message : message_t :=
  append_records empty_message
    (mk_tlv x03 1 (Some [x01]) :: replicate 24 (mk_tlv x01 1 (Some [x02]))).

(** *** An environment to evaluate on

    serial.h, frame.h and the libraries are not among the sources. The
    theorems hold for every [Environment]; to evaluate serial.c on concrete
    inputs, this one numbers the two devices 0 and 1, finds no configured
    path, opens every path as descriptor 3, and frames a message as its
    records in wire format. What [tcgetattr] returns and how many bytes a
    [write] takes are left to choose. *)
Definition sample_environment (configuration : Z) (written : list byte -> Z)
    : Environment :=
  {| DEVICE_MOTORS := 0;
     DEVICE_ACCELEROMETER := 1;
     FRAME_MAX_LENGTH := 64;
     env_uci_get_string := fun _ _ => None;
     env_open := fun _ _ => 3;
     env_tcgetattr := fun _ _ => configuration;
     env_tcsetattr := fun _ _ => 0;
     env_read := fun _ _ _ => (0, []);
     env_write := fun _ _ bytes => written bytes;
     env_frame_message := fun _ _ message =>
       (Z.of_nat (length (wire_format (records message))),
        wire_format (records message)) |}.

(** A [write] that takes one byte at a time, and one that takes none. *)
Definition write_one (bytes : list byte) : Z :=
  match bytes with [] => 0 | _ :: _ => 1 end.

Definition write_none (bytes : list byte) : Z := 0.

(** The state the program starts in, and states in which the motors device
    has its default path and is open, or not ready. *)
Definition serial_start : serial_state :=
  mk_serial_state zero_device zero_device [].

Definition motors_ready : serial_state :=
  mk_serial_state (mk_serial_device 1 (Some serial_text.default_mcu) 3 true)
    zero_device [].

Definition motors_not_ready : serial_state :=
  mk_serial_state (mk_serial_device 0 (Some serial_text.default_mcu) 3 true)
    zero_device [].

(** An environment in which descriptors are numbered as a system numbers
    them, with the lowest number that is free: the motors device is opened
    as 3 and the accelerometer as 4 while 3 is in use (the open at call 9),
    and as 3 otherwise. Reading fails before call 22, and [tcgetattr] fails
    at call 19. *)
Definition stale_environment : Environment :=
  {| DEVICE_MOTORS := 0;
     DEVICE_ACCELEROMETER := 1;
     FRAME_MAX_LENGTH := 64;
     env_uci_get_string := fun _ _ => None;
     env_open := fun t _ => if decide (t = 9%nat) then 4 else 3;
     env_tcgetattr := fun t _ => if decide (t = 19%nat) then -1 else 0;
     env_tcsetattr := fun _ _ => 0;
     env_read := fun t _ _ => if decide (t < 22)%nat then (-1, []) else (1, [x2a]);
     env_write := fun _ _ bytes => Z.of_nat (length bytes);
     env_frame_message := fun _ _ message =>
       (Z.of_nat (length (wire_format (records message))),
        wire_format (records message)) |}.

(** The program starts, then the event loop reports descriptor 3, then
    descriptor 4. *)
Definition stale_run : serial unit :=
  run _ <- serial_init (H := stale_environment);
  run _ <- serial_fd_handler (H := stale_environment) 3;
  serial_fd_handler (H := stale_environment) 4.

(** The state that leaves the devices in. *)
Definition stale_state : serial_state :=
  Eval vm_compute in
    match stale_run serial_start with
    | Ret (_, s) => s
    | _ => serial_start
    end.

(** * Properties *)

(** ** Bytes and byte order *)

Lemma Z_of_byte_range (b : byte) : 0 <= Z_of_byte b < 256.
Proof.
  unfold Z_of_byte. pose proof (Byte.to_N_bounded b) as Hb. lia.
Qed.

Lemma byte_of_Z_of_byte (b : byte) : byte_of_Z (Z_of_byte b) = b.
Proof.
  unfold byte_of_Z. pose proof (Z_of_byte_range b) as Hb.
  rewrite Z.mod_small by lia. unfold Z_of_byte.
  rewrite N2Z.id, Byte.of_to_N. reflexivity.
Qed.

Lemma Z_of_byte_of_Z (z : Z) : Z_of_byte (byte_of_Z z) = z mod 256.
Proof.
  unfold byte_of_Z, Z_of_byte.
  pose proof (Z.mod_pos_bound z 256 eq_refl) as Hz.
  destruct (Byte.of_N (Z.to_N (z mod 256))) as [b|] eqn:E.
  - apply Byte.to_of_N in E. rewrite E. lia.
  - apply Byte.of_N_None_iff in E. lia.
Qed.

Lemma byte_of_Z_congr (a b : Z) : a mod 256 = b mod 256 -> byte_of_Z a = byte_of_Z b.
Proof. unfold byte_of_Z. intros ->. reflexivity. Qed.

(** Closes a goal on the bytes of integers: byte by byte, then as equations
    over quotients and remainders. *)
Ltac bytes_eq :=
  unfold be16, le16, be32, le32, byte_at;
  change (256 ^ 0) with 1; change (256 ^ 1) with 256;
  change (256 ^ 2) with 65536; change (256 ^ 3) with 16777216;
  repeat match goal with
         | |- _ :: _ = _ :: _ => apply f_equal2
         | |- @nil _ = @nil _ => reflexivity
         | |- byte_of_Z _ = byte_of_Z _ => apply byte_of_Z_congr
         end;
  unfold bswap16, bswap32, u16, u32;
  Z.div_mod_to_equations; lia.

Lemma store16_htons (h : endianness) (z : Z) : store16 h (htons h z) = be16 z.
Proof. destruct h; unfold store16, htons; bytes_eq. Qed.

Lemma store32_htonl (h : endianness) (z : Z) : store32 h (htonl h z) = be32 z.
Proof. destruct h; unfold store32, htonl; bytes_eq. Qed.

Lemma u32_i32 (z : Z) : u32 (i32 z) = u32 z.
Proof.
  unfold i32, u32. destruct (Z.ltb_spec (z mod 4294967296) 2147483648);
    Z.div_mod_to_equations; lia.
Qed.

Lemma i32_u32 (z : Z) : is_int32 z -> i32 (u32 z) = z.
Proof.
  unfold is_int32, i32, u32. intros Hz.
  destruct (Z.ltb_spec ((z mod 4294967296) mod 4294967296) 2147483648);
    Z.div_mod_to_equations; lia.
Qed.

Lemma store32_i32 (h : endianness) (z : Z) : store32 h (i32 z) = store32 h z.
Proof.
  assert (E : forall k, 0 <= k <= 3 -> byte_at k (i32 z) = byte_at k z).
  { intros k Hk. unfold byte_at. apply byte_of_Z_congr.
    assert (Hk' : k = 0 \/ k = 1 \/ k = 2 \/ k = 3) by lia.
    unfold i32, u32.
    destruct (Z.ltb_spec (z mod 4294967296) 2147483648);
      destruct Hk' as [-> | [-> | [-> | ->]]];
      change (256 ^ 0) with 1; change (256 ^ 1) with 256;
      change (256 ^ 2) with 65536; change (256 ^ 3) with 16777216;
      Z.div_mod_to_equations; lia. }
  destruct h; unfold store32, le32, be32; rewrite !E by lia; reflexivity.
Qed.

Lemma be_decode_2 (b1 b0 : byte) :
  be_decode [b1; b0] = Z_of_byte b1 * 256 + Z_of_byte b0.
Proof. unfold be_decode. simpl. lia. Qed.

Lemma be_decode_4 (b3 b2 b1 b0 : byte) :
  be_decode [b3; b2; b1; b0]
  = Z_of_byte b3 * 16777216 + Z_of_byte b2 * 65536 + Z_of_byte b1 * 256
    + Z_of_byte b0.
Proof. unfold be_decode. simpl. lia. Qed.

Lemma ntohs_load (h : endianness) (b1 b0 : byte) :
  ntohs h (load h [b1; b0]) = be_decode [b1; b0].
Proof.
  rewrite be_decode_2.
  pose proof (Z_of_byte_range b1). pose proof (Z_of_byte_range b0).
  destruct h; unfold ntohs, htons, load; [simpl le_decode | rewrite be_decode_2];
    unfold bswap16, u16; Z.div_mod_to_equations; lia.
Qed.

Lemma ntohl_load (h : endianness) (b3 b2 b1 b0 : byte) :
  ntohl h (load h [b3; b2; b1; b0]) = be_decode [b3; b2; b1; b0].
Proof.
  rewrite be_decode_4.
  pose proof (Z_of_byte_range b3). pose proof (Z_of_byte_range b2).
  pose proof (Z_of_byte_range b1). pose proof (Z_of_byte_range b0).
  destruct h; unfold ntohl, htonl, load; [simpl le_decode | rewrite be_decode_4];
    unfold bswap32, u32; Z.div_mod_to_equations; lia.
Qed.

Lemma be_decode_be16 (z : Z) : be_decode (be16 z) = u16 z.
Proof.
  unfold be16. rewrite be_decode_2. unfold byte_at. rewrite !Z_of_byte_of_Z.
  change (256 ^ 0) with 1; change (256 ^ 1) with 256.
  unfold u16. Z.div_mod_to_equations; lia.
Qed.

Lemma be_decode_be32 (z : Z) : be_decode (be32 z) = u32 z.
Proof.
  unfold be32. rewrite be_decode_4. unfold byte_at. rewrite !Z_of_byte_of_Z.
  change (256 ^ 0) with 1; change (256 ^ 1) with 256;
  change (256 ^ 2) with 65536; change (256 ^ 3) with 16777216.
  unfold u32. Z.div_mod_to_equations; lia.
Qed.

Lemma be_decode_2_range (b1 b0 : byte) : 0 <= be_decode [b1; b0] < 65536.
Proof.
  rewrite be_decode_2.
  pose proof (Z_of_byte_range b1). pose proof (Z_of_byte_range b0). lia.
Qed.

(** ** Slots and loops *)

Lemma records_length (m : message_t) :
  (msg_length m <= length (msg_tlv m))%nat -> length (records m) = msg_length m.
Proof. intros Hm. unfold records. now apply length_take_le. Qed.

Lemma wf_message_records_length (m : message_t) :
  wf_message m -> length (records m) = msg_length m.
Proof.
  intros (Hlen & Hcount & _). apply records_length. rewrite Hlen. exact Hcount.
Qed.

Lemma for_loop_tlvs {S R : Type} (l : list tlv_t)
    (f : tlv_t -> S -> exec (step S R)) (body : nat -> S -> exec (step S R))
    (n first : nat) (s : S) :
  (first + n <= length l)%nat ->
  (forall i s', (i < first + n)%nat -> body i s' = f (l !!! i) s') ->
  for_loop n first body s = tlv_loop f (take n (drop first l)) s.
Proof.
  revert first s. induction n as [| n IH]; intros first s Hlen Hbody.
  - reflexivity.
  - destruct (lookup_lt_is_Some_2 l first ltac:(lia)) as [t Ht].
    rewrite (drop_S _ _ _ Ht). simpl.
    rewrite Hbody by lia. rewrite (list_lookup_total_correct _ _ _ Ht).
    destruct (f t s) as [[s' | r] | | |]; simpl; try reflexivity.
    apply IH; [lia |]. intros i s'' Hi. apply Hbody. lia.
Qed.

Lemma for_each_tlvs {S : Type} (l : list tlv_t) (f : tlv_t -> S -> S)
    (body : nat -> S -> S) (n first : nat) (s : S) :
  (first + n <= length l)%nat ->
  (forall i s', (i < first + n)%nat -> body i s' = f (l !!! i) s') ->
  for_each n first body s = fold_left (fun s' t => f t s') (take n (drop first l)) s.
Proof.
  revert first s. induction n as [| n IH]; intros first s Hlen Hbody.
  - reflexivity.
  - destruct (lookup_lt_is_Some_2 l first ltac:(lia)) as [t Ht].
    rewrite (drop_S _ _ _ Ht). simpl.
    rewrite Hbody by lia. rewrite (list_lookup_total_correct _ _ _ Ht).
    apply IH; [lia |]. intros i s'' Hi. apply Hbody. lia.
Qed.

(** A loop over the slots below [length] is a loop over the records. *)
Lemma for_loop_records {S R : Type} (m : message_t)
    (f : tlv_t -> S -> exec (step S R)) (s : S) :
  (msg_length m <= length (msg_tlv m))%nat ->
  for_loop (msg_length m) 0 (fun i => f (tlv_at m i)) s = tlv_loop f (records m) s.
Proof.
  intros Hm. unfold records.
  rewrite (for_loop_tlvs (msg_tlv m) f) by (simpl; auto || lia).
  now rewrite drop_0.
Qed.

Lemma for_each_records {S : Type} (m : message_t) (f : tlv_t -> S -> S) (s : S) :
  (msg_length m <= length (msg_tlv m))%nat ->
  for_each (msg_length m) 0 (fun i => f (tlv_at m i)) s
  = fold_left (fun s' t => f t s') (records m) s.
Proof.
  intros Hm. unfold records.
  rewrite (for_each_tlvs (msg_tlv m) f) by (simpl; auto || lia).
  now rewrite drop_0.
Qed.

Lemma store_slot_length (i : nat) (t : tlv_t) (m : message_t) :
  length (msg_tlv (store_slot i t m)) = length (msg_tlv m).
Proof. unfold store_slot. simpl. apply length_insert. Qed.

Lemma tlv_at_store_slot (i : nat) (t : tlv_t) (m : message_t) :
  (i < length (msg_tlv m))%nat -> tlv_at (store_slot i t m) i = t.
Proof.
  intros Hi. unfold tlv_at, store_slot. simpl.
  now apply list_lookup_total_insert_eq.
Qed.

Lemma store_slot_twice (i : nat) (t t' : tlv_t) (m : message_t) :
  store_slot i t (store_slot i t' m) = store_slot i t m.
Proof. unfold store_slot. simpl. now rewrite list_insert_insert_eq. Qed.

Lemma alter_slot (f : tlv_t -> tlv_t) (i : nat) (l : list tlv_t) :
  (i < length l)%nat -> alter f i l = <[i := f (l !!! i)]> l.
Proof.
  intros Hi. destruct (lookup_lt_is_Some_2 _ _ Hi) as [t Ht].
  rewrite (list_lookup_total_correct _ _ _ Ht).
  apply list_eq. intros j. destruct (decide (i = j)) as [<- | Hne].
  - now rewrite list_lookup_alter_eq, Ht, list_lookup_insert_eq.
  - now rewrite list_lookup_alter_ne, list_lookup_insert_ne.
Qed.

Lemma set_type_store (i : nat) (type : byte) (m : message_t) :
  (i < length (msg_tlv m))%nat ->
  set_type i type m
  = store_slot i (mk_tlv type (tlv_length (tlv_at m i)) (tlv_value (tlv_at m i))) m.
Proof. intros Hi. unfold set_type, store_slot, tlv_at. now rewrite alter_slot. Qed.

Lemma set_length_store (i : nat) (len : Z) (m : message_t) :
  (i < length (msg_tlv m))%nat ->
  set_length i len m
  = store_slot i (mk_tlv (tlv_type (tlv_at m i)) len (tlv_value (tlv_at m i))) m.
Proof. intros Hi. unfold set_length, store_slot, tlv_at. now rewrite alter_slot. Qed.

Lemma set_value_store (i : nat) (value : option (list byte)) (m : message_t) :
  (i < length (msg_tlv m))%nat ->
  set_value i value m
  = store_slot i (mk_tlv (tlv_type (tlv_at m i)) (tlv_length (tlv_at m i)) value) m.
Proof. intros Hi. unfold set_value, store_slot, tlv_at. now rewrite alter_slot. Qed.

Lemma set_type_slots (i : nat) (type : byte) (m : message_t) :
  length (msg_tlv (set_type i type m)) = length (msg_tlv m).
Proof. apply length_alter. Qed.

Lemma set_length_slots (i : nat) (len : Z) (m : message_t) :
  length (msg_tlv (set_length i len m)) = length (msg_tlv m).
Proof. apply length_alter. Qed.

Lemma set_value_slots (i : nat) (value : option (list byte)) (m : message_t) :
  length (msg_tlv (set_value i value m)) = length (msg_tlv m).
Proof. apply length_alter. Qed.

(** Rewrites the assignments to slot [i] into stores of whole records. *)
Ltac slot_in_range Hi :=
  repeat first [ rewrite store_slot_length | rewrite set_type_slots
               | rewrite set_length_slots | rewrite set_value_slots ];
  exact Hi.

Ltac slot_stores Hi :=
  repeat first
    [ rewrite tlv_at_store_slot by slot_in_range Hi
    | rewrite store_slot_twice
    | rewrite set_type_store by slot_in_range Hi
    | rewrite set_length_store by slot_in_range Hi
    | rewrite set_value_store by slot_in_range Hi ];
  cbn [tlv_type tlv_length tlv_value deref exec_bind].

Lemma memcpy_fresh (src : list byte) (n : nat) :
  (n <= length src)%nat -> memcpy (malloc_block n) 0 src n = Ret (take n src).
Proof.
  intros Hn. unfold memcpy, malloc_block. rewrite length_replicate.
  rewrite decide_True by (split; [simpl; lia | exact Hn]).
  simpl. rewrite drop_ge by (rewrite length_replicate; lia).
  now rewrite app_nil_r.
Qed.

Lemma memcpy_fresh_short (src : list byte) (n : nat) :
  (length src < n)%nat -> memcpy (malloc_block n) 0 src n = Undefined.
Proof.
  intros Hn. unfold memcpy. rewrite decide_False; [done | lia].
Qed.

(** ** [message_tlv_add], case by case *)

Lemma message_tlv_add_unfold (malloc_ok : bool) (m : message_t) (type : byte)
    (len : Z) (value : list byte) :
  length (msg_tlv m) = MAX_TLV_COUNT ->
  message_tlv_add malloc_ok m type len value
  = if decide (MAX_TLV_COUNT <= msg_length m)%nat
    then Ret (MESSAGE_ERROR_TOO_MANY_TLVS, m)
    else if negb malloc_ok
    then Ret (MESSAGE_ERROR_OUT_OF_MEMORY, set_value (msg_length m) None m)
    else if decide (length value < Z.to_nat (u16 len))%nat
    then Undefined
    else Ret (MESSAGE_SUCCESS,
              incr_length
                (store_slot (msg_length m)
                   (mk_tlv type (u16 len) (Some (take (Z.to_nat (u16 len)) value)))
                   m)).
Proof.
  intros Hlen. unfold message_tlv_add.
  destruct (decide (MAX_TLV_COUNT <= msg_length m)%nat) as [Hfull | Hroom];
    [reflexivity |].
  destruct malloc_ok; simpl negb; cbv iota; [| reflexivity].
  assert (Hi : (msg_length m < length (msg_tlv m))%nat) by lia.
  cbv zeta. slot_stores Hi.
  destruct (decide (length value < Z.to_nat (u16 len))%nat) as [Hshort | Hfit].
  - rewrite memcpy_fresh_short by exact Hshort. reflexivity.
  - rewrite memcpy_fresh by lia. cbn [exec_bind]. slot_stores Hi. reflexivity.
Qed.

Lemma records_append (m : message_t) (t : tlv_t) :
  (msg_length m < length (msg_tlv m))%nat ->
  records (incr_length (store_slot (msg_length m) t m)) = records m ++ [t].
Proof.
  intros Hi. unfold records, incr_length, store_slot. simpl.
  rewrite (take_S_r _ _ t) by now apply list_lookup_insert_eq.
  now rewrite take_insert_ge.
Qed.

Lemma records_set_value_dead (m : message_t) (value : option (list byte)) :
  records (set_value (msg_length m) value m) = records m.
Proof. unfold records, set_value. simpl. now apply take_alter_ge. Qed.

(** What [message_tlv_add] leaves of the count and of the records, by result
    code. *)
Lemma message_tlv_add_records (malloc_ok : bool) (m : message_t) (type : byte)
    (len : Z) (value : list byte) (r : message_result_t) (m' : message_t) :
  length (msg_tlv m) = MAX_TLV_COUNT ->
  message_tlv_add malloc_ok m type len value = Ret (r, m') ->
  match r with
  | MESSAGE_SUCCESS =>
      msg_length m' = S (msg_length m)
      /\ records m'
         = records m
           ++ [mk_tlv type (u16 len) (Some (take (Z.to_nat (u16 len)) value))]
  | MESSAGE_ERROR_TOO_MANY_TLVS | MESSAGE_ERROR_OUT_OF_MEMORY =>
      msg_length m' = msg_length m /\ records m' = records m
  | _ => False
  end.
Proof.
  intros Hlen. rewrite message_tlv_add_unfold by exact Hlen.
  destruct (decide (MAX_TLV_COUNT <= msg_length m)%nat) as [Hfull | Hroom].
  { intros [= <- <-]. split; reflexivity. }
  destruct malloc_ok; simpl negb; cbv iota.
  - destruct (decide (length value < Z.to_nat (u16 len))%nat); [discriminate |].
    intros [= <- <-]. split; [reflexivity |].
    apply records_append. lia.
  - intros [= <- <-]. split; [reflexivity |]. apply records_set_value_dead.
Qed.

Lemma message_tlv_add_slots (malloc_ok : bool) (m : message_t) (type : byte)
    (len : Z) (value : list byte) (r : message_result_t) (m' : message_t)
    (i : nat) :
  length (msg_tlv m) = MAX_TLV_COUNT ->
  message_tlv_add malloc_ok m type len value = Ret (r, m') ->
  (i < msg_length m)%nat ->
  tlv_at m' i = tlv_at m i.
Proof.
  intros Hlen. rewrite message_tlv_add_unfold by exact Hlen.
  destruct (decide (MAX_TLV_COUNT <= msg_length m)%nat) as [Hfull | Hroom].
  { now intros [= <- <-]. }
  destruct malloc_ok; simpl negb; cbv iota.
  - destruct (decide (length value < Z.to_nat (u16 len))%nat); [discriminate |].
    intros [= <- <-] Hi. unfold tlv_at, incr_length, store_slot. simpl.
    apply list_lookup_total_insert_ne. lia.
  - intros [= <- <-] Hi. unfold tlv_at, set_value. simpl.
    apply list_lookup_total_alter_ne. lia.
Qed.

(** C4. [message_tlv_add] returns [MESSAGE_SUCCESS],
    [MESSAGE_ERROR_TOO_MANY_TLVS] or [MESSAGE_ERROR_OUT_OF_MEMORY]. On either
    failure the record count is what it was before the call, and so is every
    record: its type, its length, its value. On success the count has grown
    by one, the records that were there are unchanged, and the one record
    after them is the new one, its value the first [length] bytes at
    [value]. *)
Theorem message_tlv_add_atomic (malloc_ok : bool) (m : message_t) (type : byte)
    (len : Z) (value : list byte) (r : message_result_t) (m' : message_t) :
  length (msg_tlv m) = MAX_TLV_COUNT ->
  message_tlv_add malloc_ok m type len value = Ret (r, m') ->
  (forall i, (i < msg_length m)%nat -> tlv_at m' i = tlv_at m i)
  /\ match r with
     | MESSAGE_SUCCESS =>
         msg_length m' = S (msg_length m)
         /\ records m'
            = records m
              ++ [mk_tlv type (u16 len) (Some (take (Z.to_nat (u16 len)) value))]
     | MESSAGE_ERROR_TOO_MANY_TLVS | MESSAGE_ERROR_OUT_OF_MEMORY =>
         msg_length m' = msg_length m /\ records m' = records m
     | _ => False
     end.
Proof.
  intros Hlen Hadd. split.
  - intros i Hi. exact (message_tlv_add_slots _ _ _ _ _ _ _ i Hlen Hadd Hi).
  - exact (message_tlv_add_records _ _ _ _ _ _ _ Hlen Hadd).
Qed.

Section codec_properties.
Context `{Platform}.

(** ** The checksum *)

Lemma checksum_body_wf (t : tlv_t) (checksum : Z) :
  wf_tlv t ->
  checksum_body t checksum = Ret (Continue (u32 (crc32 checksum (value_of t)))).
Proof.
  unfold wf_tlv, checksum_body, value_of.
  destruct (tlv_value t) as [value |]; [| tauto]. intros [Hlen _].
  simpl. rewrite Hlen, Nat2Z.id.
  rewrite decide_True by lia. now rewrite firstn_all.
Qed.

Lemma checksum_loop_wf (rs : list tlv_t) (checksum : Z) :
  Forall wf_tlv rs ->
  tlv_loop (R := unit) checksum_body rs checksum
  = Ret (Continue
           (fold_left (fun c t => u32 (crc32 c (value_of t))) rs checksum)).
Proof.
  intros Hrs. revert checksum.
  induction Hrs as [| t rs Ht _ IH]; intros checksum; [reflexivity |].
  simpl. rewrite (checksum_body_wf _ _ Ht). simpl. apply IH.
Qed.

Lemma message_checksum_records (m : message_t) :
  (msg_length m <= length (msg_tlv m))%nat ->
  Forall wf_tlv (records m) ->
  message_checksum m = Ret (htonl host (running_crc32 (records m))).
Proof.
  intros Hm Hrs. unfold message_checksum.
  rewrite (for_loop_records m checksum_body) by exact Hm.
  rewrite (checksum_loop_wf _ _ Hrs). reflexivity.
Qed.

Lemma running_crc32_values (rs rs' : list tlv_t) :
  value_of <$> rs = value_of <$> rs' -> running_crc32 rs = running_crc32 rs'.
Proof.
  unfold running_crc32. generalize 0 as c. revert rs'.
  induction rs as [| t rs IH]; intros [| t' rs'] c E; try discriminate;
    [reflexivity |].
  simpl in *. injection E as Et Ers. rewrite Et. now apply IH.
Qed.

(** ** [message_tlv_add] and the typed adders keep a message well formed *)

Lemma wf_message_init (m : message_t) : wf_message (snd (message_init m)).
Proof.
  unfold wf_message, records. simpl. repeat split; [lia | constructor].
Qed.

Lemma take_length_u16 (len : Z) (value : list byte) :
  ~ (length value < Z.to_nat (u16 len))%nat ->
  wf_tlv (mk_tlv x00 (u16 len) (Some (take (Z.to_nat (u16 len)) value))).
Proof.
  intros Hfit. unfold wf_tlv. simpl.
  assert (0 <= u16 len < 65536) by (unfold u16; Z.div_mod_to_equations; lia).
  rewrite length_take_le by lia. lia.
Qed.

Lemma message_tlv_add_wf (malloc_ok : bool) (m : message_t) (type : byte)
    (len : Z) (value : list byte) (r : message_result_t) (m' : message_t) :
  wf_message m ->
  message_tlv_add malloc_ok m type len value = Ret (r, m') ->
  wf_message m'.
Proof.
  intros (Hlen & Hcount & Hrs) Hadd.
  pose proof (message_tlv_add_records _ _ _ _ _ _ _ Hlen Hadd) as Hspec.
  rewrite message_tlv_add_unfold in Hadd by exact Hlen.
  destruct (decide (MAX_TLV_COUNT <= msg_length m)%nat) as [Hfull | Hroom].
  { injection Hadd as <- <-. now repeat split. }
  destruct malloc_ok; simpl negb in Hadd; cbv iota in Hadd.
  - destruct (decide (length value < Z.to_nat (u16 len))%nat) as [| Hfit];
      [discriminate |].
    injection Hadd as <- <-. destruct Hspec as [Hn Hrec].
    repeat split.
    + unfold incr_length. simpl. now rewrite length_insert.
    + simpl. lia.
    + rewrite Hrec. apply Forall_app. split; [exact Hrs |].
      constructor; [| constructor]. now apply take_length_u16.
  - injection Hadd as <- <-. destruct Hspec as [Hn Hrec].
    repeat split.
    + unfold set_value. simpl. now rewrite length_alter.
    + exact Hcount.
    + now rewrite Hrec.
Qed.

(** ** [message_parse]: one pass through the loop, case by case *)

Lemma store16_length (h : endianness) (z : Z) : length (store16 h z) = 2%nat.
Proof. now destruct h. Qed.

Lemma store32_length (h : endianness) (z : Z) : length (store32 h z) = 4%nat.
Proof. now destruct h. Qed.

Lemma ntohs_load_2 (h : endianness) (raw : list byte) :
  length raw = 2%nat -> ntohs h (load h raw) = be_decode raw.
Proof.
  destruct raw as [| b1 [| b0 [| ? ?]]]; try discriminate. intros _.
  apply ntohs_load.
Qed.

Lemma be_decode_2_bounds (raw : list byte) :
  length raw = 2%nat -> 0 <= be_decode raw < 65536.
Proof.
  destruct raw as [| b1 [| b0 [| ? ?]]]; try discriminate. intros _.
  apply be_decode_2_range.
Qed.

Lemma memcpy_whole (dst src : list byte) (n : nat) :
  length dst = n -> (n <= length src)%nat -> memcpy dst 0 src n = Ret (take n src).
Proof.
  intros Hdst Hsrc. unfold memcpy.
  rewrite decide_True by (simpl; lia). simpl.
  rewrite drop_ge by lia. now rewrite app_nil_r.
Qed.

Lemma parse_body_unfold (malloc_ok : nat -> bool) (data : list byte)
    (offset : nat) (m : message_t) :
  length (msg_tlv m) = MAX_TLV_COUNT ->
  parse_body malloc_ok data offset m
  = if decide (MAX_TLV_COUNT <= msg_length m)%nat
    then Ret (Return (MESSAGE_ERROR_TOO_MANY_TLVS, empty_message))
    else
      match data !! offset with
      | None => Undefined
      | Some type =>
        if decide (length data < offset + 3)%nat
        then Ret (Return (MESSAGE_ERROR_PARSE_ERROR, empty_message))
        else
          let len := Z.to_nat (wire_length data offset) in
          if decide (length data < offset + 3 + len)%nat
          then Ret (Return (MESSAGE_ERROR_PARSE_ERROR, empty_message))
          else if negb (malloc_ok (msg_length m))
          then Ret (Return (MESSAGE_ERROR_OUT_OF_MEMORY, empty_message))
          else
            let m' := store_slot (msg_length m) (wire_tlv type data offset) m in
            if decide (Z_of_byte type = TLV_CHECKSUM)
            then
              do checksum <- message_checksum m';
              do differ <- memcmp_differ (store32 host checksum)
                             (take len (drop (offset + 3) data)) 1;
              if differ
              then Ret (Return (MESSAGE_ERROR_CHECKSUM_MISMATCH, empty_message))
              else Ret (Continue ((offset + 3 + len)%nat, incr_length m'))
            else Ret (Continue ((offset + 3 + len)%nat, incr_length m'))
      end.
Proof.
  intros Hlen. unfold parse_body.
  destruct (decide (MAX_TLV_COUNT <= msg_length m)%nat) as [Hfull | Hroom];
    [reflexivity |].
  destruct (data !! offset) as [type |]; [| reflexivity].
  assert (Hi : (msg_length m < length (msg_tlv m))%nat) by lia.
  unfold sizeof_uint8_t, sizeof_uint16_t.
  replace (offset + 1 + 2)%nat with (offset + 3)%nat by lia.
  destruct (decide (length data < offset + 3)%nat) as [Hshort | Hheader];
    [reflexivity |].
  cbv zeta. slot_stores Hi.
  rewrite memcpy_whole by (rewrite ?store16_length, ?length_drop; lia).
  cbn [exec_bind]. slot_stores Hi.
  rewrite ntohs_load_2 by (rewrite length_take_le; [| rewrite length_drop]; lia).
  fold (wire_length data offset).
  destruct (decide (length data < offset + 3 + Z.to_nat (wire_length data offset))%nat)
    as [Hcut | Hvalue]; [reflexivity |].
  destruct (malloc_ok (msg_length m)); simpl negb; cbv iota; [| reflexivity].
  slot_stores Hi.
  rewrite memcpy_fresh by (rewrite length_drop; lia).
  cbn [exec_bind]. slot_stores Hi. fold (wire_tlv type data offset).
  reflexivity.
Qed.

(** A pass that goes on has read a whole record: at least three bytes, none
    past the end, into the slot after the last record. *)
Lemma parse_body_continue (malloc_ok : nat -> bool) (data : list byte)
    (offset offset' : nat) (m m' : message_t) :
  length (msg_tlv m) = MAX_TLV_COUNT ->
  parse_body malloc_ok data offset m = Ret (Continue (offset', m')) ->
  (offset + 3 <= offset' <= length data)%nat
  /\ (msg_length m < MAX_TLV_COUNT)%nat
  /\ exists type,
       data !! offset = Some type
       /\ malloc_ok (msg_length m) = true
       /\ offset' = (offset + 3 + Z.to_nat (wire_length data offset))%nat
       /\ m' = incr_length (store_slot (msg_length m) (wire_tlv type data offset) m).
Proof.
  intros Hlen. rewrite parse_body_unfold by exact Hlen.
  destruct (decide (MAX_TLV_COUNT <= msg_length m)%nat); [discriminate |].
  destruct (data !! offset) as [type |]; [| discriminate].
  destruct (decide (length data < offset + 3)%nat); [discriminate |].
  cbv zeta.
  destruct (decide (length data < offset + 3 + Z.to_nat (wire_length data offset))%nat);
    [discriminate |].
  destruct (malloc_ok (msg_length m)); simpl negb; cbv iota; [| discriminate].
  assert (Hgoal : forall o mm,
    Ret (Continue ((offset + 3 + Z.to_nat (wire_length data offset))%nat,
         incr_length (store_slot (msg_length m) (wire_tlv type data offset) m)))
    = Ret (Continue (o, mm)) :> exec (step (nat * message_t)
                                           (message_result_t * message_t)) ->
    (offset + 3 <= o <= length data)%nat /\ (msg_length m < MAX_TLV_COUNT)%nat
    /\ exists type0, Some type = Some type0 /\ true = true
       /\ o = (offset + 3 + Z.to_nat (wire_length data offset))%nat
       /\ mm = incr_length
                 (store_slot (msg_length m) (wire_tlv type0 data offset) m)).
  { intros o mm [= <- <-]. repeat split; try lia. now exists type. }
  destruct (decide (Z_of_byte type = TLV_CHECKSUM)); [| apply Hgoal].
  destruct (message_checksum _) as [checksum | | |]; try discriminate.
  cbn [exec_bind].
  destruct (memcmp_differ _ _ _) as [[|] | | |]; try discriminate.
  apply Hgoal.
Qed.

(** A pass that returns reports an error and leaves the message empty. *)
Lemma parse_body_return (malloc_ok : nat -> bool) (data : list byte)
    (offset : nat) (m : message_t) (r : message_result_t) (m' : message_t) :
  length (msg_tlv m) = MAX_TLV_COUNT ->
  parse_body malloc_ok data offset m = Ret (Return (r, m')) ->
  r <> MESSAGE_SUCCESS /\ m' = empty_message.
Proof.
  intros Hlen. rewrite parse_body_unfold by exact Hlen.
  repeat first
    [ discriminate
    | intros [= <- <-]; split; [discriminate | reflexivity]
    | match goal with
      | |- context [decide ?P] => destruct (decide P)
      | |- context [data !! offset] => destruct (data !! offset)
      | |- context [negb (malloc_ok ?i)] => destruct (malloc_ok i); simpl negb
      | |- context [message_checksum ?x] =>
          destruct (message_checksum x); cbn [exec_bind]
      | |- context [memcmp_differ ?a ?b ?n] =>
          destruct (memcmp_differ a b n) as [[|] | | |]; cbn [exec_bind]
      end
    | cbv zeta iota ].
Qed.

Lemma store_slot_slots (i : nat) (t : tlv_t) (m : message_t) :
  length (msg_tlv (incr_length (store_slot i t m))) = length (msg_tlv m).
Proof. unfold incr_length. simpl. apply length_insert. Qed.

(** The loop does not depend on the passes it is allowed, once they
    outnumber the bytes that are left. *)
Lemma parse_loop_fuel (malloc_ok : nat -> bool) (data : list byte)
    (fuel fuel' offset : nat) (m : message_t) :
  length (msg_tlv m) = MAX_TLV_COUNT ->
  (length data - offset < fuel)%nat ->
  (length data - offset < fuel')%nat ->
  parse_loop fuel malloc_ok data offset m = parse_loop fuel' malloc_ok data offset m.
Proof.
  revert fuel' offset m.
  induction fuel as [| fuel IH]; intros [| fuel'] offset m Hlen Hf Hf'; try lia.
  simpl. destruct (decide (offset < length data)%nat) as [Hin | Hout];
    [| reflexivity].
  destruct (parse_body malloc_ok data offset m) as [[[o mm] | r] | | |] eqn:E;
    try reflexivity.
  cbn [exec_bind].
  destruct (parse_body_continue _ _ _ _ _ _ Hlen E) as (Ho & _ & type & _ & _ & _ & ->).
  apply IH; [now rewrite store_slot_slots | lia | lia].
Qed.

Lemma parse_from_done (malloc_ok : nat -> bool) (data : list byte) (offset : nat)
    (m : message_t) :
  (length data <= offset)%nat ->
  parse_from malloc_ok data offset m = Ret (MESSAGE_SUCCESS, m).
Proof.
  intros Ho. unfold parse_from. simpl. now rewrite decide_False by lia.
Qed.

Lemma parse_from_continue (malloc_ok : nat -> bool) (data : list byte)
    (offset offset' : nat) (m m' : message_t) :
  length (msg_tlv m) = MAX_TLV_COUNT ->
  (offset < length data)%nat ->
  parse_body malloc_ok data offset m = Ret (Continue (offset', m')) ->
  parse_from malloc_ok data offset m = parse_from malloc_ok data offset' m'.
Proof.
  intros Hlen Hin E. unfold parse_from at 1. simpl.
  rewrite decide_True by exact Hin. rewrite E. cbn [exec_bind].
  destruct (parse_body_continue _ _ _ _ _ _ Hlen E) as (Ho & _ & type & _ & _ & _ & ->).
  apply parse_loop_fuel; [now rewrite store_slot_slots | lia | lia].
Qed.

Lemma parse_from_return (malloc_ok : nat -> bool) (data : list byte)
    (offset : nat) (m : message_t) (result : message_result_t * message_t) :
  (offset < length data)%nat ->
  parse_body malloc_ok data offset m = Ret (Return result) ->
  parse_from malloc_ok data offset m = Ret result.
Proof.
  intros Hin E. unfold parse_from. simpl.
  rewrite decide_True by exact Hin. now rewrite E.
Qed.

Lemma message_parse_from (malloc_ok : nat -> bool) (m : message_t)
    (data : list byte) :
  message_parse malloc_ok m data = parse_from malloc_ok data 0 empty_message.
Proof. unfold message_parse, parse_from. now rewrite Nat.sub_0_r. Qed.

(** ** [message_parse]: what every run has *)

Lemma wire_tlv_wf (type : byte) (data : list byte) (offset : nat) :
  (offset + 3 + Z.to_nat (wire_length data offset) <= length data)%nat ->
  wf_tlv (wire_tlv type data offset).
Proof.
  intros Hfit. unfold wf_tlv, wire_tlv. simpl.
  assert (Hraw : length (take 2 (drop (offset + 1) data)) = 2%nat).
  { rewrite length_take_le; [reflexivity |]. rewrite length_drop. lia. }
  pose proof (be_decode_2_bounds _ Hraw) as Hb. fold (wire_length data offset) in Hb.
  rewrite length_take_le by (rewrite length_drop; lia). lia.
Qed.

Lemma wf_message_append (m : message_t) (t : tlv_t) :
  wf_message m -> (msg_length m < MAX_TLV_COUNT)%nat -> wf_tlv t ->
  wf_message (incr_length (store_slot (msg_length m) t m)).
Proof.
  intros (Hlen & Hcount & Hrs) Hroom Ht. repeat split.
  - now rewrite store_slot_slots.
  - simpl. lia.
  - rewrite records_append by lia. apply Forall_app. split; [exact Hrs |].
    now repeat constructor.
Qed.

Lemma parse_body_continue_wf (malloc_ok : nat -> bool) (data : list byte)
    (offset offset' : nat) (m m' : message_t) :
  wf_message m ->
  parse_body malloc_ok data offset m = Ret (Continue (offset', m')) ->
  wf_message m'.
Proof.
  intros Hwf E. pose proof Hwf as (Hlen & _ & _).
  destruct (parse_body_continue _ _ _ _ _ _ Hlen E)
    as (Ho & Hroom & type & _ & _ & -> & ->).
  apply wf_message_append; [exact Hwf | exact Hroom |].
  apply wire_tlv_wf. lia.
Qed.

Lemma checksum_body_outcome (t : tlv_t) (checksum : Z) :
  (exists c, checksum_body t checksum = Ret (Continue c))
  \/ checksum_body t checksum = Undefined.
Proof.
  unfold checksum_body. destruct (tlv_value t) as [value |]; simpl; [| now right].
  destruct (decide _); [left; now eexists | now right].
Qed.

Lemma checksum_loop_outcome (rs : list tlv_t) (checksum : Z) :
  (exists c, tlv_loop (R := unit) checksum_body rs checksum = Ret (Continue c))
  \/ tlv_loop (R := unit) checksum_body rs checksum = Undefined.
Proof.
  revert checksum. induction rs as [| t rs IH]; intros checksum.
  - left. now eexists.
  - simpl. destruct (checksum_body_outcome t checksum) as [[c ->] | ->].
    + apply IH.
    + now right.
Qed.

Lemma message_checksum_outcome (m : message_t) :
  (msg_length m <= length (msg_tlv m))%nat ->
  (exists c, message_checksum m = Ret c) \/ message_checksum m = Undefined.
Proof.
  intros Hm. unfold message_checksum.
  rewrite (for_loop_records m checksum_body) by exact Hm.
  destruct (checksum_loop_outcome (records m) 0) as [[c ->] | ->].
  - left. now eexists.
  - now right.
Qed.

(** A pass returns, or reads outside an object; it never aborts and is not
    itself a loop. *)
Lemma parse_body_outcome (malloc_ok : nat -> bool) (data : list byte)
    (offset : nat) (m : message_t) :
  wf_message m ->
  (exists s, parse_body malloc_ok data offset m = Ret s)
  \/ parse_body malloc_ok data offset m = Undefined.
Proof.
  intros (Hlen & Hcount & _). rewrite parse_body_unfold by exact Hlen.
  destruct (decide (MAX_TLV_COUNT <= msg_length m)%nat); [left; now eexists |].
  destruct (data !! offset) as [type |]; [| now right].
  destruct (decide (length data < offset + 3)%nat); [left; now eexists |].
  cbv zeta.
  destruct (decide (length data < offset + 3 + _)%nat); [left; now eexists |].
  destruct (malloc_ok (msg_length m)); simpl negb; cbv iota;
    [| left; now eexists].
  destruct (decide (Z_of_byte type = TLV_CHECKSUM)); [| left; now eexists].
  destruct (message_checksum_outcome
              (store_slot (msg_length m) (wire_tlv type data offset) m))
    as [[c ->] | ->]; [rewrite store_slot_length; simpl; lia | | now right].
  cbn [exec_bind]. unfold memcmp_differ.
  destruct (decide _); cbn [exec_bind]; [| now right].
  destruct (bool_decide _); left; now eexists.
Qed.

(** Every run of the parser from a well-formed message ends: with a result
    code and a well-formed message, empty unless the code is
    [MESSAGE_SUCCESS], or in a read outside an object. *)
Lemma parse_from_outcome (malloc_ok : nat -> bool) (data : list byte)
    (offset : nat) (m : message_t) :
  wf_message m ->
  (exists r m', parse_from malloc_ok data offset m = Ret (r, m')
                /\ wf_message m'
                /\ (r <> MESSAGE_SUCCESS -> m' = empty_message))
  \/ parse_from malloc_ok data offset m = Undefined.
Proof.
  remember (length data - offset)%nat as n eqn:Hn.
  revert offset m Hn. induction n as [n IH] using lt_wf_ind.
  intros offset m Hn Hwf. pose proof Hwf as (Hlen & _ & _).
  destruct (decide (offset < length data)%nat) as [Hin | Hout].
  - destruct (parse_body_outcome malloc_ok data offset m Hwf)
      as [[[[o mm] | [r m']] E] | E].
    + rewrite (parse_from_continue _ _ _ _ _ _ Hlen Hin E).
      destruct (parse_body_continue _ _ _ _ _ _ Hlen E) as (Ho & _).
      apply (IH (length data - o)%nat); [lia | reflexivity |].
      exact (parse_body_continue_wf _ _ _ _ _ _ Hwf E).
    + rewrite (parse_from_return _ _ _ _ _ Hin E).
      destruct (parse_body_return _ _ _ _ _ _ Hlen E) as [Hr ->].
      left. exists r, empty_message. split; [reflexivity |].
      split; [apply (wf_message_init m) | reflexivity].
    + right. unfold parse_from. simpl. rewrite decide_True by exact Hin.
      now rewrite E.
  - rewrite parse_from_done by lia. left. exists MESSAGE_SUCCESS, m.
    split; [reflexivity |]. split; [exact Hwf | congruence].
Qed.

Lemma message_parse_terminates (malloc_ok : nat -> bool) (m : message_t)
    (data : list byte) :
  message_parse malloc_ok m data <> OutOfFuel.
Proof.
  rewrite message_parse_from.
  destruct (parse_from_outcome malloc_ok data 0 empty_message (wf_message_init m))
    as [(r & m' & -> & _) | ->]; discriminate.
Qed.

(** ** [message_serialized_size] and [message_serialize] *)

Lemma memcpy_overwrite (buf : list byte) (offset : nat) (src : list byte) :
  (offset + length src <= length buf)%nat ->
  memcpy buf offset src (length src) = Ret (overwrite buf offset src).
Proof.
  intros Hfit. unfold memcpy, overwrite.
  rewrite decide_True by lia. now rewrite firstn_all.
Qed.

Lemma memcpy_overwrite' (buf : list byte) (offset : nat) (src : list byte)
    (n : nat) :
  n = length src ->
  (offset + n <= length buf)%nat ->
  memcpy buf offset src n = Ret (overwrite buf offset src).
Proof. intros ->. apply memcpy_overwrite. Qed.

Lemma overwrite_length (buf : list byte) (offset : nat) (src : list byte) :
  (offset + length src <= length buf)%nat ->
  length (overwrite buf offset src) = length buf.
Proof.
  intros Hfit. unfold overwrite.
  rewrite !length_app, length_take_le, length_drop by lia. lia.
Qed.

Lemma overwrite_app (buf : list byte) (offset : nat) (a b : list byte) :
  (offset + length a + length b <= length buf)%nat ->
  overwrite (overwrite buf offset a) (offset + length a) b
  = overwrite buf offset (a ++ b).
Proof.
  intros Hfit. unfold overwrite.
  assert (Hpre : length (take offset buf ++ a) = (offset + length a)%nat).
  { rewrite length_app, length_take_le by lia. reflexivity. }
  rewrite (app_assoc (take offset buf) a).
  rewrite take_app_length' by now rewrite Hpre.
  replace (offset + length a + length b)%nat
    with (length (take offset buf ++ a) + length b)%nat by (rewrite Hpre; lia).
  rewrite drop_app_add, drop_drop.
  rewrite length_app, <- !app_assoc.
  do 3 f_equal. f_equal. lia.
Qed.

Lemma overwrite_app' (buf : list byte) (offset o : nat) (a b : list byte) :
  o = (offset + length a)%nat ->
  (offset + length a + length b <= length buf)%nat ->
  overwrite (overwrite buf offset a) o b = overwrite buf offset (a ++ b).
Proof. intros ->. apply overwrite_app. Qed.

Lemma wire_record_length (t : tlv_t) :
  wf_tlv t -> length (wire_record t) = (3 + Z.to_nat (tlv_length t))%nat.
Proof.
  unfold wf_tlv, wire_record, value_of.
  destruct (tlv_value t) as [value |]; [| tauto]. intros [-> _]. simpl.
  rewrite Nat2Z.id. reflexivity.
Qed.

Lemma serialize_body_fits (t : tlv_t) (offset remaining : nat) (buf : list byte) :
  wf_tlv t ->
  (offset + remaining = length buf)%nat ->
  (length (wire_record t) <= remaining)%nat ->
  serialize_body t (offset, remaining, buf)
  = Ret (Continue ((offset + length (wire_record t))%nat,
                   (remaining - length (wire_record t))%nat,
                   overwrite buf offset (wire_record t))).
Proof.
  intros Ht Hbuf. rewrite (wire_record_length _ Ht). intros Hfit.
  unfold wf_tlv in Ht. unfold serialize_body, wire_record, value_of.
  destruct (tlv_value t) as [value |]; [| tauto]. destruct Ht as [Hlen Hu16].
  unfold sizeof_uint8_t, sizeof_uint16_t.
  replace (1 + 2 + Z.to_nat (tlv_length t))%nat
    with (3 + Z.to_nat (tlv_length t))%nat by lia.
  rewrite decide_False by lia.
  rewrite store16_htons.
  rewrite (memcpy_overwrite' buf offset [tlv_type t]) by (simpl; lia).
  cbn [exec_bind].
  rewrite (memcpy_overwrite' _ (offset + 1) (be16 (tlv_length t)))
    by (rewrite ?overwrite_length; simpl; lia).
  cbn [exec_bind deref].
  rewrite (overwrite_app' buf offset _ [tlv_type t] (be16 (tlv_length t)))
    by (simpl; lia).
  assert (Hn : Z.to_nat (tlv_length t) = length value) by lia.
  rewrite Hn.
  rewrite memcpy_overwrite by (rewrite overwrite_length; simpl; lia).
  cbn [exec_bind]. rewrite overwrite_app' by (simpl; lia).
  simpl. do 3 f_equal; lia.
Qed.

Lemma serialize_body_short (t : tlv_t) (offset remaining : nat) (buf : list byte) :
  wf_tlv t ->
  (remaining < length (wire_record t))%nat ->
  serialize_body t (offset, remaining, buf)
  = Ret (Return (result_code MESSAGE_ERROR_BUFFER_TOO_SMALL, buf)).
Proof.
  intros Ht. rewrite (wire_record_length _ Ht). intros Hshort.
  unfold serialize_body, sizeof_uint8_t, sizeof_uint16_t.
  now rewrite decide_True by lia.
Qed.

Lemma tlv_loop_cons {S R : Type} (f : tlv_t -> S -> exec (step S R))
    (t : tlv_t) (rs : list tlv_t) (s : S) :
  tlv_loop f (t :: rs) s
  = (do r <- f t s;
     match r with
     | Continue s' => tlv_loop f rs s'
     | Return r => Ret (Return r)
     end).
Proof. reflexivity. Qed.

Lemma serialize_loop_fits (rs : list tlv_t) (offset remaining : nat)
    (buf : list byte) :
  Forall wf_tlv rs ->
  (offset + remaining = length buf)%nat ->
  (length (wire_format rs) <= remaining)%nat ->
  tlv_loop serialize_body rs (offset, remaining, buf)
  = Ret (Continue ((offset + length (wire_format rs))%nat,
                   (remaining - length (wire_format rs))%nat,
                   overwrite buf offset (wire_format rs))).
Proof.
  intros Hrs. revert offset remaining buf.
  induction Hrs as [| t rs Ht _ IH]; intros offset remaining buf Hbuf Hfit.
  - simpl. unfold overwrite. simpl.
    rewrite !Nat.add_0_r, Nat.sub_0_r, take_drop. reflexivity.
  - cbn [wire_format] in *. rewrite length_app in *. rewrite tlv_loop_cons.
    rewrite serialize_body_fits by (auto; lia). cbn [exec_bind].
    rewrite IH by (rewrite ?overwrite_length; lia).
    rewrite overwrite_app by lia.
    rewrite Nat.add_assoc, Nat.sub_add_distr. reflexivity.
Qed.

Lemma serialize_loop_short (rs : list tlv_t) (offset remaining : nat)
    (buf : list byte) :
  Forall wf_tlv rs ->
  (offset + remaining = length buf)%nat ->
  (remaining < length (wire_format rs))%nat ->
  exists buf',
    tlv_loop serialize_body rs (offset, remaining, buf)
    = Ret (Return (result_code MESSAGE_ERROR_BUFFER_TOO_SMALL, buf')).
Proof.
  intros Hrs. revert offset remaining buf.
  induction Hrs as [| t rs Ht _ IH]; intros offset remaining buf Hbuf Hshort.
  - simpl in Hshort. lia.
  - cbn [wire_format] in Hshort. rewrite length_app in Hshort.
    rewrite tlv_loop_cons.
    destruct (decide (remaining < length (wire_record t))%nat) as [Hnow | Hlater].
    + rewrite serialize_body_short by assumption. now eexists.
    + rewrite serialize_body_fits by (auto; lia). cbn [exec_bind].
      apply IH; [rewrite overwrite_length; lia | lia].
Qed.

Lemma wire_format_length (rs : list tlv_t) :
  Forall wf_tlv rs ->
  length (wire_format rs)
  = sum_list_with (fun t => 1 + 2 + Z.to_nat (tlv_length t))%nat rs.
Proof.
  induction 1 as [| t rs Ht _ IH]; [reflexivity |].
  cbn [wire_format sum_list_with].
  rewrite length_app, IH, wire_record_length by exact Ht. lia.
Qed.

Lemma message_serialized_size_sum (m : message_t) :
  (msg_length m <= length (msg_tlv m))%nat ->
  message_serialized_size m
  = sum_list_with (fun t => 1 + 2 + Z.to_nat (tlv_length t))%nat (records m).
Proof.
  intros Hm. unfold message_serialized_size, sizeof_uint8_t, sizeof_uint16_t.
  rewrite (for_each_records m
             (fun t size => (size + (1 + 2 + Z.to_nat (tlv_length t)))%nat))
    by exact Hm.
  generalize (records m) as rs. intros rs.
  assert (E : forall acc,
    fold_left (fun s' t => (s' + (1 + 2 + Z.to_nat (tlv_length t)))%nat) rs acc
    = (acc + sum_list_with (fun t => 1 + 2 + Z.to_nat (tlv_length t))%nat rs)%nat).
  { induction rs as [| t rs IH]; intros acc; cbn [fold_left sum_list_with];
      [lia | rewrite IH; lia]. }
  now rewrite E.
Qed.

Lemma message_serialized_size_wire (m : message_t) :
  wf_message m -> message_serialized_size m = length (wire_format (records m)).
Proof.
  intros (Hlen & Hcount & Hrs).
  rewrite message_serialized_size_sum by lia.
  now rewrite wire_format_length.
Qed.

Lemma message_serialize_fits (m : message_t) (buffer : list byte) :
  wf_message m ->
  (message_serialized_size m <= length buffer)%nat ->
  message_serialize buffer m
  = Ret (Z.of_nat (message_serialized_size m),
         wire_format (records m) ++ drop (message_serialized_size m) buffer).
Proof.
  intros Hwf. rewrite (message_serialized_size_wire _ Hwf).
  destruct Hwf as (Hlen & Hcount & Hrs). intros Hfit.
  unfold message_serialize.
  rewrite (for_loop_records m serialize_body) by lia.
  rewrite serialize_loop_fits by (auto; lia). reflexivity.
Qed.

(** C6. The serialized size of a message is the sum over its records of
    [1 + 2 + length]. Into a buffer of at least that many bytes
    [message_serialize] writes the wire format of the records, in insertion
    order, each as its type byte, its length in two bytes, big-endian, and its
    value, and returns the serialized size; the rest of the buffer keeps its
    contents. Into a smaller buffer it returns
    [MESSAGE_ERROR_BUFFER_TOO_SMALL]. *)
Theorem message_serialize_spec (m : message_t) (buffer : list byte) :
  wf_message m ->
  message_serialized_size m
  = sum_list_with (fun t => 1 + 2 + Z.to_nat (tlv_length t))%nat (records m)
  /\ ((message_serialized_size m <= length buffer)%nat ->
      message_serialize buffer m
      = Ret (Z.of_nat (message_serialized_size m),
             wire_format (records m) ++ drop (message_serialized_size m) buffer))
  /\ ((length buffer < message_serialized_size m)%nat ->
      exists buffer',
        message_serialize buffer m
        = Ret (result_code MESSAGE_ERROR_BUFFER_TOO_SMALL, buffer')).
Proof.
  intros Hwf. split; [| split].
  - destruct Hwf as (Hlen & Hcount & _). apply message_serialized_size_sum. lia.
  - now apply message_serialize_fits.
  - rewrite (message_serialized_size_wire _ Hwf).
    destruct Hwf as (Hlen & Hcount & Hrs). intros Hshort.
    unfold message_serialize.
    rewrite (for_loop_records m serialize_body) by lia.
    destruct (serialize_loop_short (records m) 0 (length buffer) buffer Hrs)
      as [buffer' ->]; [reflexivity | exact Hshort |].
    now exists buffer'.
Qed.

(** ** [message_tlv_get] *)

Lemma get_body_wf (type : byte) (destination : list byte) (t : tlv_t) :
  wf_tlv t ->
  get_body type destination t tt
  = if decide (tlv_type t = type)
    then if decide (tlv_length t <= Z.of_nat (length destination))
         then Ret (Return (MESSAGE_SUCCESS,
                           value_of t ++ drop (length (value_of t)) destination))
         else AssertFailed
    else Ret (Continue tt).
Proof.
  unfold wf_tlv, get_body, value_of.
  destruct (tlv_value t) as [value |]; [| tauto]. intros [Hlen _].
  destruct (decide (tlv_type t = type)); [| reflexivity].
  destruct (decide (tlv_length t <= Z.of_nat (length destination)));
    [| reflexivity].
  cbn [deref exec_bind default].
  rewrite memcpy_overwrite' by lia. reflexivity.
Qed.

Lemma get_loop_first (type : byte) (destination : list byte) (rs : list tlv_t) :
  Forall wf_tlv rs ->
  tlv_loop (get_body type destination) rs tt
  = match first_of_type type rs with
    | Some (_, t) =>
        if decide (tlv_length t <= Z.of_nat (length destination))
        then Ret (Return (MESSAGE_SUCCESS,
                          value_of t ++ drop (length (value_of t)) destination))
        else AssertFailed
    | None => Ret (Continue tt)
    end.
Proof.
  unfold first_of_type.
  induction 1 as [| t rs Ht _ IH]; [reflexivity |].
  rewrite tlv_loop_cons, (get_body_wf _ _ _ Ht). cbn [list_find].
  destruct (decide (tlv_type t = type)).
  - destruct (decide _); reflexivity.
  - cbn [exec_bind]. rewrite IH.
    destruct (list_find _ rs) as [[i t'] |]; reflexivity.
Qed.

Lemma message_tlv_get_first (m : message_t) (type : byte)
    (destination : list byte) :
  wf_message m ->
  message_tlv_get m type destination
  = match first_of_type type (records m) with
    | Some (_, t) =>
        if decide (tlv_length t <= Z.of_nat (length destination))
        then Ret (MESSAGE_SUCCESS,
                  value_of t ++ drop (length (value_of t)) destination)
        else AssertFailed
    | None => Ret (MESSAGE_ERROR_TLV_NOT_FOUND, destination)
    end.
Proof.
  intros (Hlen & Hcount & Hrs). unfold message_tlv_get.
  rewrite (for_loop_records m (get_body type destination)) by lia.
  rewrite (get_loop_first _ _ _ Hrs).
  destruct (first_of_type type (records m)) as [[i t] |]; [| reflexivity].
  destruct (decide _); reflexivity.
Qed.

(** C5. [message_tlv_get] copies the value of the first record of the
    requested type, in insertion order, to the start of the destination
    (whenever the destination holds it), whatever records of that type
    follow; and it returns [MESSAGE_ERROR_TLV_NOT_FOUND] exactly when the
    message has no record of that type. *)
Theorem message_tlv_get_first_match (m : message_t) (type : byte)
    (destination : list byte) :
  wf_message m ->
  (forall i t,
     records m !! i = Some t ->
     tlv_type t = type ->
     (forall j t', (j < i)%nat -> records m !! j = Some t' -> tlv_type t' <> type) ->
     tlv_length t <= Z.of_nat (length destination) ->
     message_tlv_get m type destination
     = Ret (MESSAGE_SUCCESS, value_of t ++ drop (length (value_of t)) destination))
  /\ ((exists out, message_tlv_get m type destination
                   = Ret (MESSAGE_ERROR_TLV_NOT_FOUND, out))
      <-> Forall (fun t => tlv_type t <> type) (records m)).
Proof.
  intros Hwf. rewrite (message_tlv_get_first _ _ _ Hwf). split.
  - intros i t Hi Ht Hfirst Hfit.
    assert (E : first_of_type type (records m) = Some (i, t)).
    { apply list_find_Some. split; [exact Hi |]. split; [exact Ht |].
      intros j t' Hj Hlt. exact (Hfirst j t' Hlt Hj). }
    rewrite E. now rewrite decide_True.
  - destruct (first_of_type type (records m)) as [[i t] |] eqn:E.
    + apply list_find_Some in E as (Hi & Ht & _). split.
      * intros [out Hout]. destruct (decide _); discriminate.
      * intros Hnone. rewrite Forall_lookup in Hnone.
        now destruct (Hnone i t Hi).
    + apply list_find_None in E. split; [intros _; exact E |].
      intros _. now eexists.
Qed.

(** ** [message_parse] on the wire format of records *)

Lemma wire_record_split (t : tlv_t) :
  wire_record t = [tlv_type t] ++ be16 (tlv_length t) ++ value_of t.
Proof. reflexivity. Qed.

Lemma wire_length_record (pre post : list byte) (t : tlv_t) :
  wf_tlv t ->
  wire_length (pre ++ wire_record t ++ post) (length pre) = tlv_length t.
Proof.
  intros Ht. unfold wire_length. rewrite wire_record_split.
  rewrite drop_app_add.
  change (take 2 (drop 1 (([tlv_type t] ++ be16 (tlv_length t) ++ value_of t)
                          ++ post)))
    with (be16 (tlv_length t)).
  rewrite be_decode_be16. unfold wf_tlv in Ht.
  destruct (tlv_value t); [| tauto]. unfold u16. rewrite Z.mod_small; lia.
Qed.

Lemma wire_tlv_record (pre post : list byte) (t : tlv_t) :
  wf_tlv t ->
  wire_tlv (tlv_type t) (pre ++ wire_record t ++ post) (length pre) = t.
Proof.
  intros Ht. unfold wire_tlv. rewrite (wire_length_record _ _ _ Ht).
  rewrite wire_record_split, drop_app_add.
  change (drop 3 (([tlv_type t] ++ be16 (tlv_length t) ++ value_of t) ++ post))
    with (value_of t ++ post).
  unfold wf_tlv, value_of in *. destruct t as [type len [value |]]; simpl in *;
    [| tauto].
  destruct Ht as [-> _]. rewrite Nat2Z.id. now rewrite take_app_length.
Qed.

Lemma records_store_dead (m : message_t) (t : tlv_t) :
  records (store_slot (msg_length m) t m) = records m.
Proof. unfold records, store_slot. simpl. now apply take_insert_ge. Qed.

Lemma parse_body_record (malloc_ok : nat -> bool) (pre post : list byte)
    (t : tlv_t) (m : message_t) :
  wf_message m ->
  (msg_length m < MAX_TLV_COUNT)%nat ->
  wf_tlv t ->
  malloc_ok (msg_length m) = true ->
  (Z_of_byte (tlv_type t) = TLV_CHECKSUM ->
   take 1 (value_of t) = [byte_at 3 (running_crc32 (records m))]) ->
  parse_body malloc_ok (pre ++ wire_record t ++ post) (length pre) m
  = Ret (Continue ((length pre + length (wire_record t))%nat,
                   incr_length (store_slot (msg_length m) t m))).
Proof.
  intros (Hlen & Hcount & Hrs) Hroom Ht Hmalloc Hgate.
  rewrite parse_body_unfold by exact Hlen.
  rewrite decide_False by lia.
  assert (Hty : (pre ++ wire_record t ++ post) !! length pre = Some (tlv_type t)).
  { rewrite lookup_app_r by lia. now rewrite Nat.sub_diag. }
  rewrite Hty.
  pose proof (wire_record_length _ Ht) as Hsize.
  rewrite decide_False by (rewrite !length_app; lia).
  cbv zeta. rewrite (wire_length_record _ _ _ Ht), (wire_tlv_record _ _ _ Ht).
  rewrite decide_False by (rewrite !length_app; lia).
  rewrite Hmalloc. simpl negb. cbv iota.
  replace (length pre + 3 + Z.to_nat (tlv_length t))%nat
    with (length pre + length (wire_record t))%nat by lia.
  destruct (decide (Z_of_byte (tlv_type t) = TLV_CHECKSUM)) as [Hck |];
    [| reflexivity].
  rewrite message_checksum_records
    by (rewrite ?store_slot_length, ?records_store_dead; simpl; auto; lia).
  cbn [exec_bind]. rewrite records_store_dead, store32_htonl.
  assert (Hval : take (Z.to_nat (tlv_length t))
                   (drop (length pre + 3) (pre ++ wire_record t ++ post))
                 = value_of t).
  { pose proof (wire_tlv_record pre post t Ht) as E. unfold wire_tlv in E.
    rewrite (wire_length_record _ _ _ Ht) in E.
    unfold value_of. rewrite <- E at 3. reflexivity. }
  rewrite Hval. specialize (Hgate Hck).
  unfold memcmp_differ.
  assert (Hne : (1 <= length (value_of t))%nat).
  { destruct (value_of t); [discriminate | simpl; lia]. }
  rewrite decide_True by (simpl; lia). cbn [exec_bind].
  rewrite Hgate. simpl take. rewrite bool_decide_false by congruence.
  reflexivity.
Qed.

Lemma append_records_cons (m : message_t) (t : tlv_t) (rs : list tlv_t) :
  append_records m (t :: rs)
  = append_records (incr_length (store_slot (msg_length m) t m)) rs.
Proof. reflexivity. Qed.

Lemma append_records_wf (rs : list tlv_t) (m : message_t) :
  wf_message m ->
  (msg_length m + length rs <= MAX_TLV_COUNT)%nat ->
  Forall wf_tlv rs ->
  wf_message (append_records m rs)
  /\ msg_length (append_records m rs) = (msg_length m + length rs)%nat
  /\ records (append_records m rs) = records m ++ rs.
Proof.
  revert m. induction rs as [| t rs IH]; intros m Hwf Hroom Hrs.
  - simpl. rewrite Nat.add_0_r, app_nil_r. auto.
  - rewrite append_records_cons. simpl in Hroom.
    apply Forall_cons in Hrs as [Ht Hrs].
    destruct (IH (incr_length (store_slot (msg_length m) t m))) as (Hwf' & Hn & Hrec).
    + apply wf_message_append; [exact Hwf | lia | exact Ht].
    + simpl. lia.
    + exact Hrs.
    + split; [exact Hwf' |]. split; [rewrite Hn; simpl; lia |].
      rewrite Hrec, records_append by (destruct Hwf as (-> & _); lia).
      now rewrite <- app_assoc.
Qed.

Lemma wire_record_nonempty (t : tlv_t) : (0 < length (wire_record t))%nat.
Proof. unfold wire_record. simpl. lia. Qed.

(** The parser reads the wire format of records it accepts one record per
    pass, appending each. *)
Lemma parse_from_wire (malloc_ok : nat -> bool) (rs : list tlv_t)
    (pre post : list byte) (m : message_t) :
  wf_message m ->
  (msg_length m + length rs <= MAX_TLV_COUNT)%nat ->
  Forall wf_tlv rs ->
  (forall i, (msg_length m <= i < msg_length m + length rs)%nat ->
             malloc_ok i = true) ->
  checksums_accepted_from (records m) rs ->
  parse_from malloc_ok (pre ++ wire_format rs ++ post) (length pre) m
  = parse_from malloc_ok (pre ++ wire_format rs ++ post)
      (length pre + length (wire_format rs)) (append_records m rs).
Proof.
  revert pre m. induction rs as [| t rs IH]; intros pre m Hwf Hroom Hrs Hmalloc Hck.
  - simpl. now rewrite Nat.add_0_r.
  - apply Forall_cons in Hrs as [Ht Hrs]. destruct Hck as [Hgate Hck].
    simpl in Hroom. cbn [wire_format]. rewrite <- (app_assoc (wire_record t)).
    pose proof (wire_record_nonempty t) as Hpos.
    rewrite (parse_from_continue malloc_ok _ (length pre)
               (length pre + length (wire_record t))%nat m
               (incr_length (store_slot (msg_length m) t m))).
    + rewrite append_records_cons.
      rewrite (app_assoc pre (wire_record t)).
      rewrite <- (length_app pre (wire_record t)).
      rewrite IH.
      * rewrite !length_app. now rewrite Nat.add_assoc.
      * apply wf_message_append; [exact Hwf | lia | exact Ht].
      * simpl. lia.
      * exact Hrs.
      * intros i Hi. apply Hmalloc. simpl in *. lia.
      * rewrite records_append by (destruct Hwf as (-> & _); lia). exact Hck.
    + now destruct Hwf.
    + rewrite !length_app. lia.
    + apply parse_body_record; auto; [lia | apply Hmalloc; simpl; lia].
Qed.

Lemma checksums_valid_accepted (before rs : list tlv_t) :
  checksums_valid_from before rs -> checksums_accepted_from before rs.
Proof.
  revert before. induction rs as [| t rs IH]; intros before; [easy |].
  intros [Hvalid Hrest]. split; [| now apply IH].
  intros Hck. now rewrite (Hvalid Hck).
Qed.

(** Serializing the records of a well-formed message whose checksum records
    the parser accepts, then parsing the bytes: the records come back. *)
Lemma message_parse_wire (malloc_ok : nat -> bool) (m0 m : message_t) :
  wf_message m ->
  (forall i, (i < msg_length m)%nat -> malloc_ok i = true) ->
  checksums_accepted_from [] (records m) ->
  message_parse malloc_ok m0 (wire_format (records m))
  = Ret (MESSAGE_SUCCESS, append_records empty_message (records m)).
Proof.
  intros Hwf Hmalloc Hck. pose proof Hwf as (Hlen & Hcount & Hrs).
  rewrite message_parse_from.
  pose proof (parse_from_wire malloc_ok (records m) [] [] empty_message) as E.
  rewrite app_nil_r in E. simpl in E. rewrite E.
  - now apply parse_from_done.
  - apply (wf_message_init m0).
  - rewrite (wf_message_records_length _ Hwf). exact Hcount.
  - exact Hrs.
  - intros i Hi. apply Hmalloc. rewrite (wf_message_records_length _ Hwf) in Hi. lia.
  - exact Hck.
Qed.

(** ** [message_parse] on a buffer that extends a parsed one *)

Lemma wire_length_app (pre post : list byte) (offset : nat) :
  (offset + 3 <= length pre)%nat ->
  wire_length (pre ++ post) offset = wire_length pre offset.
Proof.
  intros Ho. unfold wire_length.
  rewrite drop_app_le by lia. rewrite take_app_le; [reflexivity |].
  rewrite length_drop. lia.
Qed.

Lemma wire_value_app (pre post : list byte) (offset n : nat) :
  (offset + 3 + n <= length pre)%nat ->
  take n (drop (offset + 3) (pre ++ post)) = take n (drop (offset + 3) pre).
Proof.
  intros Ho. rewrite drop_app_le by lia. rewrite take_app_le; [reflexivity |].
  rewrite length_drop. lia.
Qed.

Lemma wire_tlv_app (type : byte) (pre post : list byte) (offset : nat) :
  (offset + 3 + Z.to_nat (wire_length pre offset) <= length pre)%nat ->
  wire_tlv type (pre ++ post) offset = wire_tlv type pre offset.
Proof.
  intros Ho. unfold wire_tlv.
  rewrite wire_length_app by lia. now rewrite wire_value_app.
Qed.

(** A pass that reads a whole record from a buffer reads the same record
    when more bytes follow the buffer. *)
Lemma parse_body_extend (malloc_ok : nat -> bool) (pre post : list byte)
    (offset offset' : nat) (m m' : message_t) :
  length (msg_tlv m) = MAX_TLV_COUNT ->
  parse_body malloc_ok pre offset m = Ret (Continue (offset', m')) ->
  parse_body malloc_ok (pre ++ post) offset m = Ret (Continue (offset', m')).
Proof.
  intros Hlen E.
  destruct (parse_body_continue _ _ _ _ _ _ Hlen E)
    as (Ho & Hroom & type & Hty & Hok & Ho' & Hm').
  rewrite parse_body_unfold in E |- * by exact Hlen.
  rewrite decide_False in E |- * by lia.
  rewrite Hty in E. rewrite (lookup_app_l_Some _ _ _ _ Hty).
  rewrite decide_False in E by lia.
  rewrite decide_False by (rewrite length_app; lia).
  cbv zeta in E |- *.
  rewrite wire_length_app, wire_tlv_app, wire_value_app by lia.
  rewrite decide_False in E by lia.
  rewrite decide_False by (rewrite length_app; lia).
  exact E.
Qed.

Lemma parse_from_extend (malloc_ok : nat -> bool) (pre post : list byte)
    (offset : nat) (m m' : message_t) :
  wf_message m ->
  (offset <= length pre)%nat ->
  parse_from malloc_ok pre offset m = Ret (MESSAGE_SUCCESS, m') ->
  parse_from malloc_ok (pre ++ post) offset m
  = parse_from malloc_ok (pre ++ post) (length pre) m'.
Proof.
  remember (length pre - offset)%nat as n eqn:Hn.
  revert offset m Hn. induction n as [n IH] using lt_wf_ind.
  intros offset m Hn Hwf Ho Hparse. pose proof Hwf as (Hlen & _ & _).
  destruct (decide (offset < length pre)%nat) as [Hin | Hout].
  - destruct (parse_body malloc_ok pre offset m) as [[[o mm] | [r m1]] | | |] eqn:E.
    + destruct (parse_body_continue _ _ _ _ _ _ Hlen E) as (Hoo & _).
      rewrite (parse_from_continue _ _ _ _ _ _ Hlen Hin E) in Hparse.
      rewrite (parse_from_continue _ (pre ++ post) offset o m mm Hlen).
      * apply (IH (length pre - o)%nat); try lia; [| exact Hparse].
        exact (parse_body_continue_wf _ _ _ _ _ _ Hwf E).
      * rewrite length_app. lia.
      * now apply parse_body_extend.
    + rewrite (parse_from_return _ _ _ _ _ Hin E) in Hparse.
      destruct (parse_body_return _ _ _ _ _ _ Hlen E) as [Hr _]. congruence.
    + unfold parse_from in Hparse. simpl in Hparse.
      rewrite decide_True, E in Hparse by exact Hin. discriminate.
    + unfold parse_from in Hparse. simpl in Hparse.
      rewrite decide_True, E in Hparse by exact Hin. discriminate.
    + unfold parse_from in Hparse. simpl in Hparse.
      rewrite decide_True, E in Hparse by exact Hin. discriminate.
  - rewrite parse_from_done in Hparse by lia. injection Hparse as <-.
    replace offset with (length pre) by lia. reflexivity.
Qed.

(** After a buffer that parses, the parser is at its end with the message
    parsed from it. *)
Lemma message_parse_extend (malloc_ok : nat -> bool) (m0 m : message_t)
    (pre post : list byte) :
  message_parse malloc_ok m0 pre = Ret (MESSAGE_SUCCESS, m) ->
  wf_message m
  /\ message_parse malloc_ok m0 (pre ++ post)
     = parse_from malloc_ok (pre ++ post) (length pre) m.
Proof.
  rewrite !message_parse_from. intros Hparse. split.
  - destruct (parse_from_outcome malloc_ok pre 0 empty_message (wf_message_init m0))
      as [(r & m' & E & Hwf & _) | E]; rewrite E in Hparse; [| discriminate].
    congruence.
  - apply parse_from_extend; [apply (wf_message_init m0) | lia | exact Hparse].
Qed.

(** ** Truncated input, and input past the capacity *)

Lemma message_parse_empty (malloc_ok : nat -> bool) (m0 : message_t) :
  message_parse malloc_ok m0 [] = Ret (MESSAGE_SUCCESS, empty_message).
Proof. reflexivity. Qed.

Lemma parse_from_too_many (malloc_ok : nat -> bool) (data : list byte)
    (offset : nat) (m : message_t) :
  length (msg_tlv m) = MAX_TLV_COUNT ->
  (MAX_TLV_COUNT <= msg_length m)%nat ->
  (offset < length data)%nat ->
  parse_from malloc_ok data offset m
  = Ret (MESSAGE_ERROR_TOO_MANY_TLVS, empty_message).
Proof.
  intros Hlen Hfull Hin. apply parse_from_return; [exact Hin |].
  rewrite parse_body_unfold by exact Hlen. now rewrite decide_True.
Qed.

Lemma parse_from_cut_header (malloc_ok : nat -> bool) (pre tail : list byte)
    (m : message_t) :
  length (msg_tlv m) = MAX_TLV_COUNT ->
  (msg_length m < MAX_TLV_COUNT)%nat ->
  (0 < length tail < 3)%nat ->
  parse_from malloc_ok (pre ++ tail) (length pre) m
  = Ret (MESSAGE_ERROR_PARSE_ERROR, empty_message).
Proof.
  intros Hlen Hroom Htail.
  apply parse_from_return; [rewrite length_app; lia |].
  rewrite parse_body_unfold by exact Hlen. rewrite decide_False by lia.
  destruct tail as [| type tail]; [simpl in Htail; lia |].
  rewrite (list_lookup_middle pre tail type (length pre) eq_refl).
  now rewrite decide_True by (rewrite length_app; lia).
Qed.

Lemma parse_from_cut_value (malloc_ok : nat -> bool) (pre rest : list byte)
    (type hi lo : byte) (m : message_t) :
  length (msg_tlv m) = MAX_TLV_COUNT ->
  (msg_length m < MAX_TLV_COUNT)%nat ->
  Z.of_nat (length rest) < be_decode [hi; lo] ->
  parse_from malloc_ok (pre ++ type :: hi :: lo :: rest) (length pre) m
  = Ret (MESSAGE_ERROR_PARSE_ERROR, empty_message).
Proof.
  intros Hlen Hroom Hcut.
  apply parse_from_return; [rewrite length_app; simpl; lia |].
  rewrite parse_body_unfold by exact Hlen. rewrite decide_False by lia.
  rewrite (list_lookup_middle pre _ type (length pre) eq_refl).
  rewrite decide_False by (rewrite length_app; simpl; lia).
  cbv zeta.
  assert (E : wire_length (pre ++ type :: hi :: lo :: rest) (length pre)
              = be_decode [hi; lo]).
  { unfold wire_length. now rewrite drop_app_add. }
  rewrite E. now rewrite decide_True by (rewrite length_app; simpl; lia).
Qed.

(** C7, as the parser has it. The empty buffer parses to the empty message.
    After a buffer that parses to fewer than [MAX_TLV_COUNT] records, one or
    two more bytes (a record cut off in its header), or a header followed by
    fewer bytes than the length it declares (a record cut off in its value),
    make the parser fail with [MESSAGE_ERROR_PARSE_ERROR] and leave the
    message empty. *)
Theorem message_parse_truncated (malloc_ok : nat -> bool) (m0 m : message_t)
    (pre : list byte) :
  message_parse malloc_ok m0 pre = Ret (MESSAGE_SUCCESS, m) ->
  (msg_length m < MAX_TLV_COUNT)%nat ->
  message_parse malloc_ok m0 [] = Ret (MESSAGE_SUCCESS, empty_message)
  /\ (forall tail,
        (0 < length tail < 3)%nat ->
        message_parse malloc_ok m0 (pre ++ tail)
        = Ret (MESSAGE_ERROR_PARSE_ERROR, empty_message))
  /\ (forall type hi lo rest,
        Z.of_nat (length rest) < be_decode [hi; lo] ->
        message_parse malloc_ok m0 (pre ++ type :: hi :: lo :: rest)
        = Ret (MESSAGE_ERROR_PARSE_ERROR, empty_message)).
Proof.
  intros Hparse Hroom. split; [reflexivity |].
  split.
  - intros tail Htail.
    destruct (message_parse_extend _ _ _ _ tail Hparse) as [(Hlen & _) ->].
    now apply parse_from_cut_header.
  - intros type hi lo rest Hcut.
    destruct (message_parse_extend _ _ _ _ (type :: hi :: lo :: rest) Hparse)
      as [(Hlen & _) ->].
    now apply parse_from_cut_value.
Qed.

(** ** The typed adders *)

Lemma be16_u16 (z : Z) : be16 (u16 z) = be16 z.
Proof. bytes_eq. Qed.

Lemma motor_position_bytes_network (x y z : Z) :
  motor_position_bytes {| motor_x := i32 (htonl host x);
                          motor_y := i32 (htonl host y);
                          motor_z := i32 (htonl host z) |}
  = be32 x ++ be32 y ++ be32 z.
Proof.
  unfold motor_position_bytes. simpl.
  now rewrite !store32_i32, !store32_htonl.
Qed.

Lemma message_tlv_add_success (malloc_ok : bool) (m m' : message_t) (type : byte)
    (len : Z) (value : list byte) :
  length (msg_tlv m) = MAX_TLV_COUNT ->
  message_tlv_add malloc_ok m type len value = Ret (MESSAGE_SUCCESS, m') ->
  m' = incr_length
         (store_slot (msg_length m)
            (mk_tlv type (u16 len) (Some (take (Z.to_nat (u16 len)) value))) m)
  /\ (msg_length m < MAX_TLV_COUNT)%nat
  /\ malloc_ok = true
  /\ wf_tlv (mk_tlv type (u16 len) (Some (take (Z.to_nat (u16 len)) value))).
Proof.
  intros Hlen. rewrite message_tlv_add_unfold by exact Hlen.
  destruct (decide (MAX_TLV_COUNT <= msg_length m)%nat); [discriminate |].
  destruct malloc_ok; simpl negb; cbv iota; [| discriminate].
  destruct (decide (length value < Z.to_nat (u16 len))%nat); [discriminate |].
  intros [= <-]. split; [reflexivity |]. split; [lia |].
  split; [reflexivity |]. now apply take_length_u16.
Qed.

(** A successful add appends the record it stands for. *)
Lemma run_add_success (malloc_ok : bool) (m m' : message_t) (call : add_call) :
  wf_message m ->
  run_add malloc_ok m call = Ret (MESSAGE_SUCCESS, m') ->
  m' = incr_length (store_slot (msg_length m) (appended_record m call) m)
  /\ (msg_length m < MAX_TLV_COUNT)%nat
  /\ malloc_ok = true
  /\ wf_tlv (appended_record m call).
Proof.
  intros (Hlen & Hcount & Hrs).
  destruct call as [type len value | c | r | p | c |];
    cbn [run_add appended_record].
  - apply message_tlv_add_success, Hlen.
  - unfold message_tlv_add_command. intros E.
    apply (message_tlv_add_success _ _ _ _ _ _ Hlen) in E. exact E.
  - unfold message_tlv_add_reply. intros E.
    apply (message_tlv_add_success _ _ _ _ _ _ Hlen) in E. exact E.
  - unfold message_tlv_add_motor_position.
    rewrite motor_position_bytes_network. intros E.
    apply (message_tlv_add_success _ _ _ _ _ _ Hlen) in E. exact E.
  - unfold message_tlv_add_current_reading.
    rewrite store16_htons, be16_u16. intros E.
    apply (message_tlv_add_success _ _ _ _ _ _ Hlen) in E. exact E.
  - unfold message_tlv_add_checksum.
    rewrite message_checksum_records by (auto; lia). cbn [exec_bind].
    rewrite store32_htonl. intros E.
    apply (message_tlv_add_success _ _ _ _ _ _ Hlen) in E. exact E.
Qed.

(** Whatever an add returns, it leaves a well-formed message. *)
Lemma run_add_wf (malloc_ok : bool) (m m' : message_t) (call : add_call)
    (r : message_result_t) :
  wf_message m ->
  run_add malloc_ok m call = Ret (r, m') ->
  wf_message m'.
Proof.
  intros Hwf. pose proof Hwf as (Hlen & Hcount & Hrs).
  destruct call as [type len value | c | r' | p | c |]; cbn [run_add];
    try (apply message_tlv_add_wf; exact Hwf).
  unfold message_tlv_add_checksum.
  rewrite message_checksum_records by (auto; lia). cbn [exec_bind].
  apply message_tlv_add_wf; exact Hwf.
Qed.

Lemma checksums_valid_snoc (before rs : list tlv_t) (t : tlv_t) :
  checksums_valid_from before rs ->
  (Z_of_byte (tlv_type t) = TLV_CHECKSUM ->
   value_of t = be32 (running_crc32 (before ++ rs))) ->
  checksums_valid_from before (rs ++ [t]).
Proof.
  revert before. induction rs as [| t' rs IH]; intros before Hrs Ht.
  - rewrite app_nil_r in Ht. simpl. auto.
  - destruct Hrs as [Ht' Hrs]. split; [exact Ht' |].
    apply IH; [exact Hrs |]. now rewrite <- app_assoc.
Qed.

Lemma appended_record_checksum (m : message_t) (call : add_call) :
  is_raw_checksum call = false ->
  Z_of_byte (tlv_type (appended_record m call)) = TLV_CHECKSUM ->
  value_of (appended_record m call) = be32 (running_crc32 (records m)).
Proof.
  destruct call as [type len value | c | r | p | c |]; cbn; try discriminate.
  - intros Hraw Hck. apply bool_decide_eq_false in Hraw. contradiction.
  - reflexivity.
Qed.

(** A message built by successful adds from the empty message: well formed,
    with nothing in the slots past its records, and, unless a raw add put a
    record of type [TLV_CHECKSUM] there, with valid checksum records. *)
Lemma run_adds_built (calls : list add_call) (m m' : message_t) :
  wf_message m ->
  m = append_records empty_message (records m) ->
  run_adds m calls = Some m' ->
  wf_message m'
  /\ m' = append_records empty_message (records m')
  /\ msg_length m' = (msg_length m + length calls)%nat
  /\ (checksums_valid m ->
      Forall (fun call => is_raw_checksum call = false) calls ->
      checksums_valid m').
Proof.
  revert m. induction calls as [| call calls IH]; intros m Hwf Hm Hrun.
  - injection Hrun as <-. simpl. rewrite Nat.add_0_r. auto.
  - cbn [run_adds] in Hrun.
    destruct (run_add true m call) as [[[] m1] | | |] eqn:E; try discriminate.
    destruct (run_add_success _ _ _ _ Hwf E) as (-> & Hroom & _ & Ht).
    pose proof (wf_message_append _ _ Hwf Hroom Ht) as Hwf1.
    assert (Hrec : records (incr_length (store_slot (msg_length m)
                                           (appended_record m call) m))
                   = records m ++ [appended_record m call]).
    { apply records_append. destruct Hwf as (-> & _). exact Hroom. }
    destruct (IH _ Hwf1) as (Hwf' & Hm' & Hn & Hck); [| exact Hrun |].
    + rewrite Hrec. unfold append_records. rewrite fold_left_app. simpl.
      fold (append_records empty_message (records m)). now rewrite <- Hm.
    + split; [exact Hwf' |]. split; [exact Hm' |].
      split; [rewrite Hn; simpl; lia |].
      intros Hvalid Hraw. apply Forall_cons in Hraw as [Hcall Hraw].
      apply Hck; [| exact Hraw]. unfold checksums_valid. rewrite Hrec.
      apply checksums_valid_snoc; [exact Hvalid |].
      now apply appended_record_checksum.
Qed.

(** ** Round trips *)

Lemma append_records_empty (rs : list tlv_t) :
  Forall wf_tlv rs ->
  (length rs <= MAX_TLV_COUNT)%nat ->
  wf_message (append_records empty_message rs)
  /\ msg_length (append_records empty_message rs) = length rs
  /\ records (append_records empty_message rs) = rs.
Proof.
  intros Hrs Hn.
  destruct (append_records_wf rs empty_message) as (Hwf & Hcount & Hrec); auto.
  apply (wf_message_init empty_message).
Qed.

(** Serialize, then parse: the records of a well-formed message whose
    checksum records are valid come back, in order. *)
Lemma message_roundtrip_wf (malloc_ok : nat -> bool) (m m0 : message_t)
    (buffer : list byte) :
  wf_message m ->
  checksums_valid m ->
  (forall i, (i < msg_length m)%nat -> malloc_ok i = true) ->
  (message_serialized_size m <= length buffer)%nat ->
  exists buffer' m',
    message_serialize buffer m
    = Ret (Z.of_nat (message_serialized_size m), buffer')
    /\ message_parse malloc_ok m0 (take (message_serialized_size m) buffer')
       = Ret (MESSAGE_SUCCESS, m')
    /\ m' = append_records empty_message (records m)
    /\ msg_length m' = msg_length m
    /\ records m' = records m.
Proof.
  intros Hwf Hck Hmalloc Hfit. pose proof Hwf as (Hlen & Hcount & Hrs).
  eexists. eexists. split; [now apply message_serialize_fits |].
  rewrite (message_serialized_size_wire _ Hwf), take_app_length.
  split; [| split; [reflexivity |]].
  - apply message_parse_wire; auto. now apply checksums_valid_accepted.
  - destruct (append_records_empty (records m)) as (_ & Hn & Hrec); auto.
    + now rewrite (wf_message_records_length _ Hwf).
    + rewrite Hn, (wf_message_records_length _ Hwf). auto.
Qed.

(** A message built without a raw add of a record of type [TLV_CHECKSUM] has
    valid checksum records: [message_tlv_add_checksum] stores the checksum of
    the records before it. *)
Lemma run_adds_checksums_valid (calls : list add_call) (m : message_t) :
  run_adds empty_message calls = Some m ->
  Forall (fun call => is_raw_checksum call = false) calls ->
  checksums_valid m.
Proof.
  intros Hrun Hraw.
  destruct (run_adds_built calls empty_message m) as (_ & _ & _ & Hck);
    [apply (wf_message_init m) | reflexivity | exact Hrun |].
  apply Hck; [exact I | exact Hraw].
Qed.

(** C2, as the codec has it. A message built from the empty message by
    successful adds, typed or raw, holds as many records as there were adds,
    at most [MAX_TLV_COUNT]. When each of its records of type [TLV_CHECKSUM]
    holds the checksum of the records before it, serializing the message into
    a buffer that is large enough and parsing the bytes written, with every
    allocation of the parser succeeding, gives the same message back: same
    record count, same records. *)
Theorem message_roundtrip (malloc_ok : nat -> bool) (calls : list add_call)
    (m m0 : message_t) (buffer : list byte) :
  run_adds empty_message calls = Some m ->
  checksums_valid m ->
  (forall i, (i < msg_length m)%nat -> malloc_ok i = true) ->
  (message_serialized_size m <= length buffer)%nat ->
  msg_length m = length calls
  /\ (length calls <= MAX_TLV_COUNT)%nat
  /\ exists buffer',
       message_serialize buffer m
       = Ret (Z.of_nat (message_serialized_size m), buffer')
       /\ message_parse malloc_ok m0 (take (message_serialized_size m) buffer')
          = Ret (MESSAGE_SUCCESS, m).
Proof.
  intros Hrun Hck Hmalloc Hfit.
  destruct (run_adds_built calls empty_message m) as (Hwf & Hm & Hn & _);
    [apply (wf_message_init m0) | reflexivity | exact Hrun |].
  simpl in Hn. split; [exact Hn |].
  split; [rewrite <- Hn; now destruct Hwf as (_ & ? & _) |].
  destruct (message_roundtrip_wf malloc_ok m m0 buffer Hwf)
    as (buffer' & m' & Hser & Hparse & Hm' & _); auto.
  exists buffer'. split; [exact Hser |]. now rewrite Hparse, Hm', <- Hm.
Qed.

(** ** The record count *)

(** C3, as the codec has it. The record count never leaves
    [0 .. MAX_TLV_COUNT]: [message_init] sets it to 0; every add, raw or
    typed, and every run of the parser, whatever they return, leave it at
    most [MAX_TLV_COUNT] ([message_tlv_get] and [message_serialize] take the
    message read-only). On a message that holds [MAX_TLV_COUNT] records
    [message_tlv_add] returns [MESSAGE_ERROR_TOO_MANY_TLVS] and leaves the
    message as it is. When the parser has read [MAX_TLV_COUNT] records and
    bytes remain, it returns [MESSAGE_ERROR_TOO_MANY_TLVS]. A message of
    exactly [MAX_TLV_COUNT] records whose checksum records are valid
    serializes, and parses back to the same records when every allocation of
    the parser succeeds. *)
Theorem record_count_bounded (m : message_t) :
  wf_message m ->
  msg_length (snd (message_init m)) = 0%nat
  /\ (forall malloc_ok call r m',
        run_add malloc_ok m call = Ret (r, m') ->
        (msg_length m' <= MAX_TLV_COUNT)%nat)
  /\ (forall malloc_ok m0 data r m',
        message_parse malloc_ok m0 data = Ret (r, m') ->
        (msg_length m' <= MAX_TLV_COUNT)%nat)
  /\ (msg_length m = MAX_TLV_COUNT ->
      forall malloc_ok type len value,
        message_tlv_add malloc_ok m type len value
        = Ret (MESSAGE_ERROR_TOO_MANY_TLVS, m))
  /\ (msg_length m = MAX_TLV_COUNT ->
      forall malloc_ok m0 pre post,
        message_parse malloc_ok m0 pre = Ret (MESSAGE_SUCCESS, m) ->
        post <> [] ->
        message_parse malloc_ok m0 (pre ++ post)
        = Ret (MESSAGE_ERROR_TOO_MANY_TLVS, empty_message))
  /\ (msg_length m = MAX_TLV_COUNT ->
      checksums_valid m ->
      forall m0 buffer,
        (message_serialized_size m <= length buffer)%nat ->
        exists buffer' m',
          message_serialize buffer m
          = Ret (Z.of_nat (message_serialized_size m), buffer')
          /\ message_parse (fun _ => true) m0
               (take (message_serialized_size m) buffer')
             = Ret (MESSAGE_SUCCESS, m')
          /\ msg_length m' = MAX_TLV_COUNT
          /\ records m' = records m).
Proof.
  intros Hwf. pose proof Hwf as (Hlen & Hcount & Hrs).
  split; [reflexivity |]. split; [| split; [| split; [| split]]].
  - intros malloc_ok call r m' E.
    now destruct (run_add_wf _ _ _ _ _ Hwf E) as (_ & ? & _).
  - intros malloc_ok m0 data r m' E. rewrite message_parse_from in E.
    destruct (parse_from_outcome malloc_ok data 0 empty_message
                (wf_message_init m0)) as [(r1 & m1 & E1 & Hwf1 & _) | E1];
      rewrite E1 in E; [| discriminate].
    injection E as <- <-. now destruct Hwf1 as (_ & ? & _).
  - intros Hfull malloc_ok type len value.
    rewrite message_tlv_add_unfold by exact Hlen.
    now rewrite decide_True by lia.
  - intros Hfull malloc_ok m0 pre post Hparse Hpost.
    destruct (message_parse_extend _ _ _ _ post Hparse) as [_ ->].
    apply parse_from_too_many; [exact Hlen | lia |].
    rewrite length_app. destruct post; [congruence | simpl; lia].
  - intros Hfull Hck m0 buffer Hfit.
    destruct (message_roundtrip_wf (fun _ => true) m m0 buffer Hwf Hck)
      as (buffer' & m' & Hser & Hparse & _ & Hn & Hrec); auto.
    exists buffer', m'. rewrite Hn. auto.
Qed.

(** ** The checksum record *)

Lemma message_tlv_add_checksum_unfold (malloc_ok : bool) (m : message_t) :
  wf_message m ->
  message_tlv_add_checksum malloc_ok m
  = message_tlv_add malloc_ok m (byte_of_Z TLV_CHECKSUM) 4
      (be32 (running_crc32 (records m))).
Proof.
  intros (Hlen & Hcount & Hrs). unfold message_tlv_add_checksum.
  rewrite message_checksum_records by (auto; lia). cbn [exec_bind].
  now rewrite store32_htonl.
Qed.

(** C8. [message_checksum] is the running CRC32, from 0, over the values of
    the records in order, converted by [htonl]: in memory, its big-endian
    encoding. Types and lengths do not enter: messages with the same values
    have the same checksum. [message_tlv_add_checksum] is an add of a record
    of type [TLV_CHECKSUM] and length 4 holding that encoding for the records
    present at the call; it succeeds when there is room and memory; and an
    add after it leaves the record as it is. *)
Theorem message_checksum_spec (m : message_t) :
  wf_message m ->
  message_checksum m = Ret (htonl host (running_crc32 (records m)))
  /\ store32 host (htonl host (running_crc32 (records m)))
     = be32 (running_crc32 (records m))
  /\ (forall m2,
        wf_message m2 ->
        value_of <$> records m2 = value_of <$> records m ->
        message_checksum m2 = message_checksum m)
  /\ (forall malloc_ok r m',
        message_tlv_add_checksum malloc_ok m = Ret (r, m') ->
        match r with
        | MESSAGE_SUCCESS =>
            msg_length m' = S (msg_length m)
            /\ records m'
               = records m
                 ++ [mk_tlv (byte_of_Z TLV_CHECKSUM) 4
                       (Some (be32 (running_crc32 (records m))))]
        | MESSAGE_ERROR_TOO_MANY_TLVS | MESSAGE_ERROR_OUT_OF_MEMORY =>
            msg_length m' = msg_length m /\ records m' = records m
        | _ => False
        end)
  /\ ((msg_length m < MAX_TLV_COUNT)%nat ->
      exists m', message_tlv_add_checksum true m = Ret (MESSAGE_SUCCESS, m'))
  /\ (forall malloc_ok m' malloc_ok' type len value r m'',
        message_tlv_add_checksum malloc_ok m = Ret (MESSAGE_SUCCESS, m') ->
        message_tlv_add malloc_ok' m' type len value = Ret (r, m'') ->
        records m'' !! msg_length m
        = Some (mk_tlv (byte_of_Z TLV_CHECKSUM) 4
                  (Some (be32 (running_crc32 (records m)))))).
Proof.
  intros Hwf. pose proof Hwf as (Hlen & Hcount & Hrs).
  assert (Hadd : forall malloc_ok r m',
    message_tlv_add_checksum malloc_ok m = Ret (r, m') ->
    match r with
    | MESSAGE_SUCCESS =>
        msg_length m' = S (msg_length m)
        /\ records m'
           = records m
             ++ [mk_tlv (byte_of_Z TLV_CHECKSUM) 4
                   (Some (be32 (running_crc32 (records m))))]
    | MESSAGE_ERROR_TOO_MANY_TLVS | MESSAGE_ERROR_OUT_OF_MEMORY =>
        msg_length m' = msg_length m /\ records m' = records m
    | _ => False
    end).
  { intros malloc_ok r m'.
    rewrite (message_tlv_add_checksum_unfold _ _ Hwf). intros E.
    exact (message_tlv_add_records _ _ _ _ _ _ _ Hlen E). }
  split; [apply message_checksum_records; auto; lia |].
  split; [apply store32_htonl |].
  split; [| split; [exact Hadd | split]].
  - intros m2 (Hlen2 & Hcount2 & Hrs2) Hvalues.
    rewrite !message_checksum_records by (auto; lia).
    now rewrite (running_crc32_values _ _ Hvalues).
  - intros Hroom. rewrite (message_tlv_add_checksum_unfold _ _ Hwf).
    rewrite message_tlv_add_unfold by exact Hlen.
    rewrite decide_False by lia. simpl negb. cbv iota.
    change (Z.to_nat (u16 4)) with 4%nat.
    rewrite decide_False by (unfold be32; simpl; lia). now eexists.
  - intros malloc_ok m' malloc_ok' type len value r m'' E E'.
    pose proof (Hadd _ _ _ E) as [Hn Hrec]. cbv beta iota in Hrec.
    assert (Hwf' : wf_message m').
    { rewrite (message_tlv_add_checksum_unfold _ _ Hwf) in E.
      exact (message_tlv_add_wf _ _ _ _ _ _ _ Hwf E). }
    pose proof (message_tlv_add_records _ _ _ _ _ _ _ (proj1 Hwf') E') as Hspec.
    assert (Hlook : records m' !! msg_length m
                    = Some (mk_tlv (byte_of_Z TLV_CHECKSUM) 4
                              (Some (be32 (running_crc32 (records m)))))).
    { rewrite Hrec. rewrite lookup_app_r
        by (rewrite (wf_message_records_length _ Hwf); lia).
      now rewrite (wf_message_records_length _ Hwf), Nat.sub_diag. }
    destruct r; try contradiction; destruct Hspec as [_ ->]; try exact Hlook.
    now apply lookup_app_l_Some.
Qed.

(** ** The motor position *)

Lemma first_of_type_last (type : byte) (rs : list tlv_t) (t : tlv_t) :
  Forall (fun t' => tlv_type t' <> type) rs ->
  tlv_type t = type ->
  first_of_type type (rs ++ [t]) = Some (length rs, t).
Proof.
  intros Hrs Ht. apply list_find_Some. split; [| split; [exact Ht |]].
  - rewrite lookup_app_r by lia. now rewrite Nat.sub_diag.
  - intros j t' Hj Hlt. rewrite lookup_app_l in Hj by exact Hlt.
    rewrite Forall_lookup in Hrs. exact (Hrs j t' Hj).
Qed.

Lemma int32_of_network (x : Z) :
  is_int32 x -> i32 (ntohl host (i32 (load host (be32 x)))) = x.
Proof.
  intros Hx. unfold ntohl.
  assert (E : htonl host (i32 (load host (be32 x))) = htonl host (load host (be32 x))).
  { unfold htonl. now rewrite u32_i32. }
  rewrite E. unfold be32. fold ntohl. rewrite ntohl_load.
  fold (be32 x). rewrite be_decode_be32. now apply i32_u32.
Qed.

(** C9. Into a message with room and with no record of type
    [TLV_MOTOR_POSITION], [message_tlv_add_motor_position] appends a record
    of 12 bytes, the big-endian encodings of [x], [y] and [z] in that order,
    and [message_tlv_get_motor_position] on the result returns the triple
    that was added. The encoding of -1 is FF FF FF FF. *)
Theorem motor_position_roundtrip (m : message_t)
    (position destination : tlv_motor_position_t) :
  wf_message m ->
  (msg_length m < MAX_TLV_COUNT)%nat ->
  Forall (fun t => tlv_type t <> byte_of_Z TLV_MOTOR_POSITION) (records m) ->
  is_int32 (motor_x position) ->
  is_int32 (motor_y position) ->
  is_int32 (motor_z position) ->
  exists m',
    message_tlv_add_motor_position true m position = Ret (MESSAGE_SUCCESS, m')
    /\ records m'
       = records m
         ++ [mk_tlv (byte_of_Z TLV_MOTOR_POSITION) 12
               (Some (be32 (motor_x position) ++ be32 (motor_y position)
                      ++ be32 (motor_z position)))]
    /\ message_tlv_get_motor_position m' destination
       = Ret (MESSAGE_SUCCESS, position)
    /\ be32 (-1) = [xff; xff; xff; xff].
Proof.
  intros Hwf Hroom Hnone Hx Hy Hz. pose proof Hwf as (Hlen & Hcount & Hrs).
  destruct position as [x y z]. simpl in Hx, Hy, Hz.
  set (t := mk_tlv (byte_of_Z TLV_MOTOR_POSITION) 12
              (Some (be32 x ++ be32 y ++ be32 z))).
  assert (Hadd : message_tlv_add_motor_position true m
                   {| motor_x := x; motor_y := y; motor_z := z |}
                 = Ret (MESSAGE_SUCCESS,
                        incr_length (store_slot (msg_length m) t m))).
  { unfold message_tlv_add_motor_position. cbn [motor_x motor_y motor_z].
    rewrite motor_position_bytes_network.
    rewrite message_tlv_add_unfold by exact Hlen.
    rewrite decide_False by lia. simpl negb. cbv iota.
    change (Z.to_nat (u16 (Z.of_nat sizeof_tlv_motor_position_t))) with 12%nat.
    rewrite decide_False by (unfold be32; simpl; lia). reflexivity. }
  exists (incr_length (store_slot (msg_length m) t m)).
  split; [exact Hadd |].
  assert (Hrec : records (incr_length (store_slot (msg_length m) t m))
                 = records m ++ [t]) by (apply records_append; lia).
  split; [exact Hrec |]. split; [| reflexivity].
  assert (Ht : wf_tlv t) by (unfold wf_tlv, t, be32; simpl; lia).
  unfold message_tlv_get_motor_position.
  rewrite message_tlv_get_first by (apply wf_message_append; auto).
  rewrite Hrec, (first_of_type_last _ _ t Hnone eq_refl).
  assert (Hdst : length (motor_position_bytes destination) = 12%nat).
  { unfold motor_position_bytes. rewrite !length_app, !store32_length. lia. }
  rewrite decide_True by (rewrite Hdst; simpl; lia).
  cbn [exec_bind]. rewrite decide_False by congruence.
  rewrite drop_ge by (rewrite Hdst; unfold be32; simpl; lia).
  rewrite app_nil_r. do 2 f_equal.
  change (value_of t) with (be32 x ++ be32 y ++ be32 z).
  unfold motor_position_of_bytes. cbn [motor_x motor_y motor_z].
  change (take 4 (be32 x ++ be32 y ++ be32 z)) with (be32 x).
  change (take 4 (drop 4 (be32 x ++ be32 y ++ be32 z))) with (be32 y).
  change (take 4 (drop 8 (be32 x ++ be32 y ++ be32 z))) with (be32 z).
  now rewrite !int32_of_network.
Qed.

(** ** The assertion of [message_tlv_get] *)

(** The parser puts no bound on the length of a command record other than
    the 16 bits of the length field: for every [n] below 65536 a command
    record of [n] bytes parses. *)
Lemma message_parse_any_command_length (malloc_ok : nat -> bool)
    (m0 : message_t) (n : nat) :
  malloc_ok 0%nat = true ->
  Z.of_nat n < 65536 ->
  exists m,
    message_parse malloc_ok m0
      (wire_record (mk_tlv (byte_of_Z TLV_COMMAND) (Z.of_nat n)
                      (Some (replicate n x00))))
    = Ret (MESSAGE_SUCCESS, m)
    /\ first_of_type (byte_of_Z TLV_COMMAND) (records m)
       = Some (0%nat, mk_tlv (byte_of_Z TLV_COMMAND) (Z.of_nat n)
                        (Some (replicate n x00))).
Proof.
  intros Hmalloc Hn.
  set (t := mk_tlv (byte_of_Z TLV_COMMAND) (Z.of_nat n) (Some (replicate n x00))).
  assert (Ht : wf_tlv t).
  { unfold wf_tlv, t. simpl. rewrite length_replicate. lia. }
  destruct (append_records_empty [t]) as (Hwf & Hcount & Hrec);
    [constructor; [exact Ht | constructor]
    | simpl; unfold MAX_TLV_COUNT; lia |].
  exists (append_records empty_message [t]). split.
  - pose proof (message_parse_wire malloc_ok m0 (append_records empty_message [t])
                  Hwf) as E.
    rewrite Hrec in E. simpl wire_format in E. rewrite app_nil_r in E.
    apply E.
    + intros i Hi. rewrite Hcount in Hi. simpl in Hi.
      replace i with 0%nat by lia. exact Hmalloc.
    + split; [| exact I]. intros Hck. vm_compute in Hck. discriminate.
  - rewrite Hrec. apply list_find_Some.
    split; [reflexivity |]. split; [reflexivity |]. intros j t' _ Hj. lia.
Qed.

(** C10. When the first record of the requested type is longer than the
    destination, [message_tlv_get] fails its assertion; otherwise it copies
    exactly the record's [length] bytes and leaves the rest of the
    destination alone. The parser accepts records of any length: on a message
    parsed from the wire whose first command record is longer than one byte,
    [message_tlv_get_command] fails the assertion, it returns no error code. *)
Theorem message_tlv_get_asserts (malloc_ok : nat -> bool) (m0 m : message_t)
    (data : list byte) (type : byte) (i : nat) (t : tlv_t) :
  message_parse malloc_ok m0 data = Ret (MESSAGE_SUCCESS, m) ->
  first_of_type type (records m) = Some (i, t) ->
  (forall destination,
     (Z.of_nat (length destination) < tlv_length t ->
      message_tlv_get m type destination = AssertFailed)
     /\ (tlv_length t <= Z.of_nat (length destination) ->
         message_tlv_get m type destination
         = Ret (MESSAGE_SUCCESS,
                value_of t ++ drop (Z.to_nat (tlv_length t)) destination)))
  /\ (type = byte_of_Z TLV_COMMAND ->
      1 < tlv_length t ->
      forall command _command,
        message_tlv_get_command m command _command = AssertFailed).
Proof.
  intros Hparse Hfirst.
  destruct (message_parse_extend _ _ _ _ [] Hparse) as [Hwf _].
  assert (Ht : wf_tlv t).
  { apply list_find_Some in Hfirst as (Hi & _).
    destruct Hwf as (_ & _ & Hrs). rewrite Forall_lookup in Hrs.
    exact (Hrs i t Hi). }
  assert (Hn : Z.to_nat (tlv_length t) = length (value_of t)).
  { unfold wf_tlv, value_of in *. destruct (tlv_value t); simpl; [lia | tauto]. }
  split.
  - intros destination. rewrite (message_tlv_get_first _ _ _ Hwf), Hfirst.
    split; intros Hsize.
    + now rewrite decide_False by lia.
    + rewrite decide_True by lia. now rewrite Hn.
  - intros -> Hlong command _command. unfold message_tlv_get_command.
    rewrite (message_tlv_get_first _ _ _ Hwf), Hfirst.
    now rewrite decide_False by (simpl; lia).
Qed.

(** ** The checksum verification of the parser *)

(** The pass of the parser over a record of type [TLV_CHECKSUM]: the checksum
    of the records appended so far is computed, and a single byte of it
    ([sizeof(uint32_t) != 0] is 1) is compared with the value just read. *)
Lemma parse_body_checksum (malloc_ok : nat -> bool) (pre post : list byte)
    (t : tlv_t) (m : message_t) :
  wf_message m ->
  (msg_length m < MAX_TLV_COUNT)%nat ->
  wf_tlv t ->
  malloc_ok (msg_length m) = true ->
  Z_of_byte (tlv_type t) = TLV_CHECKSUM ->
  parse_body malloc_ok (pre ++ wire_record t ++ post) (length pre) m
  = (do differ <- memcmp_differ (be32 (running_crc32 (records m))) (value_of t) 1;
     if differ
     then Ret (Return (MESSAGE_ERROR_CHECKSUM_MISMATCH, empty_message))
     else Ret (Continue ((length pre + length (wire_record t))%nat,
                         incr_length (store_slot (msg_length m) t m)))).
Proof.
  intros (Hlen & Hcount & Hrs) Hroom Ht Hmalloc Hck.
  rewrite parse_body_unfold by exact Hlen.
  rewrite decide_False by lia.
  assert (Hty : (pre ++ wire_record t ++ post) !! length pre = Some (tlv_type t)).
  { rewrite lookup_app_r by lia. now rewrite Nat.sub_diag. }
  rewrite Hty.
  pose proof (wire_record_length _ Ht) as Hsize.
  rewrite decide_False by (rewrite !length_app; lia).
  cbv zeta. rewrite (wire_length_record _ _ _ Ht), (wire_tlv_record _ _ _ Ht).
  rewrite decide_False by (rewrite !length_app; lia).
  rewrite Hmalloc. simpl negb. cbv iota.
  replace (length pre + 3 + Z.to_nat (tlv_length t))%nat
    with (length pre + length (wire_record t))%nat by lia.
  rewrite decide_True by exact Hck.
  rewrite message_checksum_records
    by (rewrite ?store_slot_length, ?records_store_dead; simpl; auto; lia).
  cbn [exec_bind]. rewrite records_store_dead, store32_htonl.
  assert (Hval : take (Z.to_nat (tlv_length t))
                   (drop (length pre + 3) (pre ++ wire_record t ++ post))
                 = value_of t).
  { pose proof (wire_tlv_record pre post t Ht) as E. unfold wire_tlv in E.
    rewrite (wire_length_record _ _ _ Ht) in E.
    unfold value_of. rewrite <- E at 3. reflexivity. }
  now rewrite Hval.
Qed.

(** C1, as the code has it. After a buffer that parses to a message [m] of
    fewer than [MAX_TLV_COUNT] records, a record of type [TLV_CHECKSUM] is
    checked against the checksum of the records of [m], the record itself
    excluded, in its first byte only: the parser fails with
    [MESSAGE_ERROR_CHECKSUM_MISMATCH] when the first byte of the value differs
    from the most significant byte of the checksum, and accepts the record,
    whatever its other bytes and its length, when the first byte agrees. An
    empty value makes the comparison read past the block. *)
Theorem message_parse_checksum_first_byte (malloc_ok : nat -> bool)
    (m0 m : message_t) (pre value : list byte) :
  message_parse malloc_ok m0 pre = Ret (MESSAGE_SUCCESS, m) ->
  (msg_length m < MAX_TLV_COUNT)%nat ->
  malloc_ok (msg_length m) = true ->
  Z.of_nat (length value) < 65536 ->
  message_parse malloc_ok m0
    (pre ++ wire_record (mk_tlv (byte_of_Z TLV_CHECKSUM)
                           (Z.of_nat (length value)) (Some value)))
  = match value with
    | [] => Undefined
    | b :: _ =>
        if decide (b = byte_at 3 (running_crc32 (records m)))
        then Ret (MESSAGE_SUCCESS,
                  incr_length
                    (store_slot (msg_length m)
                       (mk_tlv (byte_of_Z TLV_CHECKSUM)
                          (Z.of_nat (length value)) (Some value)) m))
        else Ret (MESSAGE_ERROR_CHECKSUM_MISMATCH, empty_message)
    end.
Proof.
  intros Hparse Hroom Hmalloc Hsize.
  set (t := mk_tlv (byte_of_Z TLV_CHECKSUM) (Z.of_nat (length value)) (Some value)).
  destruct (message_parse_extend _ _ _ _ (wire_record t) Hparse) as [Hwf ->].
  assert (Ht : wf_tlv t) by (unfold wf_tlv, t; simpl; lia).
  pose proof (parse_body_checksum malloc_ok pre [] t m Hwf Hroom Ht Hmalloc eq_refl)
    as Hbody.
  rewrite app_nil_r in Hbody.
  change (value_of t) with value in Hbody.
  assert (Hin : (length pre < length (pre ++ wire_record t))%nat).
  { rewrite length_app. pose proof (wire_record_nonempty t). lia. }
  unfold memcmp_differ in Hbody. destruct value as [| b rest].
  - rewrite decide_False in Hbody by (simpl; lia). cbn [exec_bind] in Hbody.
    unfold parse_from. simpl parse_loop. rewrite decide_True by exact Hin.
    now rewrite Hbody.
  - rewrite decide_True in Hbody by (simpl; lia). cbn [exec_bind] in Hbody.
    change (take 1 (be32 (running_crc32 (records m))))
      with [byte_at 3 (running_crc32 (records m))] in Hbody.
    change (take 1 (b :: rest)) with [b] in Hbody.
    destruct (decide (b = byte_at 3 (running_crc32 (records m)))) as [-> | Hne].
    + rewrite bool_decide_false in Hbody by congruence.
      rewrite (parse_from_continue _ _ _ _ _ _ (proj1 Hwf) Hin Hbody).
      apply parse_from_done. rewrite length_app. lia.
    + rewrite bool_decide_true in Hbody by congruence.
      exact (parse_from_return _ _ _ _ _ Hin Hbody).
Qed.

End codec_properties.

(** * The codec on concrete inputs

    Instances of the theorems above, and the inputs on which the code departs
    from a reading of the specification. Where a platform is needed it is
    [little_endian_host]. *)

(** Decides a closed instance of a decidable proposition by evaluation. *)
Ltac by_evaluation := refine (bool_decide_unpack _ _); vm_compute; exact I.

(** The check value of the CRC-32: the bytes of "123456789". *)
Example crc32_ieee_check :
  crc32_ieee 0 [x31; x32; x33; x34; x35; x36; x37; x38; x39] = 3421780262.
Proof. reflexivity. Qed.

Example move_motor_built :
  run_adds (H := little_endian_host) empty_message move_motor_calls
  = Some move_motor_message.
Proof. vm_compute. reflexivity. Qed.

Example move_motor_well_formed : wf_message move_motor_message.
Proof. by_evaluation. Qed.

(** C5 on inputs: of two command records the first is returned; a reply
    record is not found. *)
Example two_commands_well_formed : wf_message two_commands.
Proof. by_evaluation. Qed.

Lemma message_tlv_get_first_match_witness :
  message_tlv_get two_commands x01 [x00] = Ret (MESSAGE_SUCCESS, [x02])
  /\ message_tlv_get two_commands x02 [x00]
     = Ret (MESSAGE_ERROR_TLV_NOT_FOUND, [x00]).
Proof.
  split.
  - apply (proj1 (message_tlv_get_first_match two_commands x01 [x00]
                    two_commands_well_formed) 0%nat (mk_tlv x01 1 (Some [x02])));
      [reflexivity | reflexivity | intros j t' Hj; lia | simpl; lia].
  - destruct (proj2 (proj2 (message_tlv_get_first_match two_commands x02 [x00]
                              two_commands_well_formed))) as [out Hout].
    + by_evaluation.
    + rewrite Hout. vm_compute in Hout. now injection Hout as <-.
Defined.

(** C6 on inputs: the move-motor message takes 26 bytes; a buffer of 28
    receives them and keeps its last two bytes, a buffer of 25 is too small. *)
Lemma message_serialize_spec_witness :
  message_serialized_size move_motor_message = 26%nat
  /\ message_serialize (H := little_endian_host) (replicate 28 xee)
       move_motor_message
     = Ret (26, move_motor_wire ++ [xee; xee])
  /\ exists buffer',
       message_serialize (H := little_endian_host) (replicate 25 xee)
         move_motor_message
       = Ret (-3, buffer').
Proof.
  pose proof (message_serialize_spec (H := little_endian_host)
                move_motor_message (replicate 28 xee) move_motor_well_formed)
    as (Hsize & Hfits & _).
  pose proof (message_serialize_spec (H := little_endian_host)
                move_motor_message (replicate 25 xee) move_motor_well_formed)
    as (_ & _ & Hshort).
  split; [exact Hsize |]. split.
  - rewrite Hfits by (vm_compute; lia). reflexivity.
  - apply Hshort. vm_compute. lia.
Defined.

(** C8 on inputs: the checksum of the command record and the motor position
    record is the CRC-32 of their thirteen value bytes, 0729499E. *)
Lemma message_checksum_spec_witness :
  store32 (host (Platform := little_endian_host)) 2655594759 = [x07; x29; x49; x9e]
  /\ message_checksum (H := little_endian_host)
       (append_records empty_message
          [mk_tlv x01 1 (Some [x02]);
           mk_tlv x04 12
             (Some [xff; xff; xff; xff; x00; x0f; x42; x40; x00; x00; x00; x00])])
     = Ret 2655594759
  /\ message_tlv_add_checksum (H := little_endian_host) true
       (append_records empty_message
          [mk_tlv x01 1 (Some [x02]);
           mk_tlv x04 12
             (Some [xff; xff; xff; xff; x00; x0f; x42; x40; x00; x00; x00; x00])])
     = Ret (MESSAGE_SUCCESS, move_motor_message).
Proof.
  assert (Hwf : wf_message
                  (append_records empty_message
                     [mk_tlv x01 1 (Some [x02]);
                      mk_tlv x04 12
                        (Some [xff; xff; xff; xff; x00; x0f; x42; x40;
                               x00; x00; x00; x00])])) by by_evaluation.
  pose proof (message_checksum_spec (H := little_endian_host) _ Hwf)
    as (Hsum & Hbytes & _ & _ & Hadd & _).
  split; [exact Hbytes |]. split; [exact Hsum |].
  destruct Hadd as [m' Hm']; [vm_compute; lia |].
  rewrite Hm'. vm_compute in Hm'. now injection Hm' as <-.
Defined.

(** C9 on inputs: the triple (-1, 1000000, 0), on either host. *)
Lemma motor_position_roundtrip_witness :
  (exists m',
     message_tlv_add_motor_position (H := little_endian_host) true empty_message
       {| motor_x := -1; motor_y := 1000000; motor_z := 0 |}
     = Ret (MESSAGE_SUCCESS, m')
     /\ records m'
        = [mk_tlv x04 12
             (Some [xff; xff; xff; xff; x00; x0f; x42; x40; x00; x00; x00; x00])]
     /\ message_tlv_get_motor_position (H := little_endian_host) m'
          {| motor_x := 7; motor_y := 8; motor_z := 9 |}
        = Ret (MESSAGE_SUCCESS,
               {| motor_x := -1; motor_y := 1000000; motor_z := 0 |}))
  /\ (exists m',
        message_tlv_add_motor_position (H := big_endian_host) true empty_message
          {| motor_x := -1; motor_y := 1000000; motor_z := 0 |}
        = Ret (MESSAGE_SUCCESS, m')
        /\ message_tlv_get_motor_position (H := big_endian_host) m'
             {| motor_x := 7; motor_y := 8; motor_z := 9 |}
           = Ret (MESSAGE_SUCCESS,
                  {| motor_x := -1; motor_y := 1000000; motor_z := 0 |})).
Proof.
  assert (Hwf : wf_message empty_message) by by_evaluation.
  split.
  - destruct (motor_position_roundtrip (H := little_endian_host) empty_message
                {| motor_x := -1; motor_y := 1000000; motor_z := 0 |}
                {| motor_x := 7; motor_y := 8; motor_z := 9 |} Hwf)
      as (m' & Hadd & Hrec & Hget & _);
      try (unfold is_int32; simpl; lia); [vm_compute; lia | constructor |].
    exists m'. auto.
  - destruct (motor_position_roundtrip (H := big_endian_host) empty_message
                {| motor_x := -1; motor_y := 1000000; motor_z := 0 |}
                {| motor_x := 7; motor_y := 8; motor_z := 9 |} Hwf)
      as (m' & Hadd & Hrec & Hget & _);
      try (unfold is_int32; simpl; lia); [vm_compute; lia | constructor |].
    exists m'. auto.
Defined.

(** C10 on inputs: the wire bytes 01 00 02 AA BB, a command record of
    length 2, parse; the typed getter then fails the assertion. *)
Lemma message_tlv_get_asserts_witness :
  message_parse (H := little_endian_host) (fun _ => true) empty_message
    [x01; x00; x02; xaa; xbb]
  = Ret (MESSAGE_SUCCESS,
         append_records empty_message [mk_tlv x01 2 (Some [xaa; xbb])])
  /\ message_tlv_get_command (H := little_endian_host)
       (append_records empty_message [mk_tlv x01 2 (Some [xaa; xbb])])
       COMMAND_GET_STATUS x00
     = AssertFailed
  /\ message_tlv_get
       (append_records empty_message [mk_tlv x01 2 (Some [xaa; xbb])])
       x01 [x00; x00; x00]
     = Ret (MESSAGE_SUCCESS, [xaa; xbb; x00]).
Proof.
  assert (Hparse : message_parse (H := little_endian_host) (fun _ => true)
                     empty_message [x01; x00; x02; xaa; xbb]
                   = Ret (MESSAGE_SUCCESS,
                          append_records empty_message
                            [mk_tlv x01 2 (Some [xaa; xbb])]))
    by (vm_compute; reflexivity).
  destruct (message_tlv_get_asserts (H := little_endian_host) (fun _ => true)
              empty_message _ _ x01 0%nat (mk_tlv x01 2 (Some [xaa; xbb])) Hparse
              eq_refl) as [Hget Hcommand].
  split; [exact Hparse |]. split.
  - apply Hcommand; [reflexivity | simpl; lia].
  - apply (proj2 (Hget [x00; x00; x00])). simpl. lia.
Defined.

(** C1 on inputs: a message that is one checksum record. The checksum of no
    record is 0, on every platform; the value 00 FF FF FF agrees with it in
    its first byte only, and parses; 01 00 00 00 does not. *)
Lemma message_parse_checksum_first_byte_witness :
  message_parse (H := little_endian_host) (fun _ => true) empty_message
    [x03; x00; x04; x00; xff; xff; xff]
  = Ret (MESSAGE_SUCCESS,
         append_records empty_message [mk_tlv x03 4 (Some [x00; xff; xff; xff])])
  /\ message_parse (H := little_endian_host) (fun _ => true) empty_message
       [x03; x00; x04; x01; x00; x00; x00]
     = Ret (MESSAGE_ERROR_CHECKSUM_MISMATCH, empty_message).
Proof.
  split.
  - exact (message_parse_checksum_first_byte (H := little_endian_host)
             (fun _ => true) empty_message empty_message []
             [x00; xff; xff; xff] eq_refl ltac:(vm_compute; lia) eq_refl
             ltac:(simpl; lia)).
  - exact (message_parse_checksum_first_byte (H := little_endian_host)
             (fun _ => true) empty_message empty_message []
             [x01; x00; x00; x00] eq_refl ltac:(vm_compute; lia) eq_refl
             ltac:(simpl; lia)).
Defined.

(** The second half of C1 on inputs, with the CRC-32 of IEEE 802.3 for
    [crc32]: records A (a command) and B (a motor position) followed by their
    checksum 6F28F3C9. With the value of A changed from 02 to 41 the checksum
    of A and B is 6F6F0EAC: it differs, but not in its first byte, and the
    changed message parses. *)
Example message_parse_mutation_undetected :
  message_parse (H := little_endian_host) (fun _ => true) empty_message
    ([x01; x00; x01; x02]
     ++ [x04; x00; x0c; x00; x00; x00; x00; x00; x00; x00; x00; x00; x00; x00; x00]
     ++ [x03; x00; x04; x6f; x28; xf3; xc9])
  = Ret (MESSAGE_SUCCESS,
         append_records empty_message
           [mk_tlv x01 1 (Some [x02]);
            mk_tlv x04 12
              (Some [x00; x00; x00; x00; x00; x00; x00; x00; x00; x00; x00; x00]);
            mk_tlv x03 4 (Some [x6f; x28; xf3; xc9])])
  /\ running_crc32 (H := little_endian_host)
       [mk_tlv x01 1 (Some [x02]);
        mk_tlv x04 12
          (Some [x00; x00; x00; x00; x00; x00; x00; x00; x00; x00; x00; x00])]
     = 1864954825
  /\ running_crc32 (H := little_endian_host)
       [mk_tlv x01 1 (Some [x41]);
        mk_tlv x04 12
          (Some [x00; x00; x00; x00; x00; x00; x00; x00; x00; x00; x00; x00])]
     = 1869549228
  /\ message_parse (H := little_endian_host) (fun _ => true) empty_message
       ([x01; x00; x01; x41]
        ++ [x04; x00; x0c; x00; x00; x00; x00; x00; x00; x00; x00; x00; x00; x00; x00]
        ++ [x03; x00; x04; x6f; x28; xf3; xc9])
     = Ret (MESSAGE_SUCCESS,
            append_records empty_message
              [mk_tlv x01 1 (Some [x41]);
               mk_tlv x04 12
                 (Some [x00; x00; x00; x00; x00; x00; x00; x00; x00; x00; x00; x00]);
               mk_tlv x03 4 (Some [x6f; x28; xf3; xc9])]).
Proof. vm_compute. repeat split; reflexivity. Qed.

(** C2 on inputs: the move-motor message, built by typed adds, serialized
    into 32 bytes and parsed back into a message that held something else. *)
Lemma message_roundtrip_witness :
  message_serialize (H := little_endian_host) (replicate 32 x00) move_motor_message
  = Ret (26, move_motor_wire ++ replicate 6 x00)
  /\ message_parse (H := little_endian_host) (fun _ => true) two_commands
       move_motor_wire
     = Ret (MESSAGE_SUCCESS, move_motor_message).
Proof.
  destruct (message_roundtrip (H := little_endian_host) (fun _ => true)
              move_motor_calls move_motor_message two_commands
              (replicate 32 x00) move_motor_built)
    as (_ & _ & buffer' & Hser & Hparse).
  - apply (run_adds_checksums_valid (H := little_endian_host) move_motor_calls);
      [exact move_motor_built | repeat constructor].
  - reflexivity.
  - vm_compute. lia.
  - assert (E : buffer' = move_motor_wire ++ replicate 6 x00).
    { vm_compute in Hser. now injection Hser as <-. }
    subst buffer'. split; [exact Hser | exact Hparse].
Defined.

(** C2 as stated fails: a raw add of a record of type [TLV_CHECKSUM] whose
    value is not the checksum of the records before it succeeds, the message
    serializes, and the parser rejects the bytes. Here the record is the only
    one; the checksum of no record is 0 whatever [crc32] is, its first byte
    00, and the value is 01. *)
Lemma message_roundtrip_raw_checksum :
  run_adds (H := little_endian_host) empty_message [AddRaw x03 1 [x01]]
  = Some (append_records empty_message [mk_tlv x03 1 (Some [x01])])
  /\ message_serialize (H := little_endian_host) (replicate 4 x00)
       (append_records empty_message [mk_tlv x03 1 (Some [x01])])
     = Ret (4, [x03; x00; x01; x01])
  /\ message_parse (H := little_endian_host) (fun _ => true) empty_message
       [x03; x00; x01; x01]
     = Ret (MESSAGE_ERROR_CHECKSUM_MISMATCH, empty_message)
  /\ message_parse (H := big_endian_host) (fun _ => true) empty_message
       [x03; x00; x01; x01]
     = Ret (MESSAGE_ERROR_CHECKSUM_MISMATCH, empty_message).
Proof. vm_compute. repeat split; reflexivity. Qed.

Example full_message_well_formed : wf_message full_message.
Proof. by_evaluation. Qed.

Example full_message_parsed :
  message_parse (H := little_endian_host) (fun _ => true) empty_message full_wire
  = Ret (MESSAGE_SUCCESS, full_message).
Proof. vm_compute. reflexivity. Qed.

(** C3 on inputs: the message of 25 records refuses a 26th, serializes to 100
    bytes and parses back; one more byte on the wire is one too many. *)
Lemma record_count_bounded_witness :
  message_tlv_add true full_message x01 1 [x02]
  = Ret (MESSAGE_ERROR_TOO_MANY_TLVS, full_message)
  /\ message_parse (H := little_endian_host) (fun _ => true) empty_message
       (full_wire ++ [x01])
     = Ret (MESSAGE_ERROR_TOO_MANY_TLVS, empty_message)
  /\ exists buffer' m',
       message_serialize (H := little_endian_host) (replicate 100 x00) full_message
       = Ret (100, buffer')
       /\ message_parse (H := little_endian_host) (fun _ => true) empty_message
            (take 100 buffer')
          = Ret (MESSAGE_SUCCESS, m')
       /\ msg_length m' = 25%nat
       /\ records m' = records full_message.
Proof.
  pose proof (record_count_bounded (H := little_endian_host) full_message
                full_message_well_formed)
    as (_ & _ & _ & Hadd & Hparse & Hround).
  split; [now apply Hadd |].
  split; [apply Hparse; [reflexivity | exact full_message_parsed | discriminate] |].
  destruct (Hround eq_refl) with (m0 := empty_message) (buffer := replicate 100 x00)
    as (buffer' & m' & Hser & Hback & Hn & Hrec).
  - by_evaluation.
  - vm_compute. lia.
  - exists buffer', m'. auto.
Defined.

(** C3 as stated fails: a message of exactly 25 records, the first of them
    of type [TLV_CHECKSUM] with a value that is no checksum, serializes, and
    the parser rejects the bytes. *)
Lemma full_message_checksum_rejected :
  wf_message unchecked_full_message
  /\ msg_length unchecked_full_message = 25%nat
  /\ message_serialize (H := little_endian_host) (replicate 100 x00)
       unchecked_full_message
     = Ret (100, wire_format (records unchecked_full_message))
  /\ message_parse (H := little_endian_host) (fun _ => true) empty_message
       (wire_format (records unchecked_full_message))
     = Ret (MESSAGE_ERROR_CHECKSUM_MISMATCH, empty_message).
Proof.
  split; [by_evaluation |]. vm_compute. repeat split; reflexivity.
Qed.

(** C7 on inputs: after a complete command record, a record cut off in its
    header and one cut off in its value. *)
Lemma message_parse_truncated_witness :
  message_parse (H := little_endian_host) (fun _ => true) empty_message []
  = Ret (MESSAGE_SUCCESS, empty_message)
  /\ message_parse (H := little_endian_host) (fun _ => true) empty_message
       ([x01; x00; x01; x02] ++ [x04; x00])
     = Ret (MESSAGE_ERROR_PARSE_ERROR, empty_message)
  /\ message_parse (H := little_endian_host) (fun _ => true) empty_message
       ([x01; x00; x01; x02] ++ [x04; x00; x0c; xff; xff])
     = Ret (MESSAGE_ERROR_PARSE_ERROR, empty_message).
Proof.
  destruct (message_parse_truncated (H := little_endian_host) (fun _ => true)
              empty_message
              (append_records empty_message [mk_tlv x01 1 (Some [x02])])
              [x01; x00; x01; x02])
    as (Hempty & Hheader & Hvalue).
  - vm_compute. reflexivity.
  - vm_compute. lia.
  - split; [exact Hempty |]. split.
    + apply Hheader. simpl. lia.
    + apply Hvalue. vm_compute. reflexivity.
Defined.

(** C7 as stated fails: when 25 records precede it, a record cut off in its
    header, or in its value, makes the parser fail with
    [MESSAGE_ERROR_TOO_MANY_TLVS], the capacity being checked before a byte of
    the record is read. *)
Lemma message_parse_truncated_at_capacity :
  message_parse (H := little_endian_host) (fun _ => true) empty_message full_wire
  = Ret (MESSAGE_SUCCESS, full_message)
  /\ msg_length full_message = 25%nat
  /\ message_parse (H := little_endian_host) (fun _ => true) empty_message
       (full_wire ++ [x01])
     = Ret (MESSAGE_ERROR_TOO_MANY_TLVS, empty_message)
  /\ message_parse (H := little_endian_host) (fun _ => true) empty_message
       (full_wire ++ [x01; x00; x05; x00])
     = Ret (MESSAGE_ERROR_TOO_MANY_TLVS, empty_message).
Proof. vm_compute. repeat split; reflexivity. Qed.

(** C4 on inputs: an add that succeeds, one that finds no memory and one that
    finds no room. *)
Lemma message_tlv_add_atomic_witness :
  (records (append_records empty_message [mk_tlv x01 1 (Some [x02])])
   = [mk_tlv x01 1 (Some [x02])])
  /\ (msg_length (set_value 0 None empty_message) = 0%nat
      /\ records (set_value 0 None empty_message) = [])
  /\ (msg_length full_message = 25%nat
      /\ tlv_at full_message 24 = mk_tlv x01 1 (Some [x02])).
Proof.
  split; [| split].
  - exact (proj2 (proj2 (message_tlv_add_atomic true empty_message x01 1 [x02; x07]
                           MESSAGE_SUCCESS
                           (append_records empty_message
                              [mk_tlv x01 1 (Some [x02])])
                           eq_refl eq_refl))).
  - exact (proj2 (message_tlv_add_atomic false empty_message x01 1 [x02]
                    MESSAGE_ERROR_OUT_OF_MEMORY (set_value 0 None empty_message)
                    eq_refl eq_refl)).
  - assert (Hlen : length (msg_tlv full_message) = MAX_TLV_COUNT)
      by (vm_compute; reflexivity).
    assert (Hadd : message_tlv_add true full_message x01 1 [x02]
                   = Ret (MESSAGE_ERROR_TOO_MANY_TLVS, full_message))
      by (vm_compute; reflexivity).
    destruct (message_tlv_add_atomic true full_message x01 1 [x02]
                MESSAGE_ERROR_TOO_MANY_TLVS full_message Hlen Hadd)
      as [Hslots [Hcount _]].
    split; [exact Hcount | vm_compute; reflexivity].
Defined.

(** * Further properties of the codec *)

Section codec_further.
Context `{Platform}.

Lemma parse_from_undefined (malloc_ok : nat -> bool) (data : list byte)
    (offset : nat) (m : message_t) :
  (offset < length data)%nat ->
  parse_body malloc_ok data offset m = Undefined ->
  parse_from malloc_ok data offset m = Undefined.
Proof.
  intros Hin E. unfold parse_from. simpl.
  rewrite decide_True by exact Hin. now rewrite E.
Qed.

(** A pass reads outside an object in one case only: the record is of type
    [TLV_CHECKSUM] and its length field is 0, so that [memcmp] reads one byte
    of a block of none. *)
Lemma parse_body_undefined (malloc_ok : nat -> bool) (data : list byte)
    (offset : nat) (m : message_t) :
  wf_message m ->
  (offset < length data)%nat ->
  parse_body malloc_ok data offset m = Undefined ->
  (offset + 3 <= length data)%nat
  /\ (exists type, data !! offset = Some type /\ Z_of_byte type = TLV_CHECKSUM)
  /\ wire_length data offset = 0.
Proof.
  intros (Hlen & Hcount & Hrs) Hin. rewrite parse_body_unfold by exact Hlen.
  destruct (decide (MAX_TLV_COUNT <= msg_length m)%nat); [discriminate |].
  destruct (lookup_lt_is_Some_2 data offset Hin) as [type Hty]. rewrite Hty.
  destruct (decide (length data < offset + 3)%nat); [discriminate |].
  cbv zeta.
  destruct (decide (length data < offset + 3 + _)%nat) as [| Hfit]; [discriminate |].
  destruct (malloc_ok (msg_length m)); simpl negb; cbv iota; [| discriminate].
  destruct (decide (Z_of_byte type = TLV_CHECKSUM)) as [Hck |]; [| discriminate].
  rewrite message_checksum_records
    by (rewrite ?store_slot_length, ?records_store_dead; simpl; auto; lia).
  cbn [exec_bind]. unfold memcmp_differ.
  destruct (decide _) as [| Hshort]; cbn [exec_bind].
  { destruct (bool_decide _); discriminate. }
  intros _. split; [lia |]. split; [now exists type |].
  rewrite store32_length in Hshort.
  rewrite length_take_le in Hshort by (rewrite length_drop; lia).
  assert (Hraw : length (take 2 (drop (offset + 1) data)) = 2%nat).
  { rewrite length_take_le; [reflexivity |]. rewrite length_drop. lia. }
  pose proof (be_decode_2_bounds _ Hraw) as Hb. fold (wire_length data offset) in Hb.
  lia.
Qed.


(** A pass that returns reports one of the four errors of the parser. *)
Lemma parse_body_return_code (malloc_ok : nat -> bool) (data : list byte)
    (offset : nat) (m : message_t) (r : message_result_t) (m' : message_t) :
  length (msg_tlv m) = MAX_TLV_COUNT ->
  parse_body malloc_ok data offset m = Ret (Return (r, m')) ->
  r = MESSAGE_ERROR_TOO_MANY_TLVS \/ r = MESSAGE_ERROR_PARSE_ERROR
  \/ r = MESSAGE_ERROR_OUT_OF_MEMORY \/ r = MESSAGE_ERROR_CHECKSUM_MISMATCH.
Proof.
  intros Hlen. rewrite parse_body_unfold by exact Hlen.
  repeat first
    [ discriminate
    | intros [= <- <-]; tauto
    | match goal with
      | |- context [decide ?P] => destruct (decide P)
      | |- context [data !! offset] => destruct (data !! offset)
      | |- context [negb (malloc_ok ?i)] => destruct (malloc_ok i); simpl negb
      | |- context [message_checksum ?x] =>
          destruct (message_checksum x); cbn [exec_bind]
      | |- context [memcmp_differ ?a ?b ?n] =>
          destruct (memcmp_differ a b n) as [[|] | | |]; cbn [exec_bind]
      end
    | cbv zeta iota ].
Qed.

Lemma parse_from_classified (malloc_ok : nat -> bool) (data : list byte)
    (offset : nat) (m : message_t) :
  wf_message m ->
  match parse_from malloc_ok data offset m with
  | Ret (r, m') =>
      r = MESSAGE_SUCCESS \/ r = MESSAGE_ERROR_TOO_MANY_TLVS
      \/ r = MESSAGE_ERROR_PARSE_ERROR \/ r = MESSAGE_ERROR_OUT_OF_MEMORY
      \/ r = MESSAGE_ERROR_CHECKSUM_MISMATCH
  | Undefined => exists o, empty_checksum_at data o
  | AssertFailed | OutOfFuel => False
  end.
Proof.
  remember (length data - offset)%nat as n eqn:Hn.
  revert offset m Hn. induction n as [n IH] using lt_wf_ind.
  intros offset m Hn Hwf. pose proof Hwf as (Hlen & _ & _).
  destruct (decide (offset < length data)%nat) as [Hin | Hout].
  - destruct (parse_body malloc_ok data offset m) as [[[o mm] | [r m']] | | |] eqn:E.
    + rewrite (parse_from_continue _ _ _ _ _ _ Hlen Hin E).
      destruct (parse_body_continue _ _ _ _ _ _ Hlen E) as (Ho & _).
      apply (IH (length data - o)%nat); [lia | reflexivity |].
      exact (parse_body_continue_wf _ _ _ _ _ _ Hwf E).
    + rewrite (parse_from_return _ _ _ _ _ Hin E).
      pose proof (parse_body_return_code _ _ _ _ _ _ Hlen E). tauto.
    + destruct (parse_body_outcome malloc_ok data offset m Hwf) as [[s Es] | Es];
        congruence.
    + rewrite (parse_from_undefined _ _ _ _ Hin E). exists offset.
      exact (parse_body_undefined _ _ _ _ Hwf Hin E).
    + destruct (parse_body_outcome malloc_ok data offset m Hwf) as [[s Es] | Es];
        congruence.
  - rewrite parse_from_done by lia. tauto.
Qed.

(** X1. [message_parse] ends on every buffer, whatever the allocator does and
    whatever the message held: it fails no assertion, it needs no more passes
    than the buffer has bytes, and it returns [MESSAGE_SUCCESS] or one of its
    four errors. The one access outside an object it can make is the
    [memcmp] of the checksum verification on a record of type [TLV_CHECKSUM]
    whose length field is 0: one byte is read of a block of none. *)
Theorem message_parse_outcome (malloc_ok : nat -> bool) (m0 : message_t)
    (data : list byte) :
  match message_parse malloc_ok m0 data with
  | Ret (r, m) =>
      r = MESSAGE_SUCCESS \/ r = MESSAGE_ERROR_TOO_MANY_TLVS
      \/ r = MESSAGE_ERROR_PARSE_ERROR \/ r = MESSAGE_ERROR_OUT_OF_MEMORY
      \/ r = MESSAGE_ERROR_CHECKSUM_MISMATCH
  | Undefined =>
      exists offset type,
        (offset + 3 <= length data)%nat
        /\ data !! offset = Some type
        /\ Z_of_byte type = TLV_CHECKSUM
        /\ take 2 (drop (offset + 1) data) = [x00; x00]
  | AssertFailed | OutOfFuel => False
  end.
Proof.
  rewrite message_parse_from.
  pose proof (parse_from_classified malloc_ok data 0 empty_message
                (wf_message_init m0)) as Hc.
  destruct (parse_from malloc_ok data 0 empty_message) as [[r m] | | |];
    [exact Hc | exact Hc | | exact Hc].
  destruct Hc as (o & Ho & (type & Hty & Hck) & Hzero).
  exists o, type. repeat split; try assumption.
  unfold wire_length in Hzero.
  assert (Hraw : length (take 2 (drop (o + 1) data)) = 2%nat).
  { rewrite length_take_le; [reflexivity |]. rewrite length_drop. lia. }
  destruct (take 2 (drop (o + 1) data)) as [| b1 [| b0 [| ? ?]]]; try discriminate.
  rewrite be_decode_2 in Hzero.
  pose proof (Z_of_byte_range b1). pose proof (Z_of_byte_range b0).
  assert (Z_of_byte b1 = 0 /\ Z_of_byte b0 = 0) as [E1 E0] by lia.
  rewrite <- (byte_of_Z_of_byte b1), <- (byte_of_Z_of_byte b0), E1, E0.
  reflexivity.
Qed.


(** ** What a buffer that parses is *)

Lemma be16_be_decode_2 (b1 b0 : byte) : be16 (be_decode [b1; b0]) = [b1; b0].
Proof.
  rewrite be_decode_2.
  pose proof (Z_of_byte_range b1). pose proof (Z_of_byte_range b0).
  unfold be16, byte_at. change (256 ^ 1) with 256. change (256 ^ 0) with 1.
  f_equal; [| f_equal].
  - transitivity (byte_of_Z (Z_of_byte b1)); [| apply byte_of_Z_of_byte].
    apply byte_of_Z_congr. Z.div_mod_to_equations; lia.
  - transitivity (byte_of_Z (Z_of_byte b0)); [| apply byte_of_Z_of_byte].
    apply byte_of_Z_congr. Z.div_mod_to_equations; lia.
Qed.

(** The record the parser reads at [offset] is written on the wire as the
    bytes it was read from. *)
Lemma wire_record_wire_tlv (type : byte) (data : list byte) (offset : nat) :
  data !! offset = Some type ->
  (offset + 3 + Z.to_nat (wire_length data offset) <= length data)%nat ->
  wire_record (wire_tlv type data offset)
  ++ drop (offset + 3 + Z.to_nat (wire_length data offset)) data
  = drop offset data.
Proof.
  intros Hty Hfit.
  assert (Hbe : be16 (wire_length data offset) = take 2 (drop (offset + 1) data)).
  { assert (Hraw : length (take 2 (drop (offset + 1) data)) = 2%nat).
    { rewrite length_take_le; [reflexivity |]. rewrite length_drop. lia. }
    unfold wire_length.
    destruct (take 2 (drop (offset + 1) data)) as [| b1 [| b0 [| ? ?]]];
      try discriminate.
    apply be16_be_decode_2. }
  unfold wire_record, wire_tlv, value_of.
  cbn [tlv_type tlv_length tlv_value default app].
  rewrite (drop_S _ _ _ Hty). f_equal. rewrite Hbe, <- app_assoc.
  replace (S offset) with (offset + 1)%nat by lia.
  rewrite <- (take_drop 2 (drop (offset + 1) data)) at 2.
  f_equal. rewrite drop_drop.
  replace (offset + 1 + 2)%nat with (offset + 3)%nat by lia.
  rewrite <- (take_drop (Z.to_nat (wire_length data offset)) (drop (offset + 3) data))
    at 2.
  f_equal. now rewrite drop_drop.
Qed.

(** A run of the loop that succeeds has appended, record by record, records
    whose wire format is the rest of the buffer. *)
Lemma parse_from_canonical (malloc_ok : nat -> bool) (data : list byte)
    (offset : nat) (m m' : message_t) :
  wf_message m ->
  parse_from malloc_ok data offset m = Ret (MESSAGE_SUCCESS, m') ->
  exists rs,
    m' = append_records m rs
    /\ Forall wf_tlv rs
    /\ (msg_length m + length rs <= MAX_TLV_COUNT)%nat
    /\ wire_format rs = drop offset data.
Proof.
  remember (length data - offset)%nat as n eqn:Hn.
  revert offset m Hn. induction n as [n IH] using lt_wf_ind.
  intros offset m Hn Hwf Hparse. pose proof Hwf as (Hlen & Hcount & _).
  destruct (decide (offset < length data)%nat) as [Hin | Hout].
  - destruct (parse_body malloc_ok data offset m) as [[[o mm] | [r m1]] | | |] eqn:E.
    + rewrite (parse_from_continue _ _ _ _ _ _ Hlen Hin E) in Hparse.
      pose proof (parse_body_continue_wf _ _ _ _ _ _ Hwf E) as Hwf'.
      destruct (parse_body_continue _ _ _ _ _ _ Hlen E)
        as (Ho & Hroom & type & Hty & _ & Ho' & Hmm).
      destruct (IH (length data - o)%nat ltac:(lia) o mm eq_refl Hwf' Hparse)
        as (rs & -> & Hrs & Hn' & Hwire).
      exists (wire_tlv type data offset :: rs).
      split; [now rewrite append_records_cons, <- Hmm |].
      split; [constructor; [apply wire_tlv_wf; lia | exact Hrs] |].
      split; [rewrite Hmm in Hn'; simpl in *; lia |].
      cbn [wire_format]. rewrite Hwire, Ho'.
      apply wire_record_wire_tlv; [exact Hty | lia].
    + rewrite (parse_from_return _ _ _ _ _ Hin E) in Hparse.
      destruct (parse_body_return _ _ _ _ _ _ Hlen E) as [Hr _]. congruence.
    + unfold parse_from in Hparse. simpl in Hparse.
      rewrite decide_True, E in Hparse by exact Hin. discriminate.
    + unfold parse_from in Hparse. simpl in Hparse.
      rewrite decide_True, E in Hparse by exact Hin. discriminate.
    + unfold parse_from in Hparse. simpl in Hparse.
      rewrite decide_True, E in Hparse by exact Hin. discriminate.
  - rewrite parse_from_done in Hparse by lia. injection Hparse as <-.
    exists []. split; [reflexivity |]. split; [constructor |].
    split; [simpl; lia |]. now rewrite drop_ge by lia.
Qed.

Lemma message_parse_canonical (malloc_ok : nat -> bool) (m0 m : message_t)
    (data : list byte) :
  message_parse malloc_ok m0 data = Ret (MESSAGE_SUCCESS, m) ->
  wf_message m
  /\ m = append_records empty_message (records m)
  /\ wire_format (records m) = data.
Proof.
  rewrite message_parse_from. intros Hparse.
  destruct (parse_from_canonical _ _ 0 empty_message _ (wf_message_init m0) Hparse)
    as (rs & -> & Hrs & Hn & Hwire).
  simpl in Hn. rewrite drop_0 in Hwire.
  destruct (append_records_empty rs Hrs Hn) as (Hwf & _ & Hrec).
  rewrite Hrec. auto.
Qed.

Lemma append_records_length (rs : list tlv_t) (m : message_t) :
  msg_length (append_records m rs) = (msg_length m + length rs)%nat.
Proof.
  revert m. induction rs as [| t rs IH]; intros m; [simpl; lia |].
  rewrite append_records_cons, IH. simpl. lia.
Qed.

(** Appending records leaves the slots after them as they were. *)
Lemma append_records_tail (rs : list tlv_t) (m : message_t) :
  drop (msg_length m + length rs) (msg_tlv (append_records m rs))
  = drop (msg_length m + length rs) (msg_tlv m).
Proof.
  revert m. induction rs as [| t rs IH]; intros m; [reflexivity |].
  rewrite append_records_cons.
  replace (msg_length m + length (t :: rs))%nat
    with (msg_length (incr_length (store_slot (msg_length m) t m)) + length rs)%nat
    by (simpl; lia).
  rewrite IH. simpl. apply drop_insert_lt. lia.
Qed.

(** X2. What [message_parse] leaves in [*message], whatever it held before.
    With an error code: the message [message_init] leaves, no record and
    every slot zero, so that no record read before the error is exposed.
    With [MESSAGE_SUCCESS]: at most [MAX_TLV_COUNT] records, each owning a
    block of exactly [length] bytes, and every slot after them zero. *)
Theorem message_parse_leaves (malloc_ok : nat -> bool) (m0 m : message_t)
    (data : list byte) (r : message_result_t) :
  message_parse malloc_ok m0 data = Ret (r, m) ->
  (r <> MESSAGE_SUCCESS -> m = snd (message_init m0))
  /\ (r = MESSAGE_SUCCESS ->
      (msg_length m <= MAX_TLV_COUNT)%nat
      /\ length (msg_tlv m) = MAX_TLV_COUNT
      /\ Forall wf_tlv (records m)
      /\ drop (msg_length m) (msg_tlv m)
         = replicate (MAX_TLV_COUNT - msg_length m) zero_tlv).
Proof.
  intros Hparse. split.
  - intros Hr. rewrite message_parse_from in Hparse.
    destruct (parse_from_outcome malloc_ok data 0 empty_message
                (wf_message_init m0)) as [(r1 & m1 & E1 & _ & Hempty) | E1];
      rewrite E1 in Hparse; [| discriminate].
    injection Hparse as <- <-. now rewrite (Hempty Hr).
  - intros ->.
    destruct (message_parse_canonical _ _ _ _ Hparse) as (Hwf & Hm & _).
    destruct Hwf as (Hlen & Hcount & Hrs).
    split; [exact Hcount |]. split; [exact Hlen |]. split; [exact Hrs |].
    pose proof (append_records_tail (records m) empty_message) as Htail.
    rewrite <- Hm in Htail. cbn [msg_length empty_message Nat.add] in Htail.
    rewrite records_length in Htail by lia.
    rewrite Htail. apply drop_replicate.
Qed.

(** X3. A buffer that [message_parse] accepts is the wire format of the
    message it yields, byte for byte: the records account for every byte, and
    [message_serialize] writes the buffer back, [message_serialized_size]
    being its size. Two different buffers never parse to the same message. *)
Theorem message_parse_serialize (malloc_ok : nat -> bool) (m0 m : message_t)
    (data buffer : list byte) :
  message_parse malloc_ok m0 data = Ret (MESSAGE_SUCCESS, m) ->
  (length data <= length buffer)%nat ->
  wire_format (records m) = data
  /\ message_serialized_size m = length data
  /\ message_serialize buffer m
     = Ret (Z.of_nat (length data), data ++ drop (length data) buffer).
Proof.
  intros Hparse Hfit.
  destruct (message_parse_canonical _ _ _ _ Hparse) as (Hwf & _ & Hwire).
  pose proof (message_serialized_size_wire _ Hwf) as Hsize.
  rewrite Hwire in Hsize.
  split; [exact Hwire |]. split; [exact Hsize |].
  rewrite (message_serialize_fits m buffer Hwf) by lia.
  now rewrite Hsize, Hwire.
Qed.


(** ** The parser on the wire format of records, case by case *)

(** One pass over the wire format of a record [t]: the capacity is checked,
    then the allocation, then, for a record of type [TLV_CHECKSUM], one byte
    of the checksum. *)
Lemma parse_body_wire (malloc_ok : nat -> bool) (pre post : list byte)
    (t : tlv_t) (m : message_t) :
  wf_message m ->
  wf_tlv t ->
  parse_body malloc_ok (pre ++ wire_record t ++ post) (length pre) m
  = if decide (MAX_TLV_COUNT <= msg_length m)%nat
    then Ret (Return (MESSAGE_ERROR_TOO_MANY_TLVS, empty_message))
    else if negb (malloc_ok (msg_length m))
    then Ret (Return (MESSAGE_ERROR_OUT_OF_MEMORY, empty_message))
    else if decide (Z_of_byte (tlv_type t) = TLV_CHECKSUM)
    then
      do differ <- memcmp_differ (be32 (running_crc32 (records m))) (value_of t) 1;
      if differ
      then Ret (Return (MESSAGE_ERROR_CHECKSUM_MISMATCH, empty_message))
      else Ret (Continue ((length pre + length (wire_record t))%nat,
                          incr_length (store_slot (msg_length m) t m)))
    else Ret (Continue ((length pre + length (wire_record t))%nat,
                        incr_length (store_slot (msg_length m) t m))).
Proof.
  intros (Hlen & Hcount & Hrs) Ht.
  rewrite parse_body_unfold by exact Hlen.
  destruct (decide (MAX_TLV_COUNT <= msg_length m)%nat) as [| Hroom];
    [reflexivity |].
  assert (Hty : (pre ++ wire_record t ++ post) !! length pre = Some (tlv_type t)).
  { rewrite lookup_app_r by lia. now rewrite Nat.sub_diag. }
  rewrite Hty.
  pose proof (wire_record_length _ Ht) as Hsize.
  rewrite decide_False by (rewrite !length_app; lia).
  cbv zeta. rewrite (wire_length_record _ _ _ Ht), (wire_tlv_record _ _ _ Ht).
  rewrite decide_False by (rewrite !length_app; lia).
  destruct (malloc_ok (msg_length m)); simpl negb; cbv iota; [| reflexivity].
  replace (length pre + 3 + Z.to_nat (tlv_length t))%nat
    with (length pre + length (wire_record t))%nat by lia.
  destruct (decide (Z_of_byte (tlv_type t) = TLV_CHECKSUM)) as [Hck |];
    [| reflexivity].
  rewrite message_checksum_records
    by (rewrite ?store_slot_length, ?records_store_dead; simpl; auto; lia).
  cbn [exec_bind]. rewrite records_store_dead, store32_htonl.
  assert (Hval : take (Z.to_nat (tlv_length t))
                   (drop (length pre + 3) (pre ++ wire_record t ++ post))
                 = value_of t).
  { pose proof (wire_tlv_record pre post t Ht) as E. unfold wire_tlv in E.
    rewrite (wire_length_record _ _ _ Ht) in E.
    unfold value_of. rewrite <- E at 3. reflexivity. }
  now rewrite Hval.
Qed.

(** The byte the parser compares agrees exactly when the record's first byte
    is the first byte of the checksum. *)
Lemma memcmp_first_byte (checksum : Z) (value : list byte) :
  memcmp_differ (be32 checksum) value 1 = Ret false
  <-> take 1 value = [byte_at 3 checksum].
Proof.
  unfold memcmp_differ. destruct value as [| b rest].
  - rewrite decide_False by (simpl; lia). split; discriminate.
  - rewrite decide_True by (simpl; lia).
    change (take 1 (be32 checksum)) with [byte_at 3 checksum].
    change (take 1 (b :: rest)) with [b].
    split.
    + intros [= Hd]. apply bool_decide_eq_false in Hd.
      destruct (decide ([byte_at 3 checksum] = [b])); [congruence | contradiction].
    + intros E. f_equal. apply bool_decide_eq_false. congruence.
Qed.

(** A run over the wire format of records that succeeds has found room and
    memory for each, and the first byte of every checksum record right. *)
Lemma parse_from_wire_success (malloc_ok : nat -> bool) (rs : list tlv_t)
    (pre : list byte) (m m' : message_t) :
  wf_message m ->
  Forall wf_tlv rs ->
  parse_from malloc_ok (pre ++ wire_format rs) (length pre) m
  = Ret (MESSAGE_SUCCESS, m') ->
  (msg_length m + length rs <= MAX_TLV_COUNT)%nat
  /\ (forall i, (msg_length m <= i < msg_length m + length rs)%nat ->
                malloc_ok i = true)
  /\ checksums_accepted_from (records m) rs.
Proof.
  intros Hwf Hrs. revert pre m Hwf.
  induction Hrs as [| t rs Ht Hrs IH]; intros pre m Hwf Hparse.
  - pose proof Hwf as (_ & Hcount & _). simpl.
    split; [lia |]. split; [intros i Hi; lia | exact I].
  - pose proof Hwf as (Hlen & Hcount & _).
    cbn [wire_format] in Hparse.
    pose proof (wire_record_nonempty t) as Hpos.
    assert (Hin : (length pre < length (pre ++ wire_record t ++ wire_format rs))%nat)
      by (rewrite !length_app; lia).
    pose proof (parse_body_wire malloc_ok pre (wire_format rs) t m Hwf Ht) as Hbody.
    assert (Hstop : forall r,
      r <> MESSAGE_SUCCESS ->
      parse_body malloc_ok (pre ++ wire_record t ++ wire_format rs) (length pre) m
      = Ret (Return (r, empty_message)) -> False).
    { intros r Hr E. rewrite (parse_from_return _ _ _ _ _ Hin E) in Hparse.
      congruence. }
    destruct (decide (MAX_TLV_COUNT <= msg_length m)%nat) as [| Hroom].
    { exfalso. now apply (Hstop MESSAGE_ERROR_TOO_MANY_TLVS). }
    destruct (malloc_ok (msg_length m)) eqn:Hmalloc; simpl negb in Hbody;
      cbv iota in Hbody.
    2: { exfalso. now apply (Hstop MESSAGE_ERROR_OUT_OF_MEMORY). }
    assert (Hgate : Z_of_byte (tlv_type t) = TLV_CHECKSUM ->
                    take 1 (value_of t) = [byte_at 3 (running_crc32 (records m))]).
    { intros Hck. rewrite decide_True in Hbody by exact Hck.
      apply memcmp_first_byte.
      destruct (memcmp_differ _ _ _) as [[|] | | |] eqn:Ecmp;
        cbn [exec_bind] in Hbody; try reflexivity.
      - exfalso. now apply (Hstop MESSAGE_ERROR_CHECKSUM_MISMATCH).
      - unfold memcmp_differ in Ecmp. destruct (decide _); discriminate.
      - rewrite (parse_from_undefined _ _ _ _ Hin Hbody) in Hparse. discriminate.
      - unfold memcmp_differ in Ecmp. destruct (decide _); discriminate. }
    assert (Hcont : parse_body malloc_ok (pre ++ wire_record t ++ wire_format rs)
                      (length pre) m
                    = Ret (Continue ((length pre + length (wire_record t))%nat,
                                     incr_length (store_slot (msg_length m) t m)))).
    { apply parse_body_record; auto; lia. }
    rewrite (parse_from_continue _ _ _ _ _ _ Hlen Hin Hcont) in Hparse.
    rewrite (app_assoc pre), <- (length_app pre) in Hparse.
    destruct (IH _ _ (wf_message_append _ _ Hwf ltac:(lia) Ht) Hparse)
      as (Hn & Hok & Hck).
    rewrite records_append in Hck by lia. simpl in Hn, Hok |- *.
    split; [lia |]. split; [| split; [exact Hgate | exact Hck]].
    intros i Hi. destruct (decide (i = msg_length m)) as [-> | Hne];
      [exact Hmalloc | apply Hok; lia].
Qed.

(** The criterion by which the parser accepts the wire format of records. *)
Lemma message_parse_wire_iff (malloc_ok : nat -> bool) (m0 m : message_t)
    (rs : list tlv_t) :
  Forall wf_tlv rs ->
  message_parse malloc_ok m0 (wire_format rs) = Ret (MESSAGE_SUCCESS, m)
  <-> ((length rs <= MAX_TLV_COUNT)%nat
       /\ (forall i, (i < length rs)%nat -> malloc_ok i = true)
       /\ checksums_accepted_from [] rs
       /\ m = append_records empty_message rs).
Proof.
  intros Hrs. split.
  - intros Hparse.
    destruct (message_parse_canonical _ _ _ _ Hparse) as (Hwf & Hm & Hwire).
    rewrite message_parse_from in Hparse.
    destruct (parse_from_wire_success malloc_ok rs [] empty_message m
                (wf_message_init m0) Hrs Hparse) as (Hn & Hok & Hck).
    simpl in Hn, Hok. repeat split; try assumption.
    + intros i Hi. apply Hok. lia.
    + pose proof (parse_from_wire malloc_ok rs [] [] empty_message
                    (wf_message_init m0) Hn Hrs) as E.
      rewrite app_nil_r in E. simpl in E. rewrite E in Hparse.
      * rewrite parse_from_done in Hparse by lia. congruence.
      * intros i Hi. apply Hok. lia.
      * exact Hck.
  - intros (Hn & Hok & Hck & ->).
    destruct (append_records_empty rs Hrs Hn) as (Hwf & Hcount & Hrec).
    pose proof (message_parse_wire malloc_ok m0 (append_records empty_message rs)
                  Hwf) as E.
    rewrite Hrec in E. apply E; [| exact Hck].
    intros i Hi. apply Hok. now rewrite Hcount in Hi.
Qed.


(** X4. The wire format of records, each owning [length] bytes, parses
    exactly when three things hold: there are at most [MAX_TLV_COUNT]
    records; the allocation for each succeeds; and every record of type
    [TLV_CHECKSUM] has a value whose first byte is the most significant byte
    of the CRC32 over the values of the records before it. The message is
    then those records, in order. *)
Theorem message_parse_accepts (malloc_ok : nat -> bool) (m0 : message_t)
    (rs : list tlv_t) :
  Forall wf_tlv rs ->
  ((exists m, message_parse malloc_ok m0 (wire_format rs) = Ret (MESSAGE_SUCCESS, m))
   <-> ((length rs <= MAX_TLV_COUNT)%nat
        /\ (forall i, (i < length rs)%nat -> malloc_ok i = true)
        /\ checksums_accepted_from [] rs))
  /\ (forall m,
        message_parse malloc_ok m0 (wire_format rs) = Ret (MESSAGE_SUCCESS, m) ->
        msg_length m = length rs /\ records m = rs).
Proof.
  intros Hrs. split; [split |].
  - intros [m Hparse].
    apply (message_parse_wire_iff _ _ _ _ Hrs) in Hparse. tauto.
  - intros (Hn & Hok & Hck). exists (append_records empty_message rs).
    apply (message_parse_wire_iff _ _ _ _ Hrs). tauto.
  - intros m Hparse.
    apply (message_parse_wire_iff _ _ _ _ Hrs) in Hparse as (Hn & _ & _ & ->).
    destruct (append_records_empty rs Hrs Hn) as (_ & Hcount & Hrec). auto.
Qed.

Lemma checksums_accepted_values (before before' rs rs' : list tlv_t) :
  value_of <$> before = value_of <$> before' ->
  value_of <$> rs = value_of <$> rs' ->
  is_checksum <$> rs = is_checksum <$> rs' ->
  checksums_accepted_from before rs ->
  checksums_accepted_from before' rs'.
Proof.
  revert before before' rs'.
  induction rs as [| t rs IH]; intros before before' [| t' rs'] Hb Hv Hc;
    try discriminate; [easy |].
  simpl in Hv, Hc. injection Hv as Hvt Hv. injection Hc as Hct Hc.
  intros [Hgate Hrest]. split.
  - intros Hck. rewrite <- Hvt, <- (running_crc32_values _ _ Hb).
    apply Hgate. unfold is_checksum in Hct.
    apply (bool_decide_eq_true_1 _). rewrite Hct.
    now apply bool_decide_eq_true_2.
  - apply (IH (before ++ [t])); try assumption.
    rewrite !fmap_app. simpl. now rewrite Hb, Hvt.
Qed.

(** X5. The checksum verification of the parser protects no type byte.
    When the wire format of records parses, so does the wire format of any
    records with the same values of which the same ones are checksum records:
    the type of every other record can be changed to any type but
    [TLV_CHECKSUM], on the wire, and the parser returns [MESSAGE_SUCCESS]
    with the changed records. *)
Theorem message_parse_types_unprotected (malloc_ok : nat -> bool)
    (m0 m : message_t) (rs rs' : list tlv_t) :
  Forall wf_tlv rs ->
  Forall wf_tlv rs' ->
  value_of <$> rs = value_of <$> rs' ->
  is_checksum <$> rs = is_checksum <$> rs' ->
  message_parse malloc_ok m0 (wire_format rs) = Ret (MESSAGE_SUCCESS, m) ->
  exists m',
    message_parse malloc_ok m0 (wire_format rs') = Ret (MESSAGE_SUCCESS, m')
    /\ records m' = rs'.
Proof.
  intros Hrs Hrs' Hv Hc Hparse.
  apply (message_parse_wire_iff _ _ _ _ Hrs) in Hparse as (Hn & Hok & Hck & _).
  assert (Hlen : length rs' = length rs).
  { rewrite <- (length_fmap value_of rs'), <- Hv. apply length_fmap. }
  exists (append_records empty_message rs'). split.
  - apply (message_parse_wire_iff _ _ _ _ Hrs'). rewrite Hlen.
    repeat split; try assumption.
    now apply (checksums_accepted_values [] [] rs rs').
  - destruct (append_records_empty rs' Hrs') as (_ & _ & Hrec); [lia | exact Hrec].
Qed.

Lemma checksums_accepted_plain (before rs : list tlv_t) :
  Forall (fun t => Z_of_byte (tlv_type t) <> TLV_CHECKSUM) rs ->
  checksums_accepted_from before rs.
Proof.
  intros Hplain. revert before.
  induction Hplain as [| t rs Ht _ IH]; intros before; [exact I |].
  split; [intros Hck; contradiction | apply IH].
Qed.

(** X6. The records that follow the last checksum record are covered by no
    checksum. After a buffer that parses, the wire format of any further
    records that are not checksum records parses too, as long as there is
    room and memory for them: they are appended to the message the buffer
    alone gives. *)
Theorem message_parse_trailing_records (malloc_ok : nat -> bool)
    (m0 m : message_t) (data : list byte) (rs : list tlv_t) :
  message_parse malloc_ok m0 data = Ret (MESSAGE_SUCCESS, m) ->
  Forall wf_tlv rs ->
  Forall (fun t => Z_of_byte (tlv_type t) <> TLV_CHECKSUM) rs ->
  (msg_length m + length rs <= MAX_TLV_COUNT)%nat ->
  (forall i, (msg_length m <= i < msg_length m + length rs)%nat ->
             malloc_ok i = true) ->
  exists m',
    message_parse malloc_ok m0 (data ++ wire_format rs) = Ret (MESSAGE_SUCCESS, m')
    /\ msg_length m' = (msg_length m + length rs)%nat
    /\ records m' = records m ++ rs.
Proof.
  intros Hparse Hrs Hplain Hroom Hok.
  destruct (message_parse_extend _ _ _ _ (wire_format rs) Hparse) as [Hwf ->].
  exists (append_records m rs).
  destruct (append_records_wf rs m Hwf Hroom Hrs) as (_ & Hcount & Hrec).
  split; [| split; [exact Hcount | exact Hrec]].
  pose proof (parse_from_wire malloc_ok rs data [] m Hwf Hroom Hrs Hok) as E.
  rewrite app_nil_r in E. rewrite E.
  - apply parse_from_done. rewrite length_app. lia.
  - now apply checksums_accepted_plain.
Qed.

(** X7. When the allocation for a record fails, and the records before it
    were accepted, [message_parse] returns [MESSAGE_ERROR_OUT_OF_MEMORY] and
    leaves the message empty, whatever follows the record in the buffer: the
    records read before it are not kept. *)
Theorem message_parse_out_of_memory (malloc_ok : nat -> bool) (m0 : message_t)
    (rs : list tlv_t) (t : tlv_t) (rest : list byte) :
  Forall wf_tlv rs ->
  wf_tlv t ->
  (length rs < MAX_TLV_COUNT)%nat ->
  (forall i, (i < length rs)%nat -> malloc_ok i = true) ->
  checksums_accepted_from [] rs ->
  malloc_ok (length rs) = false ->
  message_parse malloc_ok m0 (wire_format rs ++ wire_record t ++ rest)
  = Ret (MESSAGE_ERROR_OUT_OF_MEMORY, snd (message_init m0)).
Proof.
  intros Hrs Ht Hroom Hok Hck Hfail.
  destruct (append_records_empty rs Hrs ltac:(lia)) as (Hwf & Hcount & Hrec).
  assert (Hparse : message_parse malloc_ok m0 (wire_format rs)
                   = Ret (MESSAGE_SUCCESS, append_records empty_message rs)).
  { apply (message_parse_wire_iff _ _ _ _ Hrs).
    repeat split; try assumption. lia. }
  destruct (message_parse_extend _ _ _ _ (wire_record t ++ rest) Hparse) as [_ ->].
  apply parse_from_return.
  - rewrite !length_app. pose proof (wire_record_nonempty t). lia.
  - rewrite (parse_body_wire _ _ _ _ _ Hwf Ht).
    rewrite decide_False by lia. now rewrite Hcount, Hfail.
Qed.


(** ** Adds and gets *)

(** X8. [message_tlv_get] after a successful [message_tlv_add]. For a type
    the message already had a record of, the get does what it did before the
    add: the new record never hides an older one. For the type just added,
    when the message had none, the get copies the new value (it fails its
    assertion when the destination is shorter). For any other type without a
    record it still returns [MESSAGE_ERROR_TLV_NOT_FOUND] and leaves the
    destination as it is. *)
Theorem message_tlv_add_get (malloc_ok : bool) (m m' : message_t)
    (type type' : byte) (len : Z) (value destination : list byte) :
  wf_message m ->
  message_tlv_add malloc_ok m type len value = Ret (MESSAGE_SUCCESS, m') ->
  match first_of_type type' (records m) with
  | Some _ =>
      message_tlv_get m' type' destination = message_tlv_get m type' destination
  | None =>
      if decide (type' = type)
      then
        (u16 len <= Z.of_nat (length destination) ->
         message_tlv_get m' type' destination
         = Ret (MESSAGE_SUCCESS,
                take (Z.to_nat (u16 len)) value
                ++ drop (Z.to_nat (u16 len)) destination))
        /\ (Z.of_nat (length destination) < u16 len ->
            message_tlv_get m' type' destination = AssertFailed)
      else
        message_tlv_get m' type' destination
        = Ret (MESSAGE_ERROR_TLV_NOT_FOUND, destination)
  end.
Proof.
  intros Hwf Hadd. pose proof Hwf as (Hlen & Hcount & Hrs).
  destruct (message_tlv_add_success _ _ _ _ _ _ Hlen Hadd) as (-> & Hroom & _ & Ht).
  set (t := mk_tlv type (u16 len) (Some (take (Z.to_nat (u16 len)) value))) in *.
  pose proof (wf_message_append _ _ Hwf Hroom Ht) as Hwf'.
  assert (Hrec : records (incr_length (store_slot (msg_length m) t m))
                 = records m ++ [t]) by (apply records_append; lia).
  rewrite (message_tlv_get_first _ _ _ Hwf'), (message_tlv_get_first _ _ _ Hwf), Hrec.
  unfold first_of_type.
  destruct (list_find (fun t0 => tlv_type t0 = type') (records m)) as [[i t0] |] eqn:E.
  - now rewrite (list_find_app_l _ _ _ _ _ E).
  - rewrite (list_find_app_r _ _ _ E). cbn [list_find].
    destruct (decide (type' = type)) as [-> | Hne].
    + rewrite decide_True by reflexivity. cbn [fmap option_fmap option_map prod_map fst snd id].
      assert (Hn : length (value_of t) = Z.to_nat (u16 len)).
      { unfold wf_tlv, value_of, t in *. simpl in *. lia. }
      change (tlv_length t) with (u16 len).
      split; intros Hsize.
      * rewrite decide_True by exact Hsize. now rewrite Hn.
      * now rewrite decide_False by lia.
    + rewrite decide_False by (simpl; congruence). reflexivity.
Qed.

Lemma load_byte (h : endianness) (b : byte) : load h [b] = Z_of_byte b.
Proof. destruct h; unfold load, be_decode; simpl; lia. Qed.

(** An add into a message with room, the allocation succeeding. *)
Lemma message_tlv_add_fits (m : message_t) (type : byte) (len : Z)
    (value : list byte) :
  length (msg_tlv m) = MAX_TLV_COUNT ->
  (msg_length m < MAX_TLV_COUNT)%nat ->
  (Z.to_nat (u16 len) <= length value)%nat ->
  message_tlv_add true m type len value
  = Ret (MESSAGE_SUCCESS,
         incr_length
           (store_slot (msg_length m)
              (mk_tlv type (u16 len) (Some (take (Z.to_nat (u16 len)) value))) m)).
Proof.
  intros Hlen Hroom Hfit. rewrite message_tlv_add_unfold by exact Hlen.
  rewrite decide_False by lia. simpl negb. cbv iota.
  now rewrite decide_False by lia.
Qed.

(** A typed getter on a message whose first record of its type is [t], of
    exactly the size of the destination. *)
Lemma message_tlv_get_exact (m : message_t) (type : byte) (i : nat) (t : tlv_t)
    (destination : list byte) :
  wf_message m ->
  first_of_type type (records m) = Some (i, t) ->
  tlv_length t = Z.of_nat (length destination) ->
  message_tlv_get m type destination = Ret (MESSAGE_SUCCESS, value_of t).
Proof.
  intros Hwf Hfirst Hsize.
  assert (Ht : wf_tlv t).
  { apply list_find_Some in Hfirst as (Hi & _).
    destruct Hwf as (_ & _ & Hrs). rewrite Forall_lookup in Hrs.
    exact (Hrs i t Hi). }
  rewrite (message_tlv_get_first _ _ _ Hwf), Hfirst.
  rewrite decide_True by lia.
  assert (Hn : length (value_of t) = length destination).
  { unfold wf_tlv, value_of in *. destruct (tlv_value t); simpl; [lia | tauto]. }
  rewrite drop_ge by lia. now rewrite app_nil_r.
Qed.

(** X9. The single-byte fields. Into a message with room and with no command
    record, [message_tlv_add_command] appends a record of one byte, the
    command converted to [uint8_t], and [message_tlv_get_command] on the
    result returns that byte: the command modulo 256, so every enumerator of
    [tlv_command_t] comes back as it went in. [message_tlv_add_reply] and
    [message_tlv_get_reply] do the same for replies. *)
Theorem command_reply_roundtrip (m : message_t) (code out : Z) (local : byte) :
  wf_message m ->
  (msg_length m < MAX_TLV_COUNT)%nat ->
  (Forall (fun t => tlv_type t <> byte_of_Z TLV_COMMAND) (records m) ->
   exists m',
     message_tlv_add_command true m code = Ret (MESSAGE_SUCCESS, m')
     /\ records m'
        = records m ++ [mk_tlv (byte_of_Z TLV_COMMAND) 1 (Some [byte_of_Z code])]
     /\ message_tlv_get_command m' out local = Ret (MESSAGE_SUCCESS, code mod 256))
  /\ (Forall (fun t => tlv_type t <> byte_of_Z TLV_REPLY) (records m) ->
      exists m',
        message_tlv_add_reply true m code = Ret (MESSAGE_SUCCESS, m')
        /\ records m'
           = records m ++ [mk_tlv (byte_of_Z TLV_REPLY) 1 (Some [byte_of_Z code])]
        /\ message_tlv_get_reply m' out local = Ret (MESSAGE_SUCCESS, code mod 256)).
Proof.
  intros Hwf Hroom. pose proof Hwf as (Hlen & Hcount & Hrs).
  assert (Hone : forall type,
    Forall (fun t => tlv_type t <> type) (records m) ->
    let t := mk_tlv type 1 (Some [byte_of_Z code]) in
    let m' := incr_length (store_slot (msg_length m) t m) in
    message_tlv_add true m type (Z.of_nat sizeof_uint8_t) [byte_of_Z code]
    = Ret (MESSAGE_SUCCESS, m')
    /\ records m' = records m ++ [t]
    /\ message_tlv_get m' type [local] = Ret (MESSAGE_SUCCESS, [byte_of_Z code])).
  { intros type Hnone t m'.
    assert (Hrec : records m' = records m ++ [t]) by (apply records_append; lia).
    split; [| split; [exact Hrec |]].
    - apply (message_tlv_add_fits m type (Z.of_nat sizeof_uint8_t) [byte_of_Z code]);
        [exact Hlen | exact Hroom | change (1 <= 1)%nat; lia].
    - apply (message_tlv_get_exact m' type (length (records m)) t).
      + apply wf_message_append; [exact Hwf | exact Hroom |].
        unfold wf_tlv, t. simpl. lia.
      + rewrite Hrec. now apply first_of_type_last.
      + reflexivity. }
  split; intros Hnone.
  - destruct (Hone _ Hnone) as (Hadd & Hrec & Hget). eexists.
    split; [exact Hadd |]. split; [exact Hrec |].
    unfold message_tlv_get_command. rewrite Hget. cbn [exec_bind].
    rewrite decide_False by congruence.
    now rewrite load_byte, Z_of_byte_of_Z.
  - destruct (Hone _ Hnone) as (Hadd & Hrec & Hget). eexists.
    split; [exact Hadd |]. split; [exact Hrec |].
    unfold message_tlv_get_reply. rewrite Hget. cbn [exec_bind].
    rewrite decide_False by congruence.
    now rewrite load_byte, Z_of_byte_of_Z.
Qed.

(** X10. The current reading. Into a message with room and with no current
    reading record, [message_tlv_add_current_reading] appends a record of two
    bytes, the big-endian encoding of the reading, on either host; and
    [message_tlv_get_current_reading] on the result returns the reading, a
    [uint16_t]. *)
Theorem current_reading_roundtrip (m : message_t) (current out : Z) :
  wf_message m ->
  (msg_length m < MAX_TLV_COUNT)%nat ->
  Forall (fun t => tlv_type t <> byte_of_Z TLV_CURRENT_READING) (records m) ->
  exists m',
    message_tlv_add_current_reading true m current = Ret (MESSAGE_SUCCESS, m')
    /\ records m'
       = records m
         ++ [mk_tlv (byte_of_Z TLV_CURRENT_READING) 2 (Some (be16 current))]
    /\ message_tlv_get_current_reading m' out
       = Ret (MESSAGE_SUCCESS, current mod 65536).
Proof.
  intros Hwf Hroom Hnone. pose proof Hwf as (Hlen & Hcount & Hrs).
  set (t := mk_tlv (byte_of_Z TLV_CURRENT_READING) 2 (Some (be16 current))).
  set (m' := incr_length (store_slot (msg_length m) t m)).
  assert (Hrec : records m' = records m ++ [t]) by (apply records_append; lia).
  exists m'. split; [| split; [exact Hrec |]].
  - unfold message_tlv_add_current_reading.
    rewrite store16_htons, be16_u16.
    apply (message_tlv_add_fits m _ (Z.of_nat sizeof_uint16_t) (be16 current));
      [exact Hlen | exact Hroom | change (2 <= 2)%nat; lia].
  - unfold message_tlv_get_current_reading.
    rewrite (message_tlv_get_exact m' _ (length (records m)) t).
    + cbn [exec_bind]. rewrite decide_False by congruence.
      change (value_of t) with (be16 current). unfold be16.
      rewrite ntohs_load. fold (be16 current). now rewrite be_decode_be16.
    + apply wf_message_append; [exact Hwf | exact Hroom |].
      unfold wf_tlv, t, be16. simpl. lia.
    + rewrite Hrec. now apply first_of_type_last.
    + now rewrite store16_length.
Qed.


Lemma le_decode_le16 (z : Z) : le_decode (le16 z) = u16 z.
Proof.
  unfold le16, byte_at. simpl le_decode. rewrite !Z_of_byte_of_Z.
  change (256 ^ 0) with 1; change (256 ^ 1) with 256.
  unfold u16. Z.div_mod_to_equations; lia.
Qed.

Lemma le_decode_le32 (z : Z) : le_decode (le32 z) = u32 z.
Proof.
  unfold le32, byte_at. simpl le_decode. rewrite !Z_of_byte_of_Z.
  change (256 ^ 0) with 1; change (256 ^ 1) with 256;
  change (256 ^ 2) with 65536; change (256 ^ 3) with 16777216.
  unfold u32. Z.div_mod_to_equations; lia.
Qed.

(** Reading back the object representation of an integer. *)
Lemma load_store16 (h : endianness) (z : Z) : load h (store16 h z) = u16 z.
Proof. destruct h; [apply le_decode_le16 | apply be_decode_be16]. Qed.

Lemma load_store32 (h : endianness) (z : Z) : load h (store32 h z) = u32 z.
Proof. destruct h; [apply le_decode_le32 | apply be_decode_be32]. Qed.

Lemma motor_position_of_bytes_bytes (p : tlv_motor_position_t) :
  is_int32 (motor_x p) -> is_int32 (motor_y p) -> is_int32 (motor_z p) ->
  motor_position_of_bytes (motor_position_bytes p) = p.
Proof.
  intros Hx Hy Hz. destruct p as [x y z]. simpl in *.
  unfold motor_position_of_bytes, motor_position_bytes. cbn [motor_x motor_y motor_z].
  assert (E4 : forall a b : list byte, length a = 4%nat -> take 4 (a ++ b) = a).
  { intros a b Ha. rewrite <- Ha. apply take_app_length. }
  assert (D4 : forall a b : list byte, length a = 4%nat -> drop 4 (a ++ b) = b).
  { intros a b Ha. rewrite <- Ha. apply drop_app_length. }
  replace 8%nat with (4 + 4)%nat by reflexivity. rewrite <- drop_drop.
  rewrite !D4, !E4 by apply store32_length.
  rewrite <- (app_nil_r (store32 host z)) at 1.
  rewrite E4 by apply store32_length.
  rewrite !load_store32, !i32_u32 by assumption. reflexivity.
Qed.

(** X11. A typed getter that finds no record of its type returns
    [MESSAGE_ERROR_TLV_NOT_FOUND] and leaves the variable it was to fill as
    the caller had it: the command, the reply, the motor position (three
    [int32_t]) and the current reading (a [uint16_t]). *)
Theorem typed_get_not_found (m : message_t) :
  wf_message m ->
  (Forall (fun t => tlv_type t <> byte_of_Z TLV_COMMAND) (records m) ->
   forall command local,
     message_tlv_get_command m command local
     = Ret (MESSAGE_ERROR_TLV_NOT_FOUND, command))
  /\ (Forall (fun t => tlv_type t <> byte_of_Z TLV_REPLY) (records m) ->
      forall reply local,
        message_tlv_get_reply m reply local
        = Ret (MESSAGE_ERROR_TLV_NOT_FOUND, reply))
  /\ (Forall (fun t => tlv_type t <> byte_of_Z TLV_MOTOR_POSITION) (records m) ->
      forall position,
        is_int32 (motor_x position) ->
        is_int32 (motor_y position) ->
        is_int32 (motor_z position) ->
        message_tlv_get_motor_position m position
        = Ret (MESSAGE_ERROR_TLV_NOT_FOUND, position))
  /\ (Forall (fun t => tlv_type t <> byte_of_Z TLV_CURRENT_READING) (records m) ->
      forall current,
        0 <= current < 65536 ->
        message_tlv_get_current_reading m current
        = Ret (MESSAGE_ERROR_TLV_NOT_FOUND, current)).
Proof.
  intros Hwf.
  assert (Hget : forall type destination,
    Forall (fun t => tlv_type t <> type) (records m) ->
    message_tlv_get m type destination
    = Ret (MESSAGE_ERROR_TLV_NOT_FOUND, destination)).
  { intros type destination Hnone. rewrite (message_tlv_get_first _ _ _ Hwf).
    unfold first_of_type.
    now rewrite (proj2 (list_find_None (fun t => tlv_type t = type) (records m))
                   Hnone). }
  split; [| split; [| split]]; intros Hnone.
  - intros command local. unfold message_tlv_get_command.
    rewrite Hget by exact Hnone. cbn [exec_bind].
    now rewrite decide_True by congruence.
  - intros reply local. unfold message_tlv_get_reply.
    rewrite Hget by exact Hnone. cbn [exec_bind].
    now rewrite decide_True by congruence.
  - intros position Hx Hy Hz. unfold message_tlv_get_motor_position.
    rewrite Hget by exact Hnone. cbn [exec_bind].
    rewrite decide_True by congruence.
    now rewrite motor_position_of_bytes_bytes.
  - intros current Hc. unfold message_tlv_get_current_reading.
    rewrite Hget by exact Hnone. cbn [exec_bind].
    rewrite decide_True by congruence.
    rewrite load_store16. unfold u16. now rewrite Z.mod_small.
Qed.

(** X12. The typed getters check no length. The parser accepts a command
    record, or a reply record, of length 0; on a message whose first command
    record is empty [message_tlv_get_command] copies nothing, returns
    [MESSAGE_SUCCESS] and hands out the byte its local variable happened to
    hold, which it never initialised. [message_tlv_get_reply] does the same
    with an empty reply record. *)
Theorem typed_get_empty_record (malloc_ok : nat -> bool) (m0 m : message_t)
    (data : list byte) (type : byte) (i : nat) (t : tlv_t) :
  message_parse malloc_ok m0 data = Ret (MESSAGE_SUCCESS, m) ->
  first_of_type type (records m) = Some (i, t) ->
  tlv_length t = 0 ->
  (type = byte_of_Z TLV_COMMAND ->
   forall command local,
     message_tlv_get_command m command local
     = Ret (MESSAGE_SUCCESS, Z_of_byte local))
  /\ (type = byte_of_Z TLV_REPLY ->
      forall reply local,
        message_tlv_get_reply m reply local
        = Ret (MESSAGE_SUCCESS, Z_of_byte local)).
Proof.
  intros Hparse Hfirst Hzero.
  destruct (message_parse_canonical _ _ _ _ Hparse) as (Hwf & _ & _).
  assert (Ht : wf_tlv t).
  { apply list_find_Some in Hfirst as (Hi & _).
    destruct Hwf as (_ & _ & Hrs). rewrite Forall_lookup in Hrs.
    exact (Hrs i t Hi). }
  assert (Hv : value_of t = []).
  { unfold wf_tlv, value_of in *. destruct (tlv_value t) as [v |]; [| tauto].
    destruct v; simpl in *; [reflexivity | lia]. }
  assert (Hget : forall local,
    message_tlv_get m type [local] = Ret (MESSAGE_SUCCESS, [local])).
  { intros local. rewrite (message_tlv_get_first _ _ _ Hwf), Hfirst.
    rewrite decide_True by (simpl; lia). now rewrite Hv. }
  split; intros ->.
  - intros command local. unfold message_tlv_get_command.
    rewrite Hget. cbn [exec_bind]. rewrite decide_False by congruence.
    now rewrite load_byte.
  - intros reply local. unfold message_tlv_get_reply.
    rewrite Hget. cbn [exec_bind]. rewrite decide_False by congruence.
    now rewrite load_byte.
Qed.


(** ** Serializing into a buffer that is too small *)

Lemma overwrite_nil (buf : list byte) (offset : nat) : overwrite buf offset [] = buf.
Proof. unfold overwrite. simpl. rewrite Nat.add_0_r. apply take_drop. Qed.

(** The loop of [message_serialize] in a buffer that cannot hold every
    record: the records before the first that does not fit are written. *)
Lemma serialize_loop_partial (rs : list tlv_t) (offset remaining : nat)
    (buf : list byte) :
  Forall wf_tlv rs ->
  (offset + remaining = length buf)%nat ->
  (remaining < length (wire_format rs))%nat ->
  exists k,
    (k < length rs)%nat
    /\ (length (wire_format (take k rs)) <= remaining
        < length (wire_format (take (S k) rs)))%nat
    /\ tlv_loop serialize_body rs (offset, remaining, buf)
       = Ret (Return (result_code MESSAGE_ERROR_BUFFER_TOO_SMALL,
                      overwrite buf offset (wire_format (take k rs)))).
Proof.
  intros Hrs. revert offset remaining buf.
  induction Hrs as [| t rs Ht _ IH]; intros offset remaining buf Hbuf Hshort.
  - simpl in Hshort. lia.
  - cbn [wire_format] in Hshort. rewrite length_app in Hshort.
    rewrite tlv_loop_cons.
    destruct (decide (remaining < length (wire_record t))%nat) as [Hnow | Hlater].
    + exists 0%nat. rewrite serialize_body_short by assumption.
      cbn [take wire_format length]. rewrite app_nil_r, overwrite_nil.
      split; [lia |]. split; [lia | reflexivity].
    + rewrite serialize_body_fits by (auto; lia). cbn [exec_bind].
      destruct (IH (offset + length (wire_record t))%nat
                   (remaining - length (wire_record t))%nat
                   (overwrite buf offset (wire_record t)))
        as (k & Hk & Hfit & ->); [rewrite overwrite_length; lia | lia |].
      exists (S k). cbn [take wire_format length]. rewrite !length_app.
      split; [lia |]. split; [lia |].
      now rewrite overwrite_app by lia.
Qed.

(** X13. [message_serialize] into a buffer smaller than the serialized size
    returns [MESSAGE_ERROR_BUFFER_TOO_SMALL] after it has written: the
    records before the first one that does not fit are in the buffer, in
    wire format from its start, and the bytes after them are untouched. The
    buffer is not left as it was unless the first record already fails to
    fit. *)
Theorem message_serialize_partial (m : message_t) (buffer : list byte) :
  wf_message m ->
  (length buffer < message_serialized_size m)%nat ->
  exists k,
    (k < msg_length m)%nat
    /\ (length (wire_format (take k (records m))) <= length buffer
        < length (wire_format (take (S k) (records m))))%nat
    /\ message_serialize buffer m
       = Ret (result_code MESSAGE_ERROR_BUFFER_TOO_SMALL,
              wire_format (take k (records m))
              ++ drop (length (wire_format (take k (records m)))) buffer).
Proof.
  intros Hwf. rewrite (message_serialized_size_wire _ Hwf).
  pose proof (wf_message_records_length _ Hwf) as Hn.
  destruct Hwf as (Hlen & Hcount & Hrs). intros Hshort.
  unfold message_serialize.
  rewrite (for_loop_records m serialize_body) by lia.
  destruct (serialize_loop_partial (records m) 0 (length buffer) buffer Hrs)
    as (k & Hk & Hfit & ->); [reflexivity | exact Hshort |].
  exists k. rewrite Hn in Hk. split; [exact Hk |]. split; [exact Hfit |].
  reflexivity.
Qed.

(** X14. A successful [message_tlv_add] makes [message_serialized_size] grow
    by three bytes of header and the [length] of the record; an add that
    fails leaves it as it was. *)
Theorem message_serialized_size_add (malloc_ok : bool) (m m' : message_t)
    (type : byte) (len : Z) (value : list byte) (r : message_result_t) :
  wf_message m ->
  message_tlv_add malloc_ok m type len value = Ret (r, m') ->
  message_serialized_size m'
  = if decide (r = MESSAGE_SUCCESS)
    then (message_serialized_size m + 3 + Z.to_nat (len mod 65536))%nat
    else message_serialized_size m.
Proof.
  intros Hwf Hadd. pose proof Hwf as (Hlen & Hcount & Hrs).
  pose proof (message_tlv_add_wf _ _ _ _ _ _ _ Hwf Hadd) as (Hlen' & Hcount' & _).
  pose proof (message_tlv_add_records _ _ _ _ _ _ _ Hlen Hadd) as Hspec.
  rewrite !message_serialized_size_sum by lia.
  destruct r; try contradiction; destruct Hspec as [_ ->].
  - rewrite decide_True by reflexivity.
    rewrite sum_list_with_app. cbn [sum_list_with tlv_length]. unfold u16. lia.
  - now rewrite decide_False by discriminate.
  - now rewrite decide_False by discriminate.
Qed.


(** ** Decoding what came over the wire *)

Lemma int32_of_wire (h : endianness) (b3 b2 b1 b0 : byte) :
  i32 (ntohl h (i32 (load h [b3; b2; b1; b0]))) = i32 (be_decode [b3; b2; b1; b0]).
Proof.
  assert (E : ntohl h (i32 (load h [b3; b2; b1; b0]))
              = ntohl h (load h [b3; b2; b1; b0])).
  { unfold ntohl, htonl. now rewrite u32_i32. }
  now rewrite E, ntohl_load.
Qed.

(** X15. The typed getters decode network byte order on either host. On a
    message, parsed or built, whose first record of the type has the size of
    the field: [message_tlv_get_motor_position] returns the three big-endian
    two's complement integers of the twelve bytes, in the order x, y, z;
    [message_tlv_get_current_reading] the big-endian integer of the two
    bytes; [message_tlv_get_command] the byte. The value the destination
    held before does not enter. *)
Theorem typed_get_decodes (m : message_t) (type : byte) (i : nat) (t : tlv_t) :
  wf_message m ->
  first_of_type type (records m) = Some (i, t) ->
  (type = byte_of_Z TLV_MOTOR_POSITION ->
   tlv_length t = 12 ->
   forall position,
     message_tlv_get_motor_position m position
     = Ret (MESSAGE_SUCCESS,
            {| motor_x := i32 (be_decode (take 4 (value_of t)));
               motor_y := i32 (be_decode (take 4 (drop 4 (value_of t))));
               motor_z := i32 (be_decode (take 4 (drop 8 (value_of t)))) |}))
  /\ (type = byte_of_Z TLV_CURRENT_READING ->
      tlv_length t = 2 ->
      forall current,
        message_tlv_get_current_reading m current
        = Ret (MESSAGE_SUCCESS, be_decode (value_of t)))
  /\ (type = byte_of_Z TLV_COMMAND ->
      tlv_length t = 1 ->
      forall command local,
        message_tlv_get_command m command local
        = Ret (MESSAGE_SUCCESS, be_decode (value_of t))).
Proof.
  intros Hwf Hfirst.
  assert (Ht : wf_tlv t).
  { apply list_find_Some in Hfirst as (Hi & _).
    destruct Hwf as (_ & _ & Hrs). rewrite Forall_lookup in Hrs.
    exact (Hrs i t Hi). }
  assert (Hn : Z.of_nat (length (value_of t)) = tlv_length t).
  { unfold wf_tlv, value_of in *. destruct (tlv_value t); simpl; [lia | tauto]. }
  split; [| split]; intros -> Hsize.
  - intros position. unfold message_tlv_get_motor_position.
    rewrite (message_tlv_get_exact m _ i t) by
      (auto; unfold motor_position_bytes;
       rewrite !length_app, !store32_length; lia).
    cbn [exec_bind]. rewrite decide_False by congruence.
    destruct (value_of t)
      as [| a3 [| a2 [| a1 [| a0 [| b3 [| b2 [| b1 [| b0
            [| c3 [| c2 [| c1 [| c0 [| ? ?]]]]]]]]]]]]];
      simpl in Hn; try lia.
    unfold motor_position_of_bytes. cbn [motor_x motor_y motor_z take drop].
    now rewrite !int32_of_wire.
  - intros current. unfold message_tlv_get_current_reading.
    rewrite (message_tlv_get_exact m _ i t) by (auto; rewrite store16_length; lia).
    cbn [exec_bind]. rewrite decide_False by congruence.
    destruct (value_of t) as [| b1 [| b0 [| ? ?]]]; simpl in Hn; try lia.
    now rewrite ntohs_load.
  - intros command local. unfold message_tlv_get_command.
    rewrite (message_tlv_get_exact m _ i t) by (auto; simpl; lia).
    cbn [exec_bind]. rewrite decide_False by congruence.
    destruct (value_of t) as [| b [| ? ?]]; simpl in Hn; try lia.
    rewrite load_byte. do 2 f_equal. unfold be_decode. simpl. lia.
Qed.

End codec_further.

(** ** [message_print] *)

Lemma join_cons (sep part : list byte) (parts : list (list byte)) :
  join sep (part :: parts)
  = part ++ (if decide (parts = []) then [] else sep) ++ join sep parts.
Proof.
  destruct parts as [| p ps]; simpl; [now rewrite app_nil_r | reflexivity].
Qed.

Lemma print_bytes_loop (value : list byte) (k : nat) (out : list byte) :
  (k <= length value)%nat ->
  for_loop (length value - k) k (print_byte_body (Some value) (length value)) out
  = Ret (Continue (out ++ join fmt.space (print_02X <$> drop k value))).
Proof.
  remember (length value - k)%nat as d eqn:Hd. revert k out Hd.
  induction d as [| d IH]; intros k out Hd Hk.
  - simpl. rewrite drop_ge by lia. simpl. now rewrite app_nil_r.
  - destruct (lookup_lt_is_Some_2 value k ltac:(lia)) as [b Hb].
    cbn [for_loop]. unfold print_byte_body at 1. cbn [deref exec_bind].
    rewrite Hb. cbn [exec_bind]. rewrite IH by lia.
    rewrite (drop_S _ _ _ Hb), fmap_cons, join_cons, <- !app_assoc.
    do 4 f_equal.
    destruct (decide (k < length value - 1)%nat) as [Hmore | Hlast].
    + rewrite decide_False; [reflexivity |].
      intros E. apply fmap_nil_inv in E.
      apply (f_equal length) in E. rewrite length_drop in E. simpl in E. lia.
    + rewrite decide_True; [reflexivity |].
      rewrite drop_ge by lia. reflexivity.
Qed.

Lemma print_tlv_body_wf (m : message_t) (i : nat) (t : tlv_t) (out : list byte) :
  tlv_at m i = t ->
  wf_tlv t ->
  print_tlv_body m i out
  = Ret (Continue (out ++ render_tlv t
                   ++ (if decide (i < msg_length m - 1)%nat then fmt.comma else []))).
Proof.
  intros <- Ht. unfold print_tlv_body, render_tlv, value_of. cbv zeta.
  unfold wf_tlv in Ht. destruct (tlv_value (tlv_at m i)) as [value |]; [| tauto].
  destruct Ht as [Hlen _]. rewrite Hlen, Nat2Z.id.
  pose proof (print_bytes_loop value 0) as E.
  rewrite Nat.sub_0_r, drop_0 in E. rewrite E by lia. cbn [exec_bind default].
  now rewrite <- !app_assoc.
Qed.

Lemma print_tlvs_loop (m : message_t) (k : nat) (out : list byte) :
  wf_message m ->
  (k <= msg_length m)%nat ->
  for_loop (msg_length m - k) k (print_tlv_body m) out
  = Ret (Continue (out ++ join fmt.comma (render_tlv <$> drop k (records m)))).
Proof.
  intros Hwf. pose proof (wf_message_records_length _ Hwf) as Hn.
  pose proof Hwf as (Hlen & Hcount & Hrs).
  remember (msg_length m - k)%nat as d eqn:Hd. revert k out Hd.
  induction d as [| d IH]; intros k out Hd Hk.
  - simpl. rewrite drop_ge by lia. simpl. now rewrite app_nil_r.
  - destruct (lookup_lt_is_Some_2 (records m) k ltac:(lia)) as [t Ht].
    assert (Hat : tlv_at m k = t).
    { unfold tlv_at. apply list_lookup_total_correct.
      unfold records in Ht. now apply lookup_take_Some in Ht as [? _]. }
    assert (Hwt : wf_tlv t) by (rewrite Forall_lookup in Hrs; exact (Hrs k t Ht)).
    cbn [for_loop]. rewrite (print_tlv_body_wf m k t out Hat Hwt).
    cbn [exec_bind]. rewrite IH by lia.
    rewrite (drop_S _ _ _ Ht), fmap_cons, join_cons, <- !app_assoc.
    do 3 f_equal.
    destruct (decide (k < msg_length m - 1)%nat) as [Hmore | Hlast].
    + rewrite decide_False; [reflexivity |].
      intros E. apply fmap_nil_inv in E.
      apply (f_equal length) in E. rewrite length_drop in E. simpl in E. lia.
    + rewrite decide_True; [reflexivity |].
      rewrite drop_ge by lia. reflexivity.
Qed.

(** X16. [message_print] writes the count of records in decimal, then the
    records in insertion order, each as its type in decimal and the bytes of
    its value as two upper-case hexadecimal digits each. One space stands
    between two bytes and one comma between two records, none after the last
    byte or the last record, and a record without bytes prints as an empty
    pair of quotes. *)
Theorem message_print_renders (m : message_t) :
  wf_message m -> message_print m = Ret (render_message (records m)).
Proof.
  intros Hwf. unfold message_print, render_message. cbv zeta.
  pose proof (print_tlvs_loop m 0) as E.
  rewrite Nat.sub_0_r, drop_0 in E. rewrite E by (auto; lia). cbn [exec_bind].
  rewrite (wf_message_records_length _ Hwf). now rewrite <- !app_assoc.
Qed.

(** ** The allocator *)

Lemma allocated_app (a b : list heap_call) :
  allocated (a ++ b) = (allocated a + allocated b)%nat.
Proof. unfold allocated. now rewrite List.filter_app, length_app. Qed.

Lemma freed_app (a b : list heap_call) :
  freed (a ++ b) = (freed a + freed b)%nat.
Proof. unfold freed. now rewrite List.filter_app, length_app. Qed.

Section heap_properties.
Context `{Platform}.

(** [message_free] passes the value pointer of every record to [free], in
    order. *)
Lemma message_free_calls_records (m : message_t) :
  (msg_length m <= length (msg_tlv m))%nat ->
  message_free_calls m = (fun t => free_call (tlv_value t)) <$> records m.
Proof.
  intros Hm. unfold message_free_calls.
  rewrite (for_each_records m (fun t calls => calls ++ [free_call (tlv_value t)]))
    by exact Hm.
  generalize (records m) as rs. intros rs.
  assert (E : forall acc,
    fold_left (fun calls t => calls ++ [free_call (tlv_value t)]) rs acc
    = acc ++ ((fun t => free_call (tlv_value t)) <$> rs)).
  { induction rs as [| t rs IH]; intros acc; simpl; [now rewrite app_nil_r |].
    rewrite IH. now rewrite <- app_assoc. }
  apply (E []).
Qed.

Lemma message_free_calls_wf (m : message_t) :
  wf_message m ->
  allocated (message_free_calls m) = 0%nat
  /\ freed (message_free_calls m) = msg_length m.
Proof.
  intros Hwf. pose proof (wf_message_records_length _ Hwf) as Hn.
  destruct Hwf as (Hlen & Hcount & Hrs).
  rewrite message_free_calls_records by lia. rewrite <- Hn. clear Hn.
  induction Hrs as [| t rs Ht _ [IHa IHf]]; [split; reflexivity |].
  unfold allocated, freed in *. rewrite fmap_cons. cbn [List.filter is_allocation].
  unfold wf_tlv in Ht. destruct (tlv_value t); [| tauto].
  cbn [is_release length]. rewrite IHf. auto.
Qed.

Lemma message_free_calls_store (m : message_t) (t : tlv_t) :
  length (msg_tlv m) = MAX_TLV_COUNT ->
  (msg_length m < MAX_TLV_COUNT)%nat ->
  message_free_calls (store_slot (msg_length m) t m) = message_free_calls m.
Proof.
  intros Hlen Hroom.
  rewrite !message_free_calls_records by (rewrite ?store_slot_length; simpl; lia).
  now rewrite records_store_dead.
Qed.

(** One pass of the parser with the calls it makes, case by case. *)
Lemma parse_body_heap_unfold (malloc_ok : nat -> bool) (data : list byte)
    (offset : nat) (m : message_t) (calls : list heap_call) :
  length (msg_tlv m) = MAX_TLV_COUNT ->
  parse_body_heap malloc_ok data offset m calls
  = if decide (MAX_TLV_COUNT <= msg_length m)%nat
    then Ret (Return (MESSAGE_ERROR_TOO_MANY_TLVS, empty_message,
                      calls ++ message_free_calls m))
    else
      match data !! offset with
      | None => Undefined
      | Some type =>
        if decide (length data < offset + 3)%nat
        then Ret (Return (MESSAGE_ERROR_PARSE_ERROR, empty_message,
                          calls ++ message_free_calls m))
        else
          let len := Z.to_nat (wire_length data offset) in
          if decide (length data < offset + 3 + len)%nat
          then Ret (Return (MESSAGE_ERROR_PARSE_ERROR, empty_message,
                            calls ++ message_free_calls m))
          else if negb (malloc_ok (msg_length m))
          then Ret (Return (MESSAGE_ERROR_OUT_OF_MEMORY, empty_message,
                            (calls ++ [malloc_call len None])
                            ++ message_free_calls m))
          else
            let m' := store_slot (msg_length m) (wire_tlv type data offset) m in
            let calls' := calls ++ [malloc_call len (Some (malloc_block len))] in
            if decide (Z_of_byte type = TLV_CHECKSUM)
            then
              do checksum <- message_checksum m';
              do differ <- memcmp_differ (store32 host checksum)
                             (take len (drop (offset + 3) data)) 1;
              if differ
              then Ret (Return (MESSAGE_ERROR_CHECKSUM_MISMATCH, empty_message,
                                calls' ++ message_free_calls m))
              else Ret (Continue ((offset + 3 + len)%nat, incr_length m', calls'))
            else Ret (Continue ((offset + 3 + len)%nat, incr_length m', calls'))
      end.
Proof.
  intros Hlen. unfold parse_body_heap.
  destruct (decide (MAX_TLV_COUNT <= msg_length m)%nat) as [Hfull | Hroom];
    [reflexivity |].
  destruct (data !! offset) as [type |]; [| reflexivity].
  assert (Hi : (msg_length m < length (msg_tlv m))%nat) by lia.
  assert (Hr : (msg_length m < MAX_TLV_COUNT)%nat) by lia.
  unfold sizeof_uint8_t, sizeof_uint16_t.
  replace (offset + 1 + 2)%nat with (offset + 3)%nat by lia.
  destruct (decide (length data < offset + 3)%nat) as [Hshort | Hheader].
  { cbv zeta. slot_stores Hi. now rewrite message_free_calls_store. }
  cbv zeta. slot_stores Hi.
  rewrite memcpy_whole by (rewrite ?store16_length, ?length_drop; lia).
  cbn [exec_bind]. slot_stores Hi.
  rewrite ntohs_load_2 by (rewrite length_take_le; [| rewrite length_drop]; lia).
  fold (wire_length data offset).
  destruct (decide (length data < offset + 3 + Z.to_nat (wire_length data offset))%nat)
    as [Hcut | Hvalue].
  { now rewrite message_free_calls_store. }
  destruct (malloc_ok (msg_length m)); simpl negb; cbv iota.
  2: { slot_stores Hi. now rewrite message_free_calls_store. }
  slot_stores Hi.
  rewrite memcpy_fresh by (rewrite length_drop; lia).
  cbn [exec_bind]. slot_stores Hi. fold (wire_tlv type data offset).
  now rewrite message_free_calls_store.
Qed.


(** One pass with the calls it makes is the pass of [parse_body], and keeps
    the count: as many blocks allocated and not freed as the message has
    records; one more when it returns [MESSAGE_ERROR_CHECKSUM_MISMATCH]. *)
Lemma parse_body_heap_agrees (malloc_ok : nat -> bool) (data : list byte)
    (offset : nat) (m : message_t) (calls : list heap_call) :
  wf_message m ->
  allocated calls = (freed calls + msg_length m)%nat ->
  match parse_body_heap malloc_ok data offset m calls with
  | Ret (Continue (o, m', calls')) =>
      parse_body malloc_ok data offset m = Ret (Continue (o, m'))
      /\ allocated calls' = (freed calls' + msg_length m')%nat
  | Ret (Return (r, m', calls')) =>
      parse_body malloc_ok data offset m = Ret (Return (r, m'))
      /\ allocated calls' = (freed calls' + blocks_left r m')%nat
  | AssertFailed => parse_body malloc_ok data offset m = AssertFailed
  | Undefined => parse_body malloc_ok data offset m = Undefined
  | OutOfFuel => parse_body malloc_ok data offset m = OutOfFuel
  end.
Proof.
  intros Hwf Hbal. pose proof Hwf as (Hlen & Hcount & Hrs).
  destruct (message_free_calls_wf m Hwf) as [Hfa Hff].
  rewrite parse_body_heap_unfold, parse_body_unfold by exact Hlen.
  assert (Hfree : forall extra,
    allocated extra = 0%nat -> freed extra = 0%nat ->
    allocated ((calls ++ extra) ++ message_free_calls m)
    = (freed ((calls ++ extra) ++ message_free_calls m) + 0)%nat).
  { intros extra Ha Hf. rewrite !allocated_app, !freed_app. lia. }
  assert (Hfree0 : allocated (calls ++ message_free_calls m)
                   = (freed (calls ++ message_free_calls m) + 0)%nat).
  { rewrite !allocated_app, !freed_app. lia. }
  destruct (decide (MAX_TLV_COUNT <= msg_length m)%nat); [now split |].
  destruct (data !! offset) as [type |]; [| reflexivity].
  destruct (decide (length data < offset + 3)%nat); [now split |].
  cbv zeta.
  destruct (decide (length data < offset + 3 + _)%nat); [now split |].
  destruct (malloc_ok (msg_length m)); simpl negb; cbv iota.
  2: { split; [reflexivity |]. now apply Hfree. }
  set (len := Z.to_nat (wire_length data offset)).
  assert (Hcont : allocated (calls ++ [malloc_call len (Some (malloc_block len))])
                  = (freed (calls ++ [malloc_call len (Some (malloc_block len))])
                     + S (msg_length m))%nat).
  { rewrite allocated_app, freed_app. unfold allocated at 2, freed at 2. simpl. lia. }
  assert (Hleak : allocated ((calls ++ [malloc_call len (Some (malloc_block len))])
                             ++ message_free_calls m)
                  = (freed ((calls ++ [malloc_call len (Some (malloc_block len))])
                            ++ message_free_calls m) + 1)%nat).
  { rewrite !allocated_app, !freed_app. unfold allocated at 2, freed at 2. simpl. lia. }
  destruct (decide (Z_of_byte type = TLV_CHECKSUM)); [| now split].
  destruct (message_checksum _) as [checksum | | |]; cbn [exec_bind];
    try reflexivity.
  destruct (memcmp_differ _ _ _) as [[|] | | |]; cbn [exec_bind];
    try reflexivity; now split.
Qed.

Lemma parse_loop_heap_agrees (fuel : nat) (malloc_ok : nat -> bool)
    (data : list byte) (offset : nat) (m : message_t) (calls : list heap_call) :
  wf_message m ->
  allocated calls = (freed calls + msg_length m)%nat ->
  match parse_loop_heap fuel malloc_ok data offset m calls with
  | Ret (r, m', calls') =>
      parse_loop fuel malloc_ok data offset m = Ret (r, m')
      /\ allocated calls' = (freed calls' + blocks_left r m')%nat
  | AssertFailed => parse_loop fuel malloc_ok data offset m = AssertFailed
  | Undefined => parse_loop fuel malloc_ok data offset m = Undefined
  | OutOfFuel => parse_loop fuel malloc_ok data offset m = OutOfFuel
  end.
Proof.
  revert offset m calls.
  induction fuel as [| fuel IH]; intros offset m calls Hwf Hbal; [reflexivity |].
  cbn [parse_loop_heap parse_loop].
  destruct (decide (offset < length data)%nat); [| now split].
  pose proof (parse_body_heap_agrees malloc_ok data offset m calls Hwf Hbal) as Hb.
  destruct (parse_body_heap malloc_ok data offset m calls)
    as [[[[o m'] calls'] | [[r m'] calls']] | | |]; cbn [exec_bind].
  - destruct Hb as [E Hbal']. rewrite E. cbn [exec_bind].
    apply IH; [| exact Hbal'].
    exact (parse_body_continue_wf _ _ _ _ _ _ Hwf E).
  - destruct Hb as [E Hbal']. rewrite E. now split.
  - now rewrite Hb.
  - now rewrite Hb.
  - now rewrite Hb.
Qed.

Lemma message_parse_heap_agrees (malloc_ok : nat -> bool) (m0 : message_t)
    (data : list byte) :
  match message_parse_heap malloc_ok m0 data with
  | Ret (r, m, calls) =>
      message_parse malloc_ok m0 data = Ret (r, m)
      /\ allocated calls = (freed calls + blocks_left r m)%nat
  | AssertFailed => message_parse malloc_ok m0 data = AssertFailed
  | Undefined => message_parse malloc_ok m0 data = Undefined
  | OutOfFuel => message_parse malloc_ok m0 data = OutOfFuel
  end.
Proof.
  unfold message_parse_heap, message_parse.
  apply parse_loop_heap_agrees; [apply (wf_message_init m0) | reflexivity].
Qed.

(** X17. The blocks [message_parse] allocates and frees. With
    [MESSAGE_SUCCESS] it has freed nothing that it still needs: the blocks
    left allocated are one per record, and [message_free] then frees exactly
    those. With [MESSAGE_ERROR_TOO_MANY_TLVS], [MESSAGE_ERROR_PARSE_ERROR] or
    [MESSAGE_ERROR_OUT_OF_MEMORY] every block it allocated has been freed.
    With [MESSAGE_ERROR_CHECKSUM_MISMATCH] one block is left allocated, the
    value of the checksum record, while the message it leaves is empty and
    holds no pointer to it: [message_free] is called before the record is
    counted, and does not reach it. *)
Theorem message_parse_heap_balance (malloc_ok : nat -> bool) (m0 m : message_t)
    (data : list byte) (r : message_result_t) :
  message_parse malloc_ok m0 data = Ret (r, m) ->
  exists calls,
    message_parse_heap malloc_ok m0 data = Ret (r, m, calls)
    /\ allocated calls
       = (freed calls
          + match r with
            | MESSAGE_SUCCESS => msg_length m
            | MESSAGE_ERROR_CHECKSUM_MISMATCH => 1
            | _ => 0
            end)%nat
    /\ (r = MESSAGE_SUCCESS ->
        allocated (calls ++ message_free_calls m)
        = freed (calls ++ message_free_calls m))
    /\ (r = MESSAGE_ERROR_CHECKSUM_MISMATCH ->
        msg_length m = 0%nat
        /\ Forall (fun t => tlv_value t = None) (msg_tlv m)
        /\ message_free_calls m = []).
Proof.
  intros Hparse.
  pose proof (message_parse_heap_agrees malloc_ok m0 data) as Hagree.
  destruct (message_parse_heap malloc_ok m0 data) as [[[r' m'] calls] | | |];
    try congruence.
  destruct Hagree as [E Hbal]. rewrite E in Hparse. injection Hparse as -> ->.
  exists calls. split; [reflexivity |]. split; [exact Hbal |]. split.
  - intros ->. simpl in Hbal.
    assert (Hwf : wf_message m).
    { rewrite message_parse_from in E.
      destruct (parse_from_outcome malloc_ok data 0 empty_message
                  (wf_message_init m0)) as [(r1 & m1 & E1 & Hwf1 & _) | E1];
        rewrite E1 in E; [| discriminate].
      now injection E as _ <-. }
    destruct (message_free_calls_wf m Hwf) as [Hfa Hff].
    rewrite allocated_app, freed_app. lia.
  - intros ->. rewrite message_parse_from in E.
    destruct (parse_from_outcome malloc_ok data 0 empty_message
                (wf_message_init m0)) as [(r1 & m1 & E1 & _ & Hempty) | E1];
      rewrite E1 in E; [| discriminate].
    injection E as -> ->. rewrite Hempty by discriminate.
    split; [reflexivity |]. split; [| reflexivity].
    apply Forall_replicate. reflexivity.
Qed.

End heap_properties.

(** * Properties of serial.c *)

Section serial_properties.
Context `{Environment}.

(** Runs the straight-line part of a function of serial.c. *)
Ltac serial_run :=
  unfold open, tcgetattr, tcsetattr, close, read, write, frame_message,
    uci_get_string, syslog, set_ufd_fd, set_ready, set_device, set_ufd_cb,
    store_device, load_device, pointee, emit, now_, serial_ret, with_calls,
    with_device, serial_bind;
  cbn [exec_bind fst snd motors accelerometer trace ufd_fd ready device ufd_cb].

(** The same, with the count of the calls made so far as a sum. *)
Ltac serial_time :=
  serial_run; rewrite ?length_app; cbn [length];
  rewrite <- ?Nat.add_assoc; cbn [Nat.add].

Lemma with_calls_with_calls (a b : list serial_event) (s : serial_state) :
  with_calls b (with_calls a s) = with_calls (a ++ b) s.
Proof. unfold with_calls. simpl. now rewrite app_assoc. Qed.

Lemma serial_init_device_unfold (id : serial_device_id) (quiet : Z)
    (s : serial_state) :
  serial_init_device (Some id) quiet s
  = let d := device_of id s in
    if decide (ready d <> 0 \/ device d = None)
    then Ret (-1, s)
    else
      let t := length (trace s) in
      let path := default [] (device d) in
      let fd := env_open t path in
      let opened := mk_serial_device (ready d) (device d) fd (ufd_cb d) in
      if decide (fd < 0)
      then Ret (-1, with_calls (open_ path fd
                                :: unless_quiet quiet serial_text.open_failed)
                      (with_device id opened s))
      else
        let r1 := env_tcgetattr (t + 1) fd in
        if decide (r1 < 0)
        then Ret (-1, with_calls
                        ([open_ path fd; tcgetattr_ fd r1]
                         ++ unless_quiet quiet serial_text.get_configuration_failed
                         ++ [close_ fd])
                        (with_device id opened s))
        else
          let r2 := env_tcsetattr (t + 2) fd in
          if decide (r2 < 0)
          then Ret (-1, with_calls
                          ([open_ path fd; tcgetattr_ fd r1; tcsetattr_ fd r2]
                           ++ unless_quiet quiet serial_text.configure_failed
                           ++ [close_ fd])
                          (with_device id opened s))
          else Ret (0, with_calls
                         [open_ path fd; tcgetattr_ fd r1; tcsetattr_ fd r2;
                          uloop_fd_add_ id;
                          syslog_ LOG_INFO serial_text.initialized]
                         (with_device id
                            (mk_serial_device 1 (device d) fd true) s)).
Proof.
  destruct s as [dm da tr].
  destruct id; cbv zeta; unfold serial_init_device, unless_quiet;
    cbn [device_of motors accelerometer trace];
    unfold serial_bind at 1; cbn [load_device exec_bind fst snd motors accelerometer].
  all: match goal with
       | |- context [decide (ready ?d <> 0 \/ device ?d = None)] =>
           destruct (decide (ready d <> 0 \/ device d = None)); [reflexivity |]
       end.
  all: repeat first
         [ progress serial_time
         | match goal with
           | |- context [decide (?a < 0)] => destruct (decide (a < 0))
           | |- context [decide (?q = 0)] => destruct (decide (q = 0))
           end ];
       rewrite <- ?app_assoc; reflexivity.
Qed.


Lemma serial_reinit_device_unfold (id : serial_device_id) (s : serial_state) :
  serial_reinit_device (Some id) s
  = let d := device_of id s in
    serial_init_device (Some id) 1
      (with_calls [uloop_fd_delete_ id; close_ (ufd_fd d)]
         (with_device id (mk_serial_device 0 (device d) (ufd_fd d) (ufd_cb d)) s)).
Proof.
  destruct s as [dm da tr]. unfold serial_reinit_device.
  destruct id; cbv zeta; cbn [device_of motors accelerometer];
    serial_run; rewrite <- ?app_assoc; reflexivity.
Qed.

Lemma serial_get_device_Some (device : Z) (id : serial_device_id) :
  serial_get_device device = Some id ->
  device = match id with
           | device_motors => DEVICE_MOTORS
           | device_accelerometer => DEVICE_ACCELEROMETER
           end.
Proof.
  unfold serial_get_device.
  destruct (decide (device = DEVICE_MOTORS)); [now intros [= <-] |].
  destruct (decide (device = DEVICE_ACCELEROMETER)); [now intros [= <-] |].
  discriminate.
Qed.

(** X18. [serial_send_message] for a device that is neither of the two
    enumerators: [serial_get_device] returns a null pointer, which
    [serial_send_message] hands to [serial_reinit_device], whose first
    statement writes through it. [serial_set_message_handler] with the same
    argument logs an error and returns. *)
Theorem serial_send_message_unknown_device (fuel : nat) (device : Z)
    (message : message_t) (s : serial_state) :
  device <> DEVICE_MOTORS ->
  device <> DEVICE_ACCELEROMETER ->
  serial_get_device device = None
  /\ serial_send_message fuel device message s = Undefined
  /\ serial_set_message_handler device s
     = Ret (tt, with_calls [syslog_ LOG_ERR serial_text.set_handler_failed] s).
Proof.
  intros Hm Ha.
  assert (E : serial_get_device device = None).
  { unfold serial_get_device. now rewrite !decide_False. }
  split; [exact E |]. split.
  - unfold serial_send_message. rewrite E. reflexivity.
  - unfold serial_set_message_handler. rewrite E. reflexivity.
Qed.


Lemma with_device_same (id : serial_device_id) (s : serial_state) :
  with_device id (device_of id s) s = s.
Proof. destruct s, id; reflexivity. Qed.

Lemma with_calls_nil (s : serial_state) : with_calls [] s = s.
Proof. destruct s. unfold with_calls. simpl. now rewrite app_nil_r. Qed.

Lemma device_of_with_device (id : serial_device_id) (d : serial_device)
    (s : serial_state) :
  device_of id (with_device id d s) = d.
Proof. destruct id; reflexivity. Qed.

Lemma device_of_with_calls (id : serial_device_id) (calls : list serial_event)
    (s : serial_state) :
  device_of id (with_calls calls s) = device_of id s.
Proof. destruct id; reflexivity. Qed.

Lemma with_device_with_device (id : serial_device_id) (d d' : serial_device)
    (s : serial_state) :
  with_device id d (with_device id d' s) = with_device id d s.
Proof. destruct id; reflexivity. Qed.

Lemma with_device_with_calls (id : serial_device_id) (d : serial_device)
    (calls : list serial_event) (s : serial_state) :
  with_device id d (with_calls calls s) = with_calls calls (with_device id d s).
Proof. destruct id; reflexivity. Qed.

Lemma trace_with_calls (calls : list serial_event) (s : serial_state) :
  trace (with_calls calls s) = trace s ++ calls.
Proof. reflexivity. Qed.

Lemma trace_with_device (id : serial_device_id) (d : serial_device)
    (s : serial_state) :
  trace (with_device id d s) = trace s.
Proof. destruct id; reflexivity. Qed.

(** [serial_init_device] on a device returns 0 or -1, touches no other
    device, passes no message on, and leaves the device ready exactly when
    it returns 0, then with the descriptor that [open] returned. *)
Lemma serial_init_device_returns (id : serial_device_id) (quiet : Z)
    (s : serial_state) :
  exists r calls d',
    serial_init_device (Some id) quiet s
    = Ret (r, with_calls calls (with_device id d' s))
    /\ Forall (fun e => is_transmission e = false) calls
    /\ Forall (fun e => forall key found, e <> uci_get_string_ key found) calls
    /\ device d' = device (device_of id s)
    /\ ((r = -1 /\ ready d' = ready (device_of id s))
        \/ (r = 0 /\ ready d' = 1 /\ 0 <= ufd_fd d' /\ ufd_cb d' = true
            /\ device d' <> None
            /\ exists path,
                 device (device_of id s) = Some path
                 /\ ufd_fd d' = env_open (length (trace s)) path
                 /\ 0 <= env_tcgetattr (length (trace s) + 1) (ufd_fd d')
                 /\ 0 <= env_tcsetattr (length (trace s) + 2) (ufd_fd d'))).
Proof.
  rewrite serial_init_device_unfold. cbv zeta.
  set (d := device_of id s).
  destruct (decide (ready d <> 0 \/ device d = None)) as [| Hgo].
  { exists (-1), [], d. rewrite with_calls_nil.
    unfold d. rewrite with_device_same. repeat split; auto. }
  assert (Hpath : exists path, device d = Some path).
  { destruct (device d) as [path |]; [now exists path | tauto]. }
  destruct Hpath as [path Hpath]. rewrite Hpath.
  change (default [] (Some path)) with path.
  set (fd := env_open (length (trace s)) path).
  assert (Hq : forall format,
    Forall (fun e => is_transmission e = false) (unless_quiet quiet format)).
  { intros format. unfold unless_quiet. destruct (decide (quiet = 0));
      repeat constructor. }
  assert (Hk : forall format,
    Forall (fun e => forall key found, e <> uci_get_string_ key found)
      (unless_quiet quiet format)).
  { intros format. unfold unless_quiet. destruct (decide (quiet = 0));
      repeat constructor. discriminate. }
  assert (Hlists : forall before format after,
    Forall (fun e => is_transmission e = false) before ->
    Forall (fun e => forall key found, e <> uci_get_string_ key found) before ->
    Forall (fun e => is_transmission e = false) after ->
    Forall (fun e => forall key found, e <> uci_get_string_ key found) after ->
    Forall (fun e => is_transmission e = false)
      (before ++ unless_quiet quiet format ++ after)
    /\ Forall (fun e => forall key found, e <> uci_get_string_ key found)
         (before ++ unless_quiet quiet format ++ after)).
  { intros before format after Hb1 Hb2 Ha1 Ha2.
    split; repeat apply Forall_app_2; auto. }
  destruct (decide (fd < 0)).
  { eexists (-1), _, _. split; [reflexivity |].
    destruct (Hlists [open_ path fd] serial_text.open_failed [])
      as [H1 H2]; try (repeat constructor; discriminate).
    rewrite app_nil_r in H1, H2.
    split; [exact H1 |]. split; [exact H2 |]. split; [reflexivity |].
    left. auto. }
  destruct (decide (env_tcgetattr (length (trace s) + 1) fd < 0)).
  { eexists (-1), _, _. split; [reflexivity |].
    destruct (Hlists [open_ path fd;
                      tcgetattr_ fd (env_tcgetattr (length (trace s) + 1) fd)]
                serial_text.get_configuration_failed [close_ fd])
      as [H1 H2]; try (repeat constructor; discriminate).
    split; [exact H1 |]. split; [exact H2 |].
    split; [reflexivity | left; auto]. }
  destruct (decide (env_tcsetattr (length (trace s) + 2) fd < 0)).
  { eexists (-1), _, _. split; [reflexivity |].
    destruct (Hlists [open_ path fd;
                      tcgetattr_ fd (env_tcgetattr (length (trace s) + 1) fd);
                      tcsetattr_ fd (env_tcsetattr (length (trace s) + 2) fd)]
                serial_text.configure_failed [close_ fd])
      as [H1 H2]; try (repeat constructor; discriminate).
    split; [exact H1 |]. split; [exact H2 |].
    split; [reflexivity | left; auto]. }
  eexists 0, _, _. split; [reflexivity |].
  split; [repeat constructor |].
  split; [repeat constructor; discriminate |]. split; [reflexivity |].
  right. cbn [ready ufd_fd ufd_cb device]. repeat split; try lia.
  - discriminate.
  - exists path. repeat split; try lia.
Qed.

Lemma serial_send_message_reinit (fuel : nat) (dev : Z)
    (id : serial_device_id) (message : message_t) (s : serial_state) :
  serial_get_device dev = Some id ->
  ready (device_of id s) = 0 ->
  serial_send_message fuel dev message s
  = (run _ <- serial_reinit_device (Some id); serial_ret (-1)) s.
Proof.
  intros Hid Hready. unfold serial_send_message. rewrite Hid.
  assert (Hnot : (run d <- load_device (Some id);
                  serial_ret (bool_decide (ready d = 0))) s
                 = Ret (true, s)).
  { destruct s, id; serial_run; cbn [device_of motors accelerometer] in Hready;
      now rewrite bool_decide_eq_true_2. }
  unfold serial_bind at 1. rewrite Hnot. reflexivity.
Qed.

(** What [serial_send_message] does with a device that is not ready. *)
Lemma serial_send_message_not_ready_calls (fuel : nat) (dev : Z)
    (id : serial_device_id) (message : message_t) (s : serial_state) :
  serial_get_device dev = Some id ->
  ready (device_of id s) = 0 ->
  exists calls d',
    serial_send_message fuel dev message s
    = Ret (-1,
           with_calls
             ([uloop_fd_delete_ id; close_ (ufd_fd (device_of id s))] ++ calls)
             (with_device id d' s)).
Proof.
  intros Hid Hready. unfold serial_send_message. rewrite Hid.
  assert (Hnot : (run d <- load_device (Some id);
                  serial_ret (bool_decide (ready d = 0))) s
                 = Ret (true, s)).
  { destruct s, id; serial_run; cbn [device_of motors accelerometer] in Hready;
      now rewrite bool_decide_eq_true_2. }
  unfold serial_bind at 1. rewrite Hnot. cbn [exec_bind fst snd].
  unfold serial_bind at 1. rewrite serial_reinit_device_unfold. cbv zeta.
  destruct (serial_init_device_returns id 1
              (with_calls [uloop_fd_delete_ id; close_ (ufd_fd (device_of id s))]
                 (with_device id
                    (mk_serial_device 0 (device (device_of id s))
                       (ufd_fd (device_of id s)) (ufd_cb (device_of id s))) s)))
    as (r & calls & d' & Hinit & _).
  rewrite Hinit. cbn [exec_bind fst snd]. exists calls, d'.
  unfold serial_ret.
  rewrite with_device_with_calls, with_device_with_device, with_calls_with_calls.
  reflexivity.
Qed.

(** X19. [serial_send_message] to a device that is not ready returns -1
    without framing the message or writing a byte of it. What it does is
    re-initialise the device: it deletes the descriptor from the event loop,
    closes it and opens the device again; and when that succeeds and leaves
    the device ready, it still returns -1, the message being dropped. *)
Theorem serial_send_message_not_ready (fuel : nat) (dev : Z)
    (id : serial_device_id) (message : message_t) (s : serial_state) :
  serial_get_device dev = Some id ->
  ready (device_of id s) = 0 ->
  exists calls d',
    serial_send_message fuel dev message s
    = Ret (-1,
           with_calls
             ([uloop_fd_delete_ id; close_ (ufd_fd (device_of id s))] ++ calls)
             (with_device id d' s))
    /\ Forall (fun e => is_transmission e = false) calls
    /\ (forall path,
          device (device_of id s) = Some path ->
          let fd := env_open (length (trace s) + 2) path in
          0 <= fd ->
          0 <= env_tcgetattr (length (trace s) + 3) fd ->
          0 <= env_tcsetattr (length (trace s) + 4) fd ->
          ready d' = 1 /\ ufd_fd d' = fd).
Proof.
  intros Hid Hready. unfold serial_send_message. rewrite Hid.
  assert (Hnot : (run d <- load_device (Some id);
                  serial_ret (bool_decide (ready d = 0))) s
                 = Ret (true, s)).
  { destruct s, id; serial_run; cbn [device_of motors accelerometer] in Hready;
      now rewrite bool_decide_eq_true_2. }
  unfold serial_bind at 1. rewrite Hnot. cbn [exec_bind fst snd].
  unfold serial_bind at 1. rewrite serial_reinit_device_unfold. cbv zeta.
  set (d := device_of id s).
  set (s0 := with_calls [uloop_fd_delete_ id; close_ (ufd_fd d)]
               (with_device id (mk_serial_device 0 (device d) (ufd_fd d) (ufd_cb d))
                  s)).
  pose proof (serial_init_device_unfold id 1 s0) as Hunfold.
  destruct (serial_init_device_returns id 1 s0)
    as (r & calls & d' & Hinit & Hcalls & _ & Hdev & Hcases).
  rewrite Hinit. cbn [exec_bind fst snd]. exists calls, d'.
  split; [| split; [exact Hcalls |]].
  - unfold serial_ret, s0.
    rewrite with_device_with_calls, with_device_with_device, with_calls_with_calls.
    reflexivity.
  - intros path Hpath Hfd Hget Hset.
    set (fd := env_open (length (trace s) + 2) path) in *.
    assert (Hlen : length (trace s0) = (length (trace s) + 2)%nat).
    { unfold s0. rewrite trace_with_calls, trace_with_device, length_app.
      reflexivity. }
    assert (Hd0 : device_of id s0
                  = mk_serial_device 0 (device d) (ufd_fd d) (ufd_cb d)).
    { unfold s0. now rewrite device_of_with_calls, device_of_with_device. }
    rewrite Hinit in Hunfold. cbv zeta in Hunfold.
    rewrite Hd0 in Hunfold. cbn [ready device ufd_fd ufd_cb] in Hunfold.
    fold d in Hpath. rewrite Hpath, Hlen in Hunfold.
    change (default [] (Some path)) with path in Hunfold.
    rewrite decide_False in Hunfold by (intros [? | ?]; [lia | discriminate]).
    replace (length (trace s) + 2 + 1)%nat with (length (trace s) + 3)%nat
      in Hunfold by lia.
    replace (length (trace s) + 2 + 2)%nat with (length (trace s) + 4)%nat
      in Hunfold by lia.
    fold fd in Hunfold.
    rewrite !decide_False in Hunfold by lia.
    assert (Hstate := f_equal (fun x => match x with
                                        | Ret (_, st) => device_of id st
                                        | _ => d'
                                        end) Hunfold).
    cbv beta iota in Hstate.
    rewrite !device_of_with_calls, !device_of_with_device in Hstate.
    subst d'. split; reflexivity.
Qed.


(** ** The loop of [serial_send_message] *)

Lemma take_split (l : list byte) (w n : nat) :
  (w <= n)%nat -> (n <= length l)%nat ->
  take w (take n l) ++ take (n - w) (drop w l) = take n l.
Proof.
  intros Hw Hn. rewrite take_take, Nat.min_l by exact Hw.
  rewrite <- (take_drop w l) at 3.
  rewrite take_app_ge by (rewrite length_take; lia).
  rewrite length_take, Nat.min_l by lia. reflexivity.
Qed.

(** One pass of the loop that writes. *)
Lemma send_loop_pass (fuel : nat) (id : serial_device_id) (buffer : list byte)
    (size : Z) (offset : nat) (s : serial_state) :
  Z.of_nat offset < size ->
  let fd := ufd_fd (device_of id s) in
  let bytes := take (Z.to_nat (size - Z.of_nat offset)) (drop offset buffer) in
  let written := env_write (length (trace s)) fd bytes in
  send_loop (S fuel) (Some id) buffer size offset s
  = if decide (written < 0)
    then
      (run _ <- serial_reinit_device (Some id); serial_ret (-1))
        (with_calls [write_ fd bytes written;
                     syslog_ LOG_ERR serial_text.write_failed] s)
    else send_loop fuel (Some id) buffer size (offset + Z.to_nat written)%nat
           (with_calls [write_ fd bytes written] s).
Proof.
  intros Hin. cbv zeta. cbn [send_loop]. rewrite decide_True by exact Hin.
  destruct s as [dm da tr].
  destruct id; serial_run; cbn [device_of motors accelerometer];
    destruct (decide (_ < 0)); serial_run; rewrite <- ?app_assoc; reflexivity.
Qed.

(** When every call of [write] takes at least one byte, the loop ends
    after it has written every byte of the frame, once and in order. *)
Lemma send_loop_sends (fuel : nat) (id : serial_device_id) (buffer : list byte)
    (size : Z) (offset : nat) (s : serial_state) :
  (forall t fd bytes,
     bytes <> [] -> 0 < env_write t fd bytes <= Z.of_nat (length bytes)) ->
  size <= Z.of_nat (length buffer) ->
  Z.of_nat offset <= size ->
  size - Z.of_nat offset < Z.of_nat fuel ->
  exists calls,
    send_loop fuel (Some id) buffer size offset s = Ret (0, with_calls calls s)
    /\ sent calls = take (Z.to_nat size - offset) (drop offset buffer)
    /\ Forall (fun e => exists bytes result,
                 e = write_ (ufd_fd (device_of id s)) bytes result) calls
    /\ (length calls <= Z.to_nat size - offset)%nat.
Proof.
  intros Hwrite Hsize. revert offset s.
  induction fuel as [| fuel IH]; intros offset s Hoffset Hfuel; [lia |].
  destruct (decide (Z.of_nat offset < size)) as [Hin | Hout].
  - rewrite send_loop_pass by exact Hin. cbv zeta.
    set (fd := ufd_fd (device_of id s)).
    set (bytes := take (Z.to_nat (size - Z.of_nat offset)) (drop offset buffer)).
    assert (Hlen : length bytes = Z.to_nat (size - Z.of_nat offset)).
    { unfold bytes. rewrite length_take, length_drop. lia. }
    assert (Hne : bytes <> []).
    { intros E. rewrite E in Hlen. simpl in Hlen. lia. }
    pose proof (Hwrite (length (trace s)) fd bytes Hne) as Hw.
    set (written := env_write (length (trace s)) fd bytes) in *.
    rewrite decide_False by lia.
    destruct (IH (offset + Z.to_nat written)%nat
                 (with_calls [write_ fd bytes written] s))
      as (calls & Hloop & Hsent & Hcalls & Hcount); [lia | lia |].
    exists (write_ fd bytes written :: calls). split; [| split; [| split]].
    + rewrite Hloop, with_calls_with_calls. reflexivity.
    + unfold sent in *. rewrite fmap_cons. cbn [concat accepted].
      rewrite Hsent. unfold bytes.
      replace (Z.to_nat (size - Z.of_nat offset))
        with (Z.to_nat size - offset)%nat by lia.
      replace (Z.to_nat size - (offset + Z.to_nat written))%nat
        with (Z.to_nat size - offset - Z.to_nat written)%nat by lia.
      rewrite <- drop_drop.
      apply take_split; [lia | rewrite length_drop; lia].
    + constructor; [now exists bytes, written |].
      now rewrite device_of_with_calls in Hcalls.
    + simpl length. lia.
  - exists []. cbn [send_loop]. rewrite decide_False by exact Hout.
    split; [now rewrite with_calls_nil |]. split; [| split; [constructor |]].
    + replace (Z.to_nat size - offset)%nat with 0%nat by lia. reflexivity.
    + simpl. lia.
Qed.

(** When [write] keeps returning 0, the loop does not end. *)
Lemma send_loop_spins (fuel : nat) (id : serial_device_id) (buffer : list byte)
    (size : Z) (offset : nat) (s : serial_state) :
  (forall t fd bytes, env_write t fd bytes = 0) ->
  Z.of_nat offset < size ->
  send_loop fuel (Some id) buffer size offset s = OutOfFuel.
Proof.
  intros Hzero Hin. revert s. induction fuel as [| fuel IH]; intros s;
    [reflexivity |].
  rewrite send_loop_pass by exact Hin. cbv zeta. rewrite Hzero.
  rewrite decide_False by lia. simpl Z.to_nat. rewrite Nat.add_0_r. apply IH.
Qed.

(** The part of [serial_send_message] before the loop, on a device that is
    ready and open. *)
Lemma serial_send_message_ready (fuel : nat) (dev : Z) (id : serial_device_id)
    (message : message_t) (s : serial_state) :
  serial_get_device dev = Some id ->
  ready (device_of id s) <> 0 ->
  0 <= ufd_fd (device_of id s) ->
  let framed := env_frame_message (length (trace s)) FRAME_MAX_LENGTH message in
  let s' := with_calls [frame_message_ FRAME_MAX_LENGTH message
                          (fst framed) (snd framed)] s in
  serial_send_message fuel dev message s
  = if decide (fst framed < 0)
    then Ret (-1, s')
    else send_loop fuel (Some id) (snd framed) (fst framed) 0 s'.
Proof.
  intros Hid Hready Hfd. cbv zeta. unfold serial_send_message. rewrite Hid.
  destruct (env_frame_message (length (trace s)) FRAME_MAX_LENGTH message)
    as [size buffer] eqn:Eframe.
  destruct s as [dm da tr].
  destruct id; cbn [device_of motors accelerometer trace] in *; serial_run;
    rewrite bool_decide_eq_false_2 by exact Hready;
    cbv beta; cbn [motors accelerometer trace];
    rewrite decide_False by lia;
    cbv beta; cbn [motors accelerometer trace];
    rewrite Eframe; cbn [fst snd];
    destruct (decide (size < 0)); reflexivity.
Qed.

(** X20. [serial_send_message] to a device that is ready, when the frame
    layer gives a frame that fits its buffer and every [write] takes at
    least one of the bytes it is offered: the function returns 0 after it
    has passed the whole frame to [write], every byte once and in order,
    resuming after each short write at the first byte not yet taken. The
    devices are left as they were. At most as many calls of [write] are
    made as the frame has bytes. *)
Theorem serial_send_message_sends (fuel : nat) (dev : Z) (id : serial_device_id)
    (message : message_t) (s : serial_state) (size : Z) (buffer : list byte) :
  serial_get_device dev = Some id ->
  ready (device_of id s) <> 0 ->
  0 <= ufd_fd (device_of id s) ->
  env_frame_message (length (trace s)) FRAME_MAX_LENGTH message = (size, buffer) ->
  0 <= size <= Z.of_nat (length buffer) ->
  (forall t fd bytes,
     bytes <> [] -> 0 < env_write t fd bytes <= Z.of_nat (length bytes)) ->
  size < Z.of_nat fuel ->
  exists calls,
    serial_send_message fuel dev message s
    = Ret (0, with_calls
                (frame_message_ FRAME_MAX_LENGTH message size buffer :: calls) s)
    /\ sent calls = take (Z.to_nat size) buffer
    /\ Forall (fun e => exists bytes result,
                 e = write_ (ufd_fd (device_of id s)) bytes result) calls
    /\ (length calls <= Z.to_nat size)%nat.
Proof.
  intros Hid Hready Hfd Hframe Hsize Hwrite Hfuel.
  rewrite (serial_send_message_ready _ _ id) by assumption. cbv zeta.
  rewrite Hframe. cbn [fst snd]. rewrite decide_False by lia.
  destruct (send_loop_sends fuel id buffer size 0
              (with_calls [frame_message_ FRAME_MAX_LENGTH message size buffer] s)
              Hwrite)
    as (calls & Hloop & Hsent & Hcalls & Hcount); [lia | lia | lia |].
  exists calls. rewrite Hloop, with_calls_with_calls.
  rewrite device_of_with_calls in Hcalls.
  rewrite Nat.sub_0_r, drop_0 in Hsent. rewrite Nat.sub_0_r in Hcount.
  auto.
Qed.

(** X21. [serial_send_message] to a device that is ready, when the frame
    layer gives a frame that is not empty and [write] keeps returning 0: the
    loop calls [write] again with the same bytes, and the function does not
    return, however many passes it is given. *)
Theorem serial_send_message_spins (fuel : nat) (dev : Z) (id : serial_device_id)
    (message : message_t) (s : serial_state) :
  serial_get_device dev = Some id ->
  ready (device_of id s) <> 0 ->
  0 <= ufd_fd (device_of id s) ->
  0 < fst (env_frame_message (length (trace s)) FRAME_MAX_LENGTH message) ->
  (forall t fd bytes, env_write t fd bytes = 0) ->
  serial_send_message fuel dev message s = OutOfFuel.
Proof.
  intros Hid Hready Hfd Hframe Hzero.
  rewrite (serial_send_message_ready _ _ id) by assumption. cbv zeta.
  rewrite decide_False by lia. apply send_loop_spins; [exact Hzero | lia].
Qed.


(** ** A descriptor closed twice *)

Lemma serial_start_device_unfold (id : serial_device_id) (s : serial_state) :
  serial_start_device (Some id) s
  = serial_init_device (Some id) 0 (with_calls [frame_parser_init_ id] s).
Proof.
  destruct s as [dm da tr]. unfold serial_start_device.
  destruct id; serial_run; reflexivity.
Qed.

(** X22. A device whose configuration cannot be read. [serial_start_device]
    opens it, fails in [tcgetattr], closes the descriptor and returns -1;
    but the descriptor stays in [ufd.fd]. The next [serial_send_message] to
    the device finds it not ready and re-initialises it, which closes
    [ufd.fd] first: the same descriptor is closed a second time, no call of
    [open] having been made in between. *)
Theorem serial_descriptor_closed_twice (fuel : nat) (dev : Z)
    (id : serial_device_id) (message : message_t) (s : serial_state)
    (path : list byte) :
  serial_get_device dev = Some id ->
  ready (device_of id s) = 0 ->
  device (device_of id s) = Some path ->
  let fd := env_open (length (trace s) + 1) path in
  let r := env_tcgetattr (length (trace s) + 2) fd in
  0 <= fd ->
  r < 0 ->
  exists s1,
    serial_start_device (Some id) s = Ret (-1, s1)
    /\ ready (device_of id s1) = 0
    /\ ufd_fd (device_of id s1) = fd
    /\ trace s1
       = trace s
         ++ [frame_parser_init_ id; open_ path fd; tcgetattr_ fd r;
             syslog_ LOG_ERR serial_text.get_configuration_failed; close_ fd]
    /\ exists s2 calls,
         serial_send_message fuel dev message s1 = Ret (-1, s2)
         /\ trace s2 = trace s1 ++ [uloop_fd_delete_ id; close_ fd] ++ calls.
Proof.
  intros Hid Hready Hpath fd r Hfd Hr.
  rewrite serial_start_device_unfold, serial_init_device_unfold. cbv zeta.
  rewrite device_of_with_calls, Hready, Hpath.
  change (default [] (Some path)) with path.
  rewrite decide_False by (intros [? | ?]; [lia | discriminate]).
  rewrite trace_with_calls, length_app. cbn [length].
  rewrite <- !Nat.add_assoc. cbn [Nat.add]. fold fd. fold r.
  rewrite decide_False by lia. rewrite decide_True by exact Hr.
  eexists. split; [reflexivity |].
  rewrite device_of_with_calls, device_of_with_device.
  split; [reflexivity |]. split; [reflexivity |].
  split.
  { rewrite trace_with_calls, with_device_with_calls, trace_with_calls,
      trace_with_device, <- app_assoc. reflexivity. }
  set (s1 := with_calls _ _).
  assert (Hd1 : device_of id s1 = mk_serial_device 0 (Some path) fd
                                    (ufd_cb (device_of id s))).
  { unfold s1. now rewrite device_of_with_calls, device_of_with_device. }
  destruct (serial_send_message_not_ready_calls fuel dev id message s1 Hid)
    as (calls & d' & Hsend); [now rewrite Hd1 |].
  rewrite Hd1 in Hsend. cbn [ufd_fd] in Hsend.
  eexists _, calls. split; [exact Hsend |].
  now rewrite trace_with_calls, trace_with_device.
Qed.

(** ** What holds of the devices between calls *)

Lemma serial_ok_with_calls (calls : list serial_event) (s : serial_state) :
  serial_ok s -> serial_ok (with_calls calls s).
Proof. intros Hok. exact Hok. Qed.

Lemma serial_ok_with_device (id : serial_device_id) (d : serial_device)
    (s : serial_state) :
  serial_ok s -> device_ok d -> serial_ok (with_device id d s).
Proof. intros [Hm Ha] Hd. destruct id; split; assumption. Qed.

Lemma serial_ok_device_of (id : serial_device_id) (s : serial_state) :
  serial_ok s -> device_ok (device_of id s).
Proof. intros [Hm Ha]. destruct id; assumption. Qed.

Lemma serial_init_device_ok (id : serial_device_id) (quiet : Z)
    (s : serial_state) :
  serial_ok s ->
  exists r s',
    serial_init_device (Some id) quiet s = Ret (r, s')
    /\ serial_ok s'
    /\ (r = 0 /\ ready (device_of id s') = 1
        \/ r = -1 /\ ready (device_of id s') = ready (device_of id s)).
Proof.
  intros Hok. rewrite serial_init_device_unfold. cbv zeta.
  set (d := device_of id s).
  destruct (decide (ready d <> 0 \/ device d = None)) as [| Hgo].
  { exists (-1), s. auto. }
  assert (Hready : ready d = 0) by (destruct (decide (ready d = 0)); tauto).
  assert (Hopened : forall fd,
    device_ok (mk_serial_device (ready d) (device d) fd (ufd_cb d))).
  { intros fd. left. exact Hready. }
  repeat match goal with
         | |- context [decide (?a < 0)] => destruct (decide (a < 0))
         end.
  1-3: eexists (-1), _; split; [reflexivity |]; split;
    [ apply serial_ok_with_calls, serial_ok_with_device; auto
    | right; now rewrite device_of_with_calls, device_of_with_device ].
  eexists 0, _. split; [reflexivity |]. split.
  - apply serial_ok_with_calls, serial_ok_with_device; [exact Hok |].
    right. cbn [ready ufd_fd ufd_cb device]. repeat split; try lia. tauto.
  - left. now rewrite device_of_with_calls, device_of_with_device.
Qed.

Lemma serial_start_device_ok (id : serial_device_id) (s : serial_state) :
  serial_ok s ->
  exists r s',
    serial_start_device (Some id) s = Ret (r, s')
    /\ serial_ok s'
    /\ (r = 0 /\ ready (device_of id s') = 1
        \/ r = -1 /\ ready (device_of id s') = ready (device_of id s)).
Proof.
  intros Hok. rewrite serial_start_device_unfold.
  destruct (serial_init_device_ok id 0 (with_calls [frame_parser_init_ id] s))
    as (r & s' & Hrun & Hok' & Hr); [now apply serial_ok_with_calls |].
  exists r, s'. rewrite device_of_with_calls in Hr. auto.
Qed.

Lemma serial_reinit_device_ok (id : serial_device_id) (s : serial_state) :
  serial_ok s ->
  exists r s', serial_reinit_device (Some id) s = Ret (r, s') /\ serial_ok s'.
Proof.
  intros Hok. rewrite serial_reinit_device_unfold. cbv zeta.
  edestruct serial_init_device_ok as (r & s' & Hrun & Hok' & _);
    [| exists r, s'; split; [exact Hrun | exact Hok']].
  apply serial_ok_with_calls, serial_ok_with_device; [exact Hok | now left].
Qed.

Lemma send_loop_ok (fuel : nat) (id : serial_device_id) (buffer : list byte)
    (size : Z) (offset : nat) (s : serial_state) :
  serial_ok s ->
  match send_loop fuel (Some id) buffer size offset s with
  | Ret (r, s') => serial_ok s' /\ (r = 0 \/ r = -1)
  | OutOfFuel => True
  | _ => False
  end.
Proof.
  revert offset s. induction fuel as [| fuel IH]; intros offset s Hok;
    [exact I |].
  destruct (decide (Z.of_nat offset < size)) as [Hin | Hout].
  - rewrite send_loop_pass by exact Hin. cbv zeta.
    destruct (decide (_ < 0)).
    + edestruct serial_reinit_device_ok as (r & s' & Hrun & Hok');
        [| unfold serial_bind; rewrite Hrun; cbn [exec_bind serial_ret];
           split; [exact Hok' | now right]].
      now apply serial_ok_with_calls.
    + apply IH. now apply serial_ok_with_calls.
  - cbn [send_loop]. rewrite decide_False by exact Hout.
    split; [exact Hok | now left].
Qed.

(** The configuration of one device in [serial_init], up to the call of
    [serial_start_device]. *)
Lemma serial_init_configure (id : serial_device_id) (key path : list byte)
    (B : Type) (k : serial B) (s : serial_state) :
  (run _ <- set_ready (Some id) 0;
   run found <- uci_get_string key;
   run _ <- set_device (Some id) found;
   run d <- load_device (Some id);
   run _ <- (if decide (device d = None)
        then set_device (Some id) (Some path) else serial_ret tt);
   k) s
  = let found := env_uci_get_string (length (trace s)) key in
    k (with_calls [uci_get_string_ key found]
            (with_device id
               (mk_serial_device 0 (Some (default path found))
                  (ufd_fd (device_of id s)) (ufd_cb (device_of id s))) s)).
Proof.
  destruct s as [dm da tr]. cbv zeta.
  destruct id; serial_run; cbn [device_of motors accelerometer];
    destruct (env_uci_get_string (length tr) key) as [found |];
    [ rewrite decide_False by discriminate
    | rewrite decide_True by reflexivity
    | rewrite decide_False by discriminate
    | rewrite decide_True by reflexivity ];
    serial_run; reflexivity.
Qed.

(** X23. What [serial_init] returns. It returns 0 exactly when the motors
    device has been opened and configured and is left ready, whatever became
    of the accelerometer; otherwise it returns -1 with the motors device not
    ready, and it has then not looked at the accelerometer at all: its
    fields are as before, and its configuration key has not been read. The
    motors device is given the path configured, or the default one; the
    accelerometer has a path whenever 0 is returned. *)
Theorem serial_init_returns (s : serial_state) :
  exists r s',
    serial_init s = Ret (r, s')
    /\ device (motors s')
       = Some (default serial_text.default_mcu
                 (env_uci_get_string (length (trace s)) serial_text.mcu_device))
    /\ (r = 0 /\ ready (motors s') = 1
        /\ (exists path, device (accelerometer s') = Some path)
        \/ r = -1 /\ ready (motors s') = 0
           /\ accelerometer s' = accelerometer s
           /\ Forall (fun e => forall found,
                        e <> uci_get_string_ serial_text.accelerometer_device found)
                (drop (length (trace s)) (trace s'))).
Proof.
  unfold serial_init.
  rewrite (serial_init_configure device_motors). cbv zeta.
  set (found := env_uci_get_string (length (trace s)) serial_text.mcu_device).
  set (s0 := with_calls _ _).
  unfold serial_bind at 1.
  rewrite serial_start_device_unfold.
  destruct (serial_init_device_returns device_motors 0
              (with_calls [frame_parser_init_ device_motors] s0))
    as (r & calls & d' & Hrun & _ & Hcalls & Hdev & Hr).
  rewrite Hrun. cbn [exec_bind fst snd].
  assert (Hpath : device d' = Some (default serial_text.default_mcu found)).
  { rewrite Hdev. unfold s0.
    now rewrite !device_of_with_calls, device_of_with_device. }
  assert (Hready0 : ready (device_of device_motors
                             (with_calls [frame_parser_init_ device_motors] s0))
                    = 0).
  { unfold s0. now rewrite !device_of_with_calls, device_of_with_device. }
  destruct Hr as [[-> Hready] | (-> & Hready & _)].
  - rewrite decide_True by lia. eexists (-1), _. split; [reflexivity |].
    split; [exact Hpath |]. right. split; [reflexivity |].
    split; [cbn [with_calls with_device motors]; congruence |].
    split; [reflexivity |].
    unfold s0. cbn [with_calls with_device trace].
    rewrite <- !app_assoc, drop_app_length.
    repeat (apply Forall_cons; split; [intros found'; discriminate |]).
    eapply Forall_impl; [exact Hcalls |].
    intros e He found'. apply He.
  - rewrite decide_False by lia.
    set (s1 := with_calls calls _).
    rewrite (serial_init_configure device_accelerometer). cbv zeta.
    set (s2 := with_calls _ (with_device device_accelerometer _ s1)).
    unfold serial_bind at 1.
    rewrite serial_start_device_unfold.
    destruct (serial_init_device_returns device_accelerometer 0
                (with_calls [frame_parser_init_ device_accelerometer] s2))
      as (r2 & calls2 & d2 & Hrun2 & _ & _ & Hdev2 & _).
    rewrite Hrun2. cbn [exec_bind fst snd serial_ret].
    eexists 0, _. split; [reflexivity |].
    cbn [with_calls with_device motors accelerometer].
    split; [exact Hpath |]. left. split; [reflexivity |].
    split; [exact Hready |].
    rewrite Hdev2. unfold s2.
    rewrite !device_of_with_calls, device_of_with_device. cbn [device].
    eexists. reflexivity.
Qed.

(** X24. That every device that is ready has a descriptor that is not
    negative, its callback set and a path, is kept by the functions of
    serial.c. From a state in which it holds, [serial_init],
    [serial_fd_handler] and [serial_set_message_handler] return and leave it
    true; [serial_send_message] returns 0 or -1 and leaves it true, unless
    its device is neither of the two (it then writes through a null
    pointer), or its device is ready and its loop does not end. *)
Theorem serial_ready_device_is_open (s : serial_state) :
  serial_ok s ->
  (exists r s', serial_init s = Ret (r, s') /\ serial_ok s')
  /\ (forall fd, exists s', serial_fd_handler fd s = Ret (tt, s') /\ serial_ok s')
  /\ (forall dev,
        exists s', serial_set_message_handler dev s = Ret (tt, s') /\ serial_ok s')
  /\ (forall fuel dev message,
        match serial_send_message fuel dev message s with
        | Ret (r, s') => serial_ok s' /\ (r = 0 \/ r = -1)
        | Undefined => serial_get_device dev = None
        | OutOfFuel =>
            exists id, serial_get_device dev = Some id
                       /\ ready (device_of id s) = 1
        | AssertFailed => False
        end).
Proof.
  intros Hok. split; [| split; [| split]].
  - unfold serial_init.
    rewrite (serial_init_configure device_motors). cbv zeta.
    set (s0 := with_calls _ _).
    assert (Hok0 : serial_ok s0).
    { apply serial_ok_with_calls, serial_ok_with_device; [exact Hok | now left]. }
    destruct (serial_start_device_ok device_motors s0 Hok0)
      as (r & s1 & Hrun & Hok1 & _).
    unfold serial_bind at 1. rewrite Hrun. cbn [exec_bind fst snd].
    destruct (decide (r <> 0)); [now exists r, s1 |].
    rewrite (serial_init_configure device_accelerometer). cbv zeta.
    set (s2 := with_calls _ _).
    assert (Hok2 : serial_ok s2).
    { apply serial_ok_with_calls, serial_ok_with_device; [exact Hok1 | now left]. }
    destruct (serial_start_device_ok device_accelerometer s2 Hok2)
      as (r3 & s3 & Hrun3 & Hok3 & _).
    unfold serial_bind at 1. rewrite Hrun3. cbn [exec_bind fst snd].
    now exists 0, s3.
  - intros fd. unfold serial_fd_handler, serial_get_device_fd.
    unfold serial_bind at 1.
    assert (Hhandle : forall id,
      exists s',
        (run d <- load_device (Some id);
         if decide (ready d = 0)
         then serial_ret tt
         else
           run r <- read (ufd_fd d) 1024;
           let '(size, buffer) := r in
           if decide (size < 0)
           then
             run _ <- syslog LOG_ERR serial_text.read_failed;
             run _ <- serial_reinit_device (Some id);
             serial_ret tt
           else emit (frame_parser_push_buffer_ id buffer size)) s
        = Ret (tt, s') /\ serial_ok s').
    { intros id.
      assert (Hload : load_device (Some id) s = Ret (device_of id s, s))
        by now destruct id.
      unfold serial_bind at 1. rewrite Hload. cbn [exec_bind fst snd].
      destruct (decide (ready (device_of id s) = 0)); [now exists s |].
      unfold serial_bind at 1, read at 1.
      unfold serial_bind at 1, now_ at 1. cbn [exec_bind fst snd].
      unfold serial_bind at 1, emit at 1. cbn [exec_bind fst snd serial_ret].
      destruct (env_read _ _ _) as [size buffer]. cbn [fst snd].
      destruct (decide (size < 0)).
      - unfold serial_bind at 1, syslog at 1, emit at 1.
        cbn [exec_bind fst snd motors accelerometer trace].
        edestruct serial_reinit_device_ok as (r & s' & Hrun & Hok');
          [| unfold serial_bind; rewrite Hrun; cbn [exec_bind serial_ret];
             exists s'; split; [reflexivity | exact Hok']].
        exact Hok.
      - eexists. split; [reflexivity | exact Hok]. }
    destruct (decide (fd = ufd_fd (motors s))); cbn [exec_bind fst snd];
      [apply Hhandle |].
    destruct (decide (fd = ufd_fd (accelerometer s))); cbn [exec_bind fst snd];
      [apply Hhandle |].
    now exists s.
  - intros dev. unfold serial_set_message_handler.
    destruct (serial_get_device dev); eexists; (split; [reflexivity | exact Hok]).
  - intros fuel dev message.
    destruct (serial_get_device dev) as [id |] eqn:Hid.
    2: { unfold serial_send_message. rewrite Hid. reflexivity. }
    destruct (decide (ready (device_of id s) = 0)) as [Hnot | Hready].
    { rewrite (serial_send_message_reinit _ _ id) by assumption.
      destruct (serial_reinit_device_ok id s Hok) as (r & s' & Hrun & Hok').
      unfold serial_bind. rewrite Hrun. cbn [exec_bind fst snd].
      split; [exact Hok' | now right]. }
    pose proof (serial_ok_device_of id s Hok) as [Hzero | (Hone & Hfd & _)];
      [contradiction |].
    rewrite (serial_send_message_ready _ _ id) by assumption. cbv zeta.
    destruct (decide (_ < 0)); [split; [exact Hok | now right] |].
    match goal with
    | |- context [send_loop ?f ?c ?b ?n ?o ?st] =>
        pose proof (send_loop_ok f id b n o st) as Hloop;
        destruct (send_loop f c b n o st) as [[r s'] | | |]
    end.
    + apply Hloop, Hok.
    + apply Hloop, Hok.
    + exfalso. apply Hloop, Hok.
    + now exists id.
Qed.

(** ** The handler and a descriptor number held twice *)

(** X25. [serial_fd_handler] finds its device by the number of the
    descriptor, the motors device first, whether or not that device is
    ready. When the motors device is not ready and the accelerometer is, a
    report for the accelerometer's descriptor is read from the descriptor
    as long as the motors device holds another number; when the motors
    device holds the same number, left there by a failed
    re-initialisation, the handler returns without a call: the input of the
    accelerometer is not read. *)
Theorem serial_fd_handler_stale_descriptor (s : serial_state) :
  ready (motors s) = 0 ->
  ready (accelerometer s) <> 0 ->
  let fd := ufd_fd (accelerometer s) in
  (fd = ufd_fd (motors s) -> serial_fd_handler fd s = Ret (tt, s))
  /\ (fd <> ufd_fd (motors s) ->
      exists s' size buffer rest,
        serial_fd_handler fd s = Ret (tt, s')
        /\ trace s' = trace s ++ read_ fd 1024 size buffer :: rest).
Proof.
  intros Hm Ha fd. split; intros Hfd.
  - unfold serial_fd_handler, serial_get_device_fd. unfold serial_bind at 1.
    rewrite decide_True by exact Hfd. cbn [exec_bind fst snd].
    unfold serial_bind, load_device. cbn [exec_bind fst snd].
    rewrite decide_True by exact Hm. reflexivity.
  - unfold serial_fd_handler, serial_get_device_fd. unfold serial_bind at 1.
    rewrite decide_False by exact Hfd.
    rewrite decide_True by reflexivity. cbn [exec_bind fst snd].
    unfold serial_bind at 1, load_device at 1. cbn [exec_bind fst snd].
    rewrite decide_False by exact Ha.
    unfold serial_bind at 1, read at 1.
    unfold serial_bind at 1, now_ at 1. cbn [exec_bind fst snd].
    unfold serial_bind at 1, emit at 1. cbn [exec_bind fst snd serial_ret].
    fold fd.
    destruct (env_read (length (trace s)) fd 1024) as [size buffer].
    cbn [fst snd]. destruct (decide (size < 0)).
    + unfold serial_bind at 1, syslog at 1, emit at 1.
      cbn [exec_bind fst snd motors accelerometer trace].
      unfold serial_bind. rewrite serial_reinit_device_unfold. cbv zeta.
      edestruct serial_init_device_returns as (r & calls & d' & Hrun & _).
      rewrite Hrun. cbn [exec_bind fst snd serial_ret].
      eexists _, size, buffer, _. split; [reflexivity |].
      rewrite trace_with_calls, trace_with_device, trace_with_calls,
        trace_with_device.
      cbn [trace]. rewrite <- !app_assoc. reflexivity.
    + eexists _, size, buffer, _. split; [reflexivity |].
      unfold emit. cbn [trace]. rewrite <- app_assoc. reflexivity.
Qed.

End serial_properties.

(** * The further properties on concrete inputs *)

(** X2 on inputs: a record cut off in its value after a complete one leaves
    the empty message, in a message that held two records; the move-motor
    message parses, and its 22 slots after the three records are zero. *)
Lemma message_parse_leaves_witness :
  message_parse (H := little_endian_host) (fun _ => true) two_commands
    [x01; x00; x01; x02; x04; x00; x0c; xff]
  = Ret (MESSAGE_ERROR_PARSE_ERROR, empty_message)
  /\ drop 3 (msg_tlv move_motor_message) = replicate 22 zero_tlv.
Proof.
  assert (Hfail : message_parse (H := little_endian_host) (fun _ => true)
                    two_commands [x01; x00; x01; x02; x04; x00; x0c; xff]
                  = Ret (MESSAGE_ERROR_PARSE_ERROR, empty_message))
    by (vm_compute; reflexivity).
  assert (Hok : message_parse (H := little_endian_host) (fun _ => true)
                  two_commands move_motor_wire
                = Ret (MESSAGE_SUCCESS, move_motor_message))
    by (vm_compute; reflexivity).
  split.
  - exact Hfail.
  - exact (proj2 (proj2 (proj2 (proj2 (message_parse_leaves
             (H := little_endian_host) _ _ _ _ _ Hok) eq_refl)))).
Defined.

(** X3 on inputs: the 26 bytes of the move-motor message parse, and the
    message serializes to the same 26 bytes. *)
Lemma message_parse_serialize_witness :
  wire_format (records move_motor_message) = move_motor_wire
  /\ message_serialized_size move_motor_message = 26%nat
  /\ message_serialize (H := little_endian_host) (replicate 28 xee)
       move_motor_message
     = Ret (26, move_motor_wire ++ [xee; xee]).
Proof.
  assert (Hok : message_parse (H := little_endian_host) (fun _ => true)
                  empty_message move_motor_wire
                = Ret (MESSAGE_SUCCESS, move_motor_message))
    by (vm_compute; reflexivity).
  exact (message_parse_serialize (H := little_endian_host) (fun _ => true)
           empty_message move_motor_message move_motor_wire (replicate 28 xee)
           Hok ltac:(vm_compute; lia)).
Defined.

(** X4 on inputs: the three records of the move-motor message meet the
    criterion, and their wire format parses to three records. *)
Lemma message_parse_accepts_witness :
  exists m,
    message_parse (H := little_endian_host) (fun _ => true) empty_message
      move_motor_wire
    = Ret (MESSAGE_SUCCESS, m)
    /\ msg_length m = 3%nat
    /\ records m = records move_motor_message.
Proof.
  assert (Hrs : Forall wf_tlv (records move_motor_message)) by by_evaluation.
  destruct (message_parse_accepts (H := little_endian_host) (fun _ => true)
              empty_message (records move_motor_message) Hrs)
    as [[_ Haccept] Hrecords].
  destruct Haccept as [m Hparse].
  - split; [vm_compute; lia |]. split; [reflexivity |].
    apply (checksums_valid_accepted (H := little_endian_host)). by_evaluation.
  - exists m. split; [exact Hparse |]. exact (Hrecords m Hparse).
Defined.

(** X5 on inputs: a command record and its checksum record parse; with the
    type byte of the command changed from 01 to 02, a reply, they still
    parse. *)
Lemma message_parse_types_unprotected_witness :
  exists m',
    message_parse (H := little_endian_host) (fun _ => true) empty_message
      [x02; x00; x01; x02; x03; x00; x04; x3c; x0c; x8e; xa1]
    = Ret (MESSAGE_SUCCESS, m')
    /\ records m'
       = [mk_tlv x02 1 (Some [x02]); mk_tlv x03 4 (Some [x3c; x0c; x8e; xa1])].
Proof.
  apply (message_parse_types_unprotected (H := little_endian_host)
           (fun _ => true) empty_message
           (append_records empty_message
              [mk_tlv x01 1 (Some [x02]);
               mk_tlv x03 4 (Some [x3c; x0c; x8e; xa1])])
           [mk_tlv x01 1 (Some [x02]); mk_tlv x03 4 (Some [x3c; x0c; x8e; xa1])]
           [mk_tlv x02 1 (Some [x02]); mk_tlv x03 4 (Some [x3c; x0c; x8e; xa1])]).
  - by_evaluation.
  - by_evaluation.
  - reflexivity.
  - reflexivity.
  - vm_compute. reflexivity.
Defined.

(** X6 on inputs: the move-motor message ends in its checksum record; a
    current reading record after it is accepted, and is the fourth record. *)
Lemma message_parse_trailing_records_witness :
  exists m',
    message_parse (H := little_endian_host) (fun _ => true) empty_message
      (move_motor_wire ++ [x05; x00; x02; x12; x34])
    = Ret (MESSAGE_SUCCESS, m')
    /\ msg_length m' = 4%nat
    /\ records m' = records move_motor_message ++ [mk_tlv x05 2 (Some [x12; x34])].
Proof.
  apply (message_parse_trailing_records (H := little_endian_host)
           (fun _ => true) empty_message move_motor_message move_motor_wire
           [mk_tlv x05 2 (Some [x12; x34])]).
  - vm_compute. reflexivity.
  - by_evaluation.
  - constructor; [vm_compute; discriminate | constructor].
  - vm_compute. lia.
  - reflexivity.
Defined.

(** X7 on inputs: the first allocation succeeds and the second fails; the
    command record that was read is not kept. *)
Lemma message_parse_out_of_memory_witness :
  message_parse (H := little_endian_host) (fun i => bool_decide (i < 1)%nat)
    two_commands
    ([x01; x00; x01; x02] ++ [x05; x00; x02; x12; x34] ++ [x01; x00; x01; x07])
  = Ret (MESSAGE_ERROR_OUT_OF_MEMORY, empty_message).
Proof.
  apply (message_parse_out_of_memory (H := little_endian_host)
           (fun i => bool_decide (i < 1)%nat) two_commands
           [mk_tlv x01 1 (Some [x02])] (mk_tlv x05 2 (Some [x12; x34]))
           [x01; x00; x01; x07]).
  - by_evaluation.
  - by_evaluation.
  - vm_compute. lia.
  - intros i Hi. apply bool_decide_eq_true_2. exact Hi.
  - split; [| exact I]. intros Hck. vm_compute in Hck. discriminate.
  - reflexivity.
Defined.

(** X8 on inputs: a reply record added to a message of two command records.
    The get of a command finds what it found before; the get of a reply
    finds the new record; a current reading is still not found. *)
Lemma message_tlv_add_get_witness :
  message_tlv_get
    (append_records empty_message
       [mk_tlv x01 1 (Some [x02]); mk_tlv x01 1 (Some [x05]);
        mk_tlv x02 1 (Some [x07])])
    x01 [x00]
  = message_tlv_get two_commands x01 [x00]
  /\ message_tlv_get
       (append_records empty_message
          [mk_tlv x01 1 (Some [x02]); mk_tlv x01 1 (Some [x05]);
           mk_tlv x02 1 (Some [x07])])
       x02 [x00; xee]
     = Ret (MESSAGE_SUCCESS, [x07; xee])
  /\ message_tlv_get
       (append_records empty_message
          [mk_tlv x01 1 (Some [x02]); mk_tlv x01 1 (Some [x05]);
           mk_tlv x02 1 (Some [x07])])
       x05 [x00; xee]
     = Ret (MESSAGE_ERROR_TLV_NOT_FOUND, [x00; xee]).
Proof.
  assert (Hadd : message_tlv_add true two_commands x02 1 [x07]
                 = Ret (MESSAGE_SUCCESS,
                        append_records empty_message
                          [mk_tlv x01 1 (Some [x02]); mk_tlv x01 1 (Some [x05]);
                           mk_tlv x02 1 (Some [x07])]))
    by (vm_compute; reflexivity).
  split; [| split].
  - exact (message_tlv_add_get true two_commands _ x02 x01 1 [x07] [x00]
             two_commands_well_formed Hadd).
  - exact (proj1 (message_tlv_add_get true two_commands _ x02 x02 1 [x07]
                    [x00; xee] two_commands_well_formed Hadd)
             ltac:(vm_compute; discriminate)).
  - exact (message_tlv_add_get true two_commands _ x02 x05 1 [x07] [x00; xee]
             two_commands_well_formed Hadd).
Defined.

(** X9 on inputs: the command [COMMAND_HOMING] and the reply
    [REPLY_ERROR_REPORT] come back; 258 comes back as 2. *)
Lemma command_reply_roundtrip_witness :
  (exists m',
     message_tlv_add_command true empty_message
       COMMAND_HOMING
     = Ret (MESSAGE_SUCCESS, m')
     /\ records m' = [mk_tlv x01 1 (Some [x06])]
     /\ message_tlv_get_command (H := little_endian_host) m' 0 xee
        = Ret (MESSAGE_SUCCESS, COMMAND_HOMING))
  /\ (exists m',
        message_tlv_add_reply true empty_message
          REPLY_ERROR_REPORT
        = Ret (MESSAGE_SUCCESS, m')
        /\ records m' = [mk_tlv x02 1 (Some [x02])]
        /\ message_tlv_get_reply (H := little_endian_host) m' 0 xee
           = Ret (MESSAGE_SUCCESS, REPLY_ERROR_REPORT))
  /\ (exists m',
        message_tlv_add_command true empty_message 258
        = Ret (MESSAGE_SUCCESS, m')
        /\ records m' = [mk_tlv x01 1 (Some [x02])]
        /\ message_tlv_get_command (H := big_endian_host) m' 0 xee
           = Ret (MESSAGE_SUCCESS, 2)).
Proof.
  assert (Hwf : wf_message empty_message) by by_evaluation.
  assert (Hroom : (msg_length empty_message < MAX_TLV_COUNT)%nat)
    by (vm_compute; lia).
  split; [| split].
  - exact (proj1 (command_reply_roundtrip (H := little_endian_host) empty_message
                    COMMAND_HOMING 0 xee Hwf Hroom) (Forall_nil_2 _)).
  - exact (proj2 (command_reply_roundtrip (H := little_endian_host) empty_message
                    REPLY_ERROR_REPORT 0 xee Hwf Hroom) (Forall_nil_2 _)).
  - exact (proj1 (command_reply_roundtrip (H := big_endian_host) empty_message
                    258 0 xee Hwf Hroom) (Forall_nil_2 _)).
Defined.

(** X10 on inputs: the reading 1234 hexadecimal, on either host. *)
Lemma current_reading_roundtrip_witness :
  (exists m',
     message_tlv_add_current_reading (H := little_endian_host) true empty_message
       4660
     = Ret (MESSAGE_SUCCESS, m')
     /\ records m' = [mk_tlv x05 2 (Some [x12; x34])]
     /\ message_tlv_get_current_reading (H := little_endian_host) m' 0
        = Ret (MESSAGE_SUCCESS, 4660))
  /\ (exists m',
        message_tlv_add_current_reading (H := big_endian_host) true empty_message
          4660
        = Ret (MESSAGE_SUCCESS, m')
        /\ records m' = [mk_tlv x05 2 (Some [x12; x34])]
        /\ message_tlv_get_current_reading (H := big_endian_host) m' 0
           = Ret (MESSAGE_SUCCESS, 4660)).
Proof.
  assert (Hwf : wf_message empty_message) by by_evaluation.
  assert (Hroom : (msg_length empty_message < MAX_TLV_COUNT)%nat)
    by (vm_compute; lia).
  split.
  - exact (current_reading_roundtrip (H := little_endian_host) empty_message
             4660 0 Hwf Hroom (Forall_nil_2 _)).
  - exact (current_reading_roundtrip (H := big_endian_host) empty_message
             4660 0 Hwf Hroom (Forall_nil_2 _)).
Defined.

(** X11 on inputs: the message of two command records has no reply, no
    motor position and no current reading. *)
Lemma typed_get_not_found_witness :
  message_tlv_get_reply (H := little_endian_host) two_commands
    REPLY_STATUS_REPORT xee
  = Ret (MESSAGE_ERROR_TLV_NOT_FOUND, REPLY_STATUS_REPORT)
  /\ message_tlv_get_motor_position (H := little_endian_host) two_commands
       {| motor_x := -7; motor_y := 8; motor_z := 9 |}
     = Ret (MESSAGE_ERROR_TLV_NOT_FOUND,
            {| motor_x := -7; motor_y := 8; motor_z := 9 |})
  /\ message_tlv_get_current_reading (H := big_endian_host) two_commands 4660
     = Ret (MESSAGE_ERROR_TLV_NOT_FOUND, 4660).
Proof.
  pose proof (typed_get_not_found (H := little_endian_host) two_commands
                two_commands_well_formed) as (_ & Hreply & Hmotor & _).
  pose proof (typed_get_not_found (H := big_endian_host) two_commands
                two_commands_well_formed) as (_ & _ & _ & Hcurrent).
  split; [| split].
  - apply Hreply. by_evaluation.
  - apply Hmotor; [by_evaluation | | |]; unfold is_int32; simpl; lia.
  - apply Hcurrent; [by_evaluation | lia].
Defined.

(** X12 on inputs: the wire bytes 01 00 00, a command record without a
    value, parse; the getter then returns whatever its local held, here AB
    hexadecimal. *)
Lemma typed_get_empty_record_witness :
  message_parse (H := little_endian_host) (fun _ => true) empty_message
    [x01; x00; x00]
  = Ret (MESSAGE_SUCCESS, append_records empty_message [mk_tlv x01 0 (Some [])])
  /\ message_tlv_get_command (H := little_endian_host)
       (append_records empty_message [mk_tlv x01 0 (Some [])])
       COMMAND_GET_STATUS xab
     = Ret (MESSAGE_SUCCESS, 171).
Proof.
  assert (Hparse : message_parse (H := little_endian_host) (fun _ => true)
                     empty_message [x01; x00; x00]
                   = Ret (MESSAGE_SUCCESS,
                          append_records empty_message [mk_tlv x01 0 (Some [])]))
    by (vm_compute; reflexivity).
  split; [exact Hparse |].
  exact (proj1 (typed_get_empty_record (H := little_endian_host) (fun _ => true)
                  empty_message _ _ x01 0%nat (mk_tlv x01 0 (Some [])) Hparse
                  eq_refl eq_refl) eq_refl COMMAND_GET_STATUS xab).
Defined.

(** X13 on inputs: of the 26 bytes of the move-motor message a buffer of 20
    receives the first two records, 19 bytes, and keeps its last byte. *)
Lemma message_serialize_partial_witness :
  exists k,
    (k < 3)%nat
    /\ (length (wire_format (take k (records move_motor_message))) <= 20
        < length (wire_format (take (S k) (records move_motor_message))))%nat
    /\ message_serialize (H := little_endian_host) (replicate 20 xee)
         move_motor_message
       = Ret (-3,
              wire_format (take k (records move_motor_message))
              ++ drop (length (wire_format (take k (records move_motor_message))))
                   (replicate 20 xee)).
Proof.
  exact (message_serialize_partial (H := little_endian_host) move_motor_message
           (replicate 20 xee) move_motor_well_formed ltac:(vm_compute; lia)).
Defined.

(** X14 on inputs: a record of two bytes added to the move-motor message, 26
    bytes, makes 31; an add the allocator refuses leaves 26. *)
Lemma message_serialized_size_add_witness :
  message_serialized_size
    (append_records empty_message
       (records move_motor_message ++ [mk_tlv x05 2 (Some [x12; x34])]))
  = 31%nat
  /\ message_serialized_size (set_value 3 None move_motor_message) = 26%nat.
Proof.
  split.
  - exact (message_serialized_size_add true move_motor_message _ x05 2 [x12; x34]
             MESSAGE_SUCCESS move_motor_well_formed
             ltac:(vm_compute; reflexivity)).
  - exact (message_serialized_size_add false move_motor_message _ x05 2 [x12; x34]
             MESSAGE_ERROR_OUT_OF_MEMORY move_motor_well_formed
             ltac:(vm_compute; reflexivity)).
Defined.

(** X15 on inputs: the move-motor message read from the wire, on either
    host. *)
Lemma typed_get_decodes_witness :
  message_tlv_get_motor_position (H := little_endian_host) move_motor_message
    {| motor_x := 7; motor_y := 8; motor_z := 9 |}
  = Ret (MESSAGE_SUCCESS, {| motor_x := -1; motor_y := 1000000; motor_z := 0 |})
  /\ message_tlv_get_motor_position (H := big_endian_host) move_motor_message
       {| motor_x := 7; motor_y := 8; motor_z := 9 |}
     = Ret (MESSAGE_SUCCESS, {| motor_x := -1; motor_y := 1000000; motor_z := 0 |})
  /\ message_tlv_get_command (H := little_endian_host) move_motor_message 0 xee
     = Ret (MESSAGE_SUCCESS, COMMAND_MOVE_MOTOR).
Proof.
  split; [| split].
  - exact (proj1 (typed_get_decodes (H := little_endian_host) move_motor_message
                    x04 1%nat _ move_motor_well_formed eq_refl)
             eq_refl eq_refl {| motor_x := 7; motor_y := 8; motor_z := 9 |}).
  - exact (proj1 (typed_get_decodes (H := big_endian_host) move_motor_message
                    x04 1%nat _ move_motor_well_formed eq_refl)
             eq_refl eq_refl {| motor_x := 7; motor_y := 8; motor_z := 9 |}).
  - exact (proj2 (proj2 (typed_get_decodes (H := little_endian_host)
                           move_motor_message x01 0%nat _
                           move_motor_well_formed eq_refl))
             eq_refl eq_refl 0 xee).
Defined.

(** X16 on inputs: the dump of the move-motor message. *)
Lemma message_print_renders_witness :
  message_print move_motor_message = Ret fmt.move_motor_dump.
Proof.
  exact (message_print_renders move_motor_message move_motor_well_formed).
Defined.

(** X17 on inputs: a checksum record that is no checksum, after a command
    record. Two blocks are allocated, one is freed, and the message comes
    back empty. *)
Lemma message_parse_heap_balance_witness :
  message_parse_heap (H := little_endian_host) (fun _ => true) empty_message
    [x01; x00; x01; x02; x03; x00; x01; x01]
  = Ret (MESSAGE_ERROR_CHECKSUM_MISMATCH, empty_message,
         [malloc_call 1 (Some [x00]); malloc_call 1 (Some [x00]);
          free_call (Some [x02])])
  /\ allocated [malloc_call 1 (Some [x00]); malloc_call 1 (Some [x00]);
                free_call (Some [x02])]
     = (freed [malloc_call 1 (Some [x00]); malloc_call 1 (Some [x00]);
               free_call (Some [x02])] + 1)%nat.
Proof.
  destruct (message_parse_heap_balance (H := little_endian_host) (fun _ => true)
              empty_message empty_message
              [x01; x00; x01; x02; x03; x00; x01; x01]
              MESSAGE_ERROR_CHECKSUM_MISMATCH)
    as (calls & Hheap & Hbalance & _); [vm_compute; reflexivity |].
  assert (E : calls = [malloc_call 1 (Some [x00]); malloc_call 1 (Some [x00]);
                       free_call (Some [x02])]).
  { vm_compute in Hheap. now injection Hheap as <-. }
  subst calls. split; [exact Hheap | exact Hbalance].
Defined.

(** X18 on inputs: 7 is neither device. *)
Lemma serial_send_message_unknown_device_witness :
  serial_get_device (H := sample_environment 0 write_one) 7 = None
  /\ serial_send_message (H := sample_environment 0 write_one) 1 7
       move_motor_message serial_start
     = Undefined
  /\ serial_set_message_handler (H := sample_environment 0 write_one) 7
       serial_start
     = Ret (tt, with_calls [syslog_ LOG_ERR serial_text.set_handler_failed]
                  serial_start).
Proof.
  exact (serial_send_message_unknown_device
           (H := sample_environment 0 write_one) 1 7 move_motor_message
           serial_start ltac:(vm_compute; discriminate)
           ltac:(vm_compute; discriminate)).
Defined.

(** X19 on inputs: the motors device is not ready; the message is not sent,
    and the device is ready afterwards. *)
Lemma serial_send_message_not_ready_witness :
  exists calls d',
    serial_send_message (H := sample_environment 0 write_one) 30 0
      move_motor_message motors_not_ready
    = Ret (-1, with_calls ([uloop_fd_delete_ device_motors; close_ 3] ++ calls)
                 (with_device device_motors d' motors_not_ready))
    /\ Forall (fun e => is_transmission e = false) calls
    /\ ready d' = 1.
Proof.
  destruct (serial_send_message_not_ready
              (H := sample_environment 0 write_one) 30 0 device_motors
              move_motor_message motors_not_ready eq_refl eq_refl)
    as (calls & d' & Hsend & Hcalls & Hready).
  exists calls, d'. split; [exact Hsend |]. split; [exact Hcalls |].
  apply (Hready serial_text.default_mcu eq_refl); vm_compute; discriminate.
Defined.

(** X20 on inputs: the 26 bytes of the move-motor message, written one byte
    at a time. *)
Lemma serial_send_message_sends_witness :
  exists calls,
    serial_send_message (H := sample_environment 0 write_one) 27 0
      move_motor_message motors_ready
    = Ret (0, with_calls
                (frame_message_ 64 move_motor_message 26 move_motor_wire :: calls)
                motors_ready)
    /\ sent calls = move_motor_wire
    /\ (length calls <= 26)%nat.
Proof.
  destruct (serial_send_message_sends
              (H := sample_environment 0 write_one) 27 0 device_motors
              move_motor_message motors_ready 26 move_motor_wire)
    as (calls & Hsend & Hsent & _ & Hcount).
  - reflexivity.
  - vm_compute. discriminate.
  - vm_compute. discriminate.
  - vm_compute. reflexivity.
  - vm_compute. split; discriminate.
  - intros t fd [| b bytes] Hne; [contradiction |].
    cbn [env_write sample_environment write_one length]. lia.
  - vm_compute. reflexivity.
  - exists calls. split; [exact Hsend |]. split; [exact Hsent | exact Hcount].
Defined.

(** X21 on inputs: the same message, when [write] takes nothing. *)
Lemma serial_send_message_spins_witness :
  serial_send_message (H := sample_environment 0 write_none) 1000 0
    move_motor_message motors_ready
  = OutOfFuel.
Proof.
  apply (serial_send_message_spins
           (H := sample_environment 0 write_none) 1000 0 device_motors).
  - reflexivity.
  - vm_compute. discriminate.
  - vm_compute. discriminate.
  - vm_compute. reflexivity.
  - reflexivity.
Defined.

(** X22 on inputs: [tcgetattr] fails on descriptor 3, which is closed by
    [serial_start_device] and again by [serial_send_message]. *)
Lemma serial_descriptor_closed_twice_witness :
  exists s1,
    serial_start_device (H := sample_environment (-1) write_one)
      (Some device_motors) motors_not_ready
    = Ret (-1, s1)
    /\ trace s1
       = [frame_parser_init_ device_motors; open_ serial_text.default_mcu 3;
          tcgetattr_ 3 (-1);
          syslog_ LOG_ERR serial_text.get_configuration_failed; close_ 3]
    /\ exists s2 calls,
         serial_send_message (H := sample_environment (-1) write_one) 30 0
           move_motor_message s1
         = Ret (-1, s2)
         /\ trace s2
            = trace s1 ++ [uloop_fd_delete_ device_motors; close_ 3] ++ calls.
Proof.
  destruct (serial_descriptor_closed_twice
              (H := sample_environment (-1) write_one) 30 0 device_motors
              move_motor_message motors_not_ready serial_text.default_mcu
              eq_refl eq_refl eq_refl ltac:(vm_compute; discriminate)
              ltac:(vm_compute; reflexivity))
    as (s1 & Hstart & _ & _ & Htrace & Hsend).
  exists s1. split; [exact Hstart |]. split; [exact Htrace | exact Hsend].
Defined.

(** X24 on inputs: the state the program starts in. *)
Lemma serial_ready_device_is_open_witness :
  serial_ok serial_start
  /\ exists r s',
       serial_init (H := sample_environment 0 write_one) serial_start
       = Ret (r, s')
       /\ serial_ok s'.
Proof.
  assert (Hok : serial_ok serial_start) by (split; now left).
  split; [exact Hok |].
  exact (proj1 (serial_ready_device_is_open
                  (H := sample_environment 0 write_one) serial_start Hok)).
Defined.

(** X25 on inputs: both devices start, as descriptors 3 and 4. Reading
    from 3 fails, and the motors device is opened again as 3 but cannot be
    configured: it is left not ready, holding 3. Reading from 4 fails, and
    the accelerometer is opened again, as 3, and is ready. A report for
    descriptor 3 is then ignored. *)
Lemma serial_fd_handler_stale_descriptor_witness :
  stale_run serial_start = Ret (tt, stale_state)
  /\ ready (motors stale_state) = 0
  /\ ready (accelerometer stale_state) = 1
  /\ ufd_fd (motors stale_state) = 3
  /\ ufd_fd (accelerometer stale_state) = 3
  /\ serial_fd_handler (H := stale_environment) 3 stale_state
     = Ret (tt, stale_state).
Proof.
  split; [vm_compute; reflexivity |].
  split; [reflexivity |]. split; [reflexivity |]. split; [reflexivity |].
  split; [reflexivity |].
  exact (proj1 (serial_fd_handler_stale_descriptor
                  (H := stale_environment) stale_state eq_refl
                  ltac:(vm_compute; discriminate)) eq_refl).
Defined.
